(** * GameYob DS sound engine: register dispatcher, timing engine and
      cross-core messaging (platform/ds/arm9/source/dssoundengine.cpp)

    The translation unit is embedded as state-passing functions over a
    record [State] that gathers the [SoundEngine] object, the two
    [SharedData] blocks ([sharedData] seen by the ARM7 and
    [dummySharedData] used while muted), the [Gameboy] collaborator, the
    global flags and the hardware FIFO.

    - C [int] is a 32-bit two's complement integer: every arithmetic
      result is wrapped by [int32]; [u8] and [u32] are the conversions to
      the unsigned types.
    - [sharedPtr] is only ever assigned by [mute] and [unmute], together
      with [muted]; it is therefore read off the [muted] flag.
    - The ARM7 runs concurrently.  Its actions are only observable by the
      ARM9 code of this file inside the spin loop of [synchronizeSound];
      they are given by a finite script [arm7] of events, one per volatile
      read of the loop.  A function returns [None] when the script ends
      while the ARM9 is still spinning, or when a [while] loop of
      [updateSound] exceeds its iteration budget. *)

From Stdlib Require Import ZArith List Bool Lia String.
Import ListNotations.
Local Open Scope Z_scope.

(** ** Machine integers *)

Definition int32 (x : Z) : Z := (x + 2147483648) mod 4294967296 - 2147483648.
Definition u32 (x : Z) : Z := x mod 4294967296.
Definition u8 (x : Z) : Z := Z.land x 0xFF.

Definition iadd (a b : Z) : Z := int32 (a + b).
Definition isub (a b : Z) : Z := int32 (a - b).
Definition imul (a b : Z) : Z := int32 (a * b).
(** C division truncates towards zero. *)
Definition idiv (a b : Z) : Z := int32 (Z.quot a b).
Definition ishl (a n : Z) : Z := int32 (Z.shiftl a n).
Definition ishr (a n : Z) : Z := Z.shiftr a n.

(** [x & m] used as a condition. *)
Definition bitset (x m : Z) : bool := negb (Z.land x m =? 0).

(** ** Four-element arrays ([chanVol[4]] and the like) *)

Record Arr4 (A : Type) : Type := mkArr4 { a0 : A; a1 : A; a2 : A; a3 : A }.
Arguments mkArr4 {A} _ _ _ _.
Arguments a0 {A} _.
Arguments a1 {A} _.
Arguments a2 {A} _.
Arguments a3 {A} _.

Definition get4 {A} (i : Z) (a : Arr4 A) : A :=
  match i with 0 => a0 a | 1 => a1 a | 2 => a2 a | _ => a3 a end.

(** An index outside 0..3 designates no cell (the source never uses one). *)
Definition set4 {A} (i : Z) (v : A) (a : Arr4 A) : Arr4 A :=
  match i with
  | 0 => mkArr4 v (a1 a) (a2 a) (a3 a)
  | 1 => mkArr4 (a0 a) v (a2 a) (a3 a)
  | 2 => mkArr4 (a0 a) (a1 a) v (a3 a)
  | 3 => mkArr4 (a0 a) (a1 a) (a2 a) v
  | _ => a
  end.

Definition fill4 {A} (v : A) : Arr4 A := mkArr4 v v v v.

(** Byte buffers ([sampleData], [pcmVals]) as lists. *)
Fixpoint list_set (l : list Z) (n : nat) (v : Z) : list Z :=
  match l, n with
  | [], _ => []
  | _ :: t, O => v :: t
  | h :: t, S k => h :: list_set t k v
  end.

(** ** Constants of the absent headers *)

(** The headers that define the clock rate and the command codes are not
    part of the sources at hand; they are parameters of the development. *)
Class Header : Type := {
  clockSpeed : Z;
  GBSND_UPDATE_COMMAND : Z;
  GBSND_START_COMMAND : Z;
  GBSND_VOLUME_COMMAND : Z;
  GBSND_MASTER_VOLUME_COMMAND : Z;
  GBSND_MUTE_COMMAND : Z;
  GBSND_UNMUTE_COMMAND : Z;
  (* default value of the second parameter of [refreshSoundVolume] *)
  refreshSoundVolume_send : bool
}.

(** Modelled from the spec: the channel masks [CHAN_1] .. [CHAN_4] are
    declared in an absent header; the spec calls them the channels'
    on-bits of the shared bitmask, and the source tests the very same
    bits as [1<<i]. *)
Definition CHAN_1 : Z := 1.
Definition CHAN_2 : Z := 2.
Definition CHAN_3 : Z := 4.
Definition CHAN_4 : Z := 8.

Definition MAX_FIFOS_WAITING : Z := 60.

(** ** Data model *)

(** [chan4FreqRatio] is a [double] that only ever holds [val&0x7] or 0.5. *)
Inductive FreqRatio : Type :=
| RatioHalf : FreqRatio
| RatioInt (n : Z) : FreqRatio.

Record SoundEngine : Type := mkEngine {
  chan4FreqRatio : FreqRatio;
  chan1SweepTime : Z;
  chan1SweepCounter : Z;
  chan1SweepDir : Z;
  chan1SweepAmount : Z;
  chanLen : Arr4 Z;
  chanLenCounter : Arr4 Z;
  chanUseLen : Arr4 Z;
  chanFreq : Arr4 Z;
  chanVol : Arr4 Z;
  chanEnvDir : Arr4 Z;
  chanEnvCounter : Arr4 Z;
  chanEnvSweep : Arr4 Z;
  pcmVals : list Z;
  sampleData : list Z;
  cyclesToSoundEvent : Z;
  muted : bool
}.

Record SharedData : Type := mkShared {
  chanOn : Z;
  chanDuty : Arr4 Z;
  chanRealVol : Arr4 Z;
  chanRealFreq : Arr4 Z;
  chanPan : Arr4 Z;
  chanEnabled : Arr4 bool;
  volControl : Z;
  chanOutput : Z;
  lfsr7Bit : Z;
  message : Z;
  fifosSent : Z;
  fifosReceived : Z;
  hyperSound : bool;
  scaleTransferReady : bool;
  frameFlip_Gameboy : Z;
  frameFlip_DS : Z;
  dsCycles : Z;
  cycles : Z;
  sampleDataPtr : bool   (* [sharedPtr->sampleData] points at the engine's buffer *)
}.

(** The CPU-model collaborator: its register file is read through
    [readIO]; [clearSoundChannel] is recorded as a log of its arguments. *)
Record Gameboy : Type := mkGameboy {
  ioRam : Z -> Z;
  clearedChannels : list Z;
  cyclesSinceVBlank : Z;
  doubleSpeed : bool
}.

(** What the ARM7 may do between two volatile reads of the spin loop. *)
Inductive Arm7Event : Type :=
| A7Idle
| A7AckCycles          (* sets [sharedData->cycles] to -1 *)
| A7ScaleTransfer      (* raises [scaleTransferReady] *)
| A7Received.          (* consumed one FIFO value: [fifosReceived++] *)

Record State : Type := mkState {
  eng : SoundEngine;
  sharedData : SharedData;
  dummySharedData : SharedData;
  gameboy : Gameboy;
  soundDisabled : bool;
  g_hyperSound : bool;      (* the global [hyperSound] option *)
  fifo : list Z;            (* values passed to [fifoSendValue32], oldest first *)
  printLog : list string;
  arm7 : list Arm7Event
}.

(** ** Field updates *)

Definition set_chan4FreqRatio (v : FreqRatio) (e : SoundEngine) : SoundEngine :=
  mkEngine v (chan1SweepTime e) (chan1SweepCounter e) (chan1SweepDir e) (chan1SweepAmount e) (chanLen e) (chanLenCounter e) (chanUseLen e) (chanFreq e) (chanVol e) (chanEnvDir e) (chanEnvCounter e) (chanEnvSweep e) (pcmVals e) (sampleData e) (cyclesToSoundEvent e) (muted e).
Definition set_chan1SweepTime (v : Z) (e : SoundEngine) : SoundEngine :=
  mkEngine (chan4FreqRatio e) v (chan1SweepCounter e) (chan1SweepDir e) (chan1SweepAmount e) (chanLen e) (chanLenCounter e) (chanUseLen e) (chanFreq e) (chanVol e) (chanEnvDir e) (chanEnvCounter e) (chanEnvSweep e) (pcmVals e) (sampleData e) (cyclesToSoundEvent e) (muted e).
Definition set_chan1SweepCounter (v : Z) (e : SoundEngine) : SoundEngine :=
  mkEngine (chan4FreqRatio e) (chan1SweepTime e) v (chan1SweepDir e) (chan1SweepAmount e) (chanLen e) (chanLenCounter e) (chanUseLen e) (chanFreq e) (chanVol e) (chanEnvDir e) (chanEnvCounter e) (chanEnvSweep e) (pcmVals e) (sampleData e) (cyclesToSoundEvent e) (muted e).
Definition set_chan1SweepDir (v : Z) (e : SoundEngine) : SoundEngine :=
  mkEngine (chan4FreqRatio e) (chan1SweepTime e) (chan1SweepCounter e) v (chan1SweepAmount e) (chanLen e) (chanLenCounter e) (chanUseLen e) (chanFreq e) (chanVol e) (chanEnvDir e) (chanEnvCounter e) (chanEnvSweep e) (pcmVals e) (sampleData e) (cyclesToSoundEvent e) (muted e).
Definition set_chan1SweepAmount (v : Z) (e : SoundEngine) : SoundEngine :=
  mkEngine (chan4FreqRatio e) (chan1SweepTime e) (chan1SweepCounter e) (chan1SweepDir e) v (chanLen e) (chanLenCounter e) (chanUseLen e) (chanFreq e) (chanVol e) (chanEnvDir e) (chanEnvCounter e) (chanEnvSweep e) (pcmVals e) (sampleData e) (cyclesToSoundEvent e) (muted e).
Definition set_chanLen (v : Arr4 Z) (e : SoundEngine) : SoundEngine :=
  mkEngine (chan4FreqRatio e) (chan1SweepTime e) (chan1SweepCounter e) (chan1SweepDir e) (chan1SweepAmount e) v (chanLenCounter e) (chanUseLen e) (chanFreq e) (chanVol e) (chanEnvDir e) (chanEnvCounter e) (chanEnvSweep e) (pcmVals e) (sampleData e) (cyclesToSoundEvent e) (muted e).
Definition set_chanLenCounter (v : Arr4 Z) (e : SoundEngine) : SoundEngine :=
  mkEngine (chan4FreqRatio e) (chan1SweepTime e) (chan1SweepCounter e) (chan1SweepDir e) (chan1SweepAmount e) (chanLen e) v (chanUseLen e) (chanFreq e) (chanVol e) (chanEnvDir e) (chanEnvCounter e) (chanEnvSweep e) (pcmVals e) (sampleData e) (cyclesToSoundEvent e) (muted e).
Definition set_chanUseLen (v : Arr4 Z) (e : SoundEngine) : SoundEngine :=
  mkEngine (chan4FreqRatio e) (chan1SweepTime e) (chan1SweepCounter e) (chan1SweepDir e) (chan1SweepAmount e) (chanLen e) (chanLenCounter e) v (chanFreq e) (chanVol e) (chanEnvDir e) (chanEnvCounter e) (chanEnvSweep e) (pcmVals e) (sampleData e) (cyclesToSoundEvent e) (muted e).
Definition set_chanFreq (v : Arr4 Z) (e : SoundEngine) : SoundEngine :=
  mkEngine (chan4FreqRatio e) (chan1SweepTime e) (chan1SweepCounter e) (chan1SweepDir e) (chan1SweepAmount e) (chanLen e) (chanLenCounter e) (chanUseLen e) v (chanVol e) (chanEnvDir e) (chanEnvCounter e) (chanEnvSweep e) (pcmVals e) (sampleData e) (cyclesToSoundEvent e) (muted e).
Definition set_chanVol (v : Arr4 Z) (e : SoundEngine) : SoundEngine :=
  mkEngine (chan4FreqRatio e) (chan1SweepTime e) (chan1SweepCounter e) (chan1SweepDir e) (chan1SweepAmount e) (chanLen e) (chanLenCounter e) (chanUseLen e) (chanFreq e) v (chanEnvDir e) (chanEnvCounter e) (chanEnvSweep e) (pcmVals e) (sampleData e) (cyclesToSoundEvent e) (muted e).
Definition set_chanEnvDir (v : Arr4 Z) (e : SoundEngine) : SoundEngine :=
  mkEngine (chan4FreqRatio e) (chan1SweepTime e) (chan1SweepCounter e) (chan1SweepDir e) (chan1SweepAmount e) (chanLen e) (chanLenCounter e) (chanUseLen e) (chanFreq e) (chanVol e) v (chanEnvCounter e) (chanEnvSweep e) (pcmVals e) (sampleData e) (cyclesToSoundEvent e) (muted e).
Definition set_chanEnvCounter (v : Arr4 Z) (e : SoundEngine) : SoundEngine :=
  mkEngine (chan4FreqRatio e) (chan1SweepTime e) (chan1SweepCounter e) (chan1SweepDir e) (chan1SweepAmount e) (chanLen e) (chanLenCounter e) (chanUseLen e) (chanFreq e) (chanVol e) (chanEnvDir e) v (chanEnvSweep e) (pcmVals e) (sampleData e) (cyclesToSoundEvent e) (muted e).
Definition set_chanEnvSweep (v : Arr4 Z) (e : SoundEngine) : SoundEngine :=
  mkEngine (chan4FreqRatio e) (chan1SweepTime e) (chan1SweepCounter e) (chan1SweepDir e) (chan1SweepAmount e) (chanLen e) (chanLenCounter e) (chanUseLen e) (chanFreq e) (chanVol e) (chanEnvDir e) (chanEnvCounter e) v (pcmVals e) (sampleData e) (cyclesToSoundEvent e) (muted e).
Definition set_pcmVals (v : list Z) (e : SoundEngine) : SoundEngine :=
  mkEngine (chan4FreqRatio e) (chan1SweepTime e) (chan1SweepCounter e) (chan1SweepDir e) (chan1SweepAmount e) (chanLen e) (chanLenCounter e) (chanUseLen e) (chanFreq e) (chanVol e) (chanEnvDir e) (chanEnvCounter e) (chanEnvSweep e) v (sampleData e) (cyclesToSoundEvent e) (muted e).
Definition set_sampleData (v : list Z) (e : SoundEngine) : SoundEngine :=
  mkEngine (chan4FreqRatio e) (chan1SweepTime e) (chan1SweepCounter e) (chan1SweepDir e) (chan1SweepAmount e) (chanLen e) (chanLenCounter e) (chanUseLen e) (chanFreq e) (chanVol e) (chanEnvDir e) (chanEnvCounter e) (chanEnvSweep e) (pcmVals e) v (cyclesToSoundEvent e) (muted e).
Definition set_cyclesToSoundEvent (v : Z) (e : SoundEngine) : SoundEngine :=
  mkEngine (chan4FreqRatio e) (chan1SweepTime e) (chan1SweepCounter e) (chan1SweepDir e) (chan1SweepAmount e) (chanLen e) (chanLenCounter e) (chanUseLen e) (chanFreq e) (chanVol e) (chanEnvDir e) (chanEnvCounter e) (chanEnvSweep e) (pcmVals e) (sampleData e) v (muted e).
Definition set_muted (v : bool) (e : SoundEngine) : SoundEngine :=
  mkEngine (chan4FreqRatio e) (chan1SweepTime e) (chan1SweepCounter e) (chan1SweepDir e) (chan1SweepAmount e) (chanLen e) (chanLenCounter e) (chanUseLen e) (chanFreq e) (chanVol e) (chanEnvDir e) (chanEnvCounter e) (chanEnvSweep e) (pcmVals e) (sampleData e) (cyclesToSoundEvent e) v.

Definition set_chanOn (v : Z) (d : SharedData) : SharedData :=
  mkShared v (chanDuty d) (chanRealVol d) (chanRealFreq d) (chanPan d) (chanEnabled d) (volControl d) (chanOutput d) (lfsr7Bit d) (message d) (fifosSent d) (fifosReceived d) (hyperSound d) (scaleTransferReady d) (frameFlip_Gameboy d) (frameFlip_DS d) (dsCycles d) (cycles d) (sampleDataPtr d).
Definition set_chanDuty (v : Arr4 Z) (d : SharedData) : SharedData :=
  mkShared (chanOn d) v (chanRealVol d) (chanRealFreq d) (chanPan d) (chanEnabled d) (volControl d) (chanOutput d) (lfsr7Bit d) (message d) (fifosSent d) (fifosReceived d) (hyperSound d) (scaleTransferReady d) (frameFlip_Gameboy d) (frameFlip_DS d) (dsCycles d) (cycles d) (sampleDataPtr d).
Definition set_chanRealVol (v : Arr4 Z) (d : SharedData) : SharedData :=
  mkShared (chanOn d) (chanDuty d) v (chanRealFreq d) (chanPan d) (chanEnabled d) (volControl d) (chanOutput d) (lfsr7Bit d) (message d) (fifosSent d) (fifosReceived d) (hyperSound d) (scaleTransferReady d) (frameFlip_Gameboy d) (frameFlip_DS d) (dsCycles d) (cycles d) (sampleDataPtr d).
Definition set_chanRealFreq (v : Arr4 Z) (d : SharedData) : SharedData :=
  mkShared (chanOn d) (chanDuty d) (chanRealVol d) v (chanPan d) (chanEnabled d) (volControl d) (chanOutput d) (lfsr7Bit d) (message d) (fifosSent d) (fifosReceived d) (hyperSound d) (scaleTransferReady d) (frameFlip_Gameboy d) (frameFlip_DS d) (dsCycles d) (cycles d) (sampleDataPtr d).
Definition set_chanPan (v : Arr4 Z) (d : SharedData) : SharedData :=
  mkShared (chanOn d) (chanDuty d) (chanRealVol d) (chanRealFreq d) v (chanEnabled d) (volControl d) (chanOutput d) (lfsr7Bit d) (message d) (fifosSent d) (fifosReceived d) (hyperSound d) (scaleTransferReady d) (frameFlip_Gameboy d) (frameFlip_DS d) (dsCycles d) (cycles d) (sampleDataPtr d).
Definition set_chanEnabled (v : Arr4 bool) (d : SharedData) : SharedData :=
  mkShared (chanOn d) (chanDuty d) (chanRealVol d) (chanRealFreq d) (chanPan d) v (volControl d) (chanOutput d) (lfsr7Bit d) (message d) (fifosSent d) (fifosReceived d) (hyperSound d) (scaleTransferReady d) (frameFlip_Gameboy d) (frameFlip_DS d) (dsCycles d) (cycles d) (sampleDataPtr d).
Definition set_volControl (v : Z) (d : SharedData) : SharedData :=
  mkShared (chanOn d) (chanDuty d) (chanRealVol d) (chanRealFreq d) (chanPan d) (chanEnabled d) v (chanOutput d) (lfsr7Bit d) (message d) (fifosSent d) (fifosReceived d) (hyperSound d) (scaleTransferReady d) (frameFlip_Gameboy d) (frameFlip_DS d) (dsCycles d) (cycles d) (sampleDataPtr d).
Definition set_chanOutput (v : Z) (d : SharedData) : SharedData :=
  mkShared (chanOn d) (chanDuty d) (chanRealVol d) (chanRealFreq d) (chanPan d) (chanEnabled d) (volControl d) v (lfsr7Bit d) (message d) (fifosSent d) (fifosReceived d) (hyperSound d) (scaleTransferReady d) (frameFlip_Gameboy d) (frameFlip_DS d) (dsCycles d) (cycles d) (sampleDataPtr d).
Definition set_lfsr7Bit (v : Z) (d : SharedData) : SharedData :=
  mkShared (chanOn d) (chanDuty d) (chanRealVol d) (chanRealFreq d) (chanPan d) (chanEnabled d) (volControl d) (chanOutput d) v (message d) (fifosSent d) (fifosReceived d) (hyperSound d) (scaleTransferReady d) (frameFlip_Gameboy d) (frameFlip_DS d) (dsCycles d) (cycles d) (sampleDataPtr d).
Definition set_message (v : Z) (d : SharedData) : SharedData :=
  mkShared (chanOn d) (chanDuty d) (chanRealVol d) (chanRealFreq d) (chanPan d) (chanEnabled d) (volControl d) (chanOutput d) (lfsr7Bit d) v (fifosSent d) (fifosReceived d) (hyperSound d) (scaleTransferReady d) (frameFlip_Gameboy d) (frameFlip_DS d) (dsCycles d) (cycles d) (sampleDataPtr d).
Definition set_fifosSent (v : Z) (d : SharedData) : SharedData :=
  mkShared (chanOn d) (chanDuty d) (chanRealVol d) (chanRealFreq d) (chanPan d) (chanEnabled d) (volControl d) (chanOutput d) (lfsr7Bit d) (message d) v (fifosReceived d) (hyperSound d) (scaleTransferReady d) (frameFlip_Gameboy d) (frameFlip_DS d) (dsCycles d) (cycles d) (sampleDataPtr d).
Definition set_fifosReceived (v : Z) (d : SharedData) : SharedData :=
  mkShared (chanOn d) (chanDuty d) (chanRealVol d) (chanRealFreq d) (chanPan d) (chanEnabled d) (volControl d) (chanOutput d) (lfsr7Bit d) (message d) (fifosSent d) v (hyperSound d) (scaleTransferReady d) (frameFlip_Gameboy d) (frameFlip_DS d) (dsCycles d) (cycles d) (sampleDataPtr d).
Definition set_scaleTransferReady (v : bool) (d : SharedData) : SharedData :=
  mkShared (chanOn d) (chanDuty d) (chanRealVol d) (chanRealFreq d) (chanPan d) (chanEnabled d) (volControl d) (chanOutput d) (lfsr7Bit d) (message d) (fifosSent d) (fifosReceived d) (hyperSound d) v (frameFlip_Gameboy d) (frameFlip_DS d) (dsCycles d) (cycles d) (sampleDataPtr d).
Definition set_cycles (v : Z) (d : SharedData) : SharedData :=
  mkShared (chanOn d) (chanDuty d) (chanRealVol d) (chanRealFreq d) (chanPan d) (chanEnabled d) (volControl d) (chanOutput d) (lfsr7Bit d) (message d) (fifosSent d) (fifosReceived d) (hyperSound d) (scaleTransferReady d) (frameFlip_Gameboy d) (frameFlip_DS d) (dsCycles d) v (sampleDataPtr d).
Definition set_sampleDataPtr (v : bool) (d : SharedData) : SharedData :=
  mkShared (chanOn d) (chanDuty d) (chanRealVol d) (chanRealFreq d) (chanPan d) (chanEnabled d) (volControl d) (chanOutput d) (lfsr7Bit d) (message d) (fifosSent d) (fifosReceived d) (hyperSound d) (scaleTransferReady d) (frameFlip_Gameboy d) (frameFlip_DS d) (dsCycles d) (cycles d) v.

Definition set_clearedChannels (v : list Z) (g : Gameboy) : Gameboy :=
  mkGameboy (ioRam g) v (cyclesSinceVBlank g) (doubleSpeed g).

Definition set_eng (v : SoundEngine) (s : State) : State :=
  mkState v (sharedData s) (dummySharedData s) (gameboy s) (soundDisabled s) (g_hyperSound s) (fifo s) (printLog s) (arm7 s).
Definition set_sharedData (v : SharedData) (s : State) : State :=
  mkState (eng s) v (dummySharedData s) (gameboy s) (soundDisabled s) (g_hyperSound s) (fifo s) (printLog s) (arm7 s).
Definition set_dummySharedData (v : SharedData) (s : State) : State :=
  mkState (eng s) (sharedData s) v (gameboy s) (soundDisabled s) (g_hyperSound s) (fifo s) (printLog s) (arm7 s).
Definition set_gameboy (v : Gameboy) (s : State) : State :=
  mkState (eng s) (sharedData s) (dummySharedData s) v (soundDisabled s) (g_hyperSound s) (fifo s) (printLog s) (arm7 s).
Definition set_soundDisabled (v : bool) (s : State) : State :=
  mkState (eng s) (sharedData s) (dummySharedData s) (gameboy s) v (g_hyperSound s) (fifo s) (printLog s) (arm7 s).
Definition set_g_hyperSound (v : bool) (s : State) : State :=
  mkState (eng s) (sharedData s) (dummySharedData s) (gameboy s) (soundDisabled s) v (fifo s) (printLog s) (arm7 s).
Definition set_fifo (v : list Z) (s : State) : State :=
  mkState (eng s) (sharedData s) (dummySharedData s) (gameboy s) (soundDisabled s) (g_hyperSound s) v (printLog s) (arm7 s).
Definition set_printLog (v : list string) (s : State) : State :=
  mkState (eng s) (sharedData s) (dummySharedData s) (gameboy s) (soundDisabled s) (g_hyperSound s) (fifo s) v (arm7 s).
Definition set_arm7 (v : list Arm7Event) (s : State) : State :=
  mkState (eng s) (sharedData s) (dummySharedData s) (gameboy s) (soundDisabled s) (g_hyperSound s) (fifo s) (printLog s) v.

(** ** Access paths

    [sharedPtr] designates [dummySharedData] while muted and [sharedData]
    otherwise; [asg_f] is the assignment [f = v] of a member of the
    engine, [asg_f i v] the assignment [f[i] = v], and [asgp_f] the same
    through [sharedPtr]. *)

Definition upd_eng (f : SoundEngine -> SoundEngine) (s : State) : State :=
  set_eng (f (eng s)) s.
Definition upd_sharedData (f : SharedData -> SharedData) (s : State) : State :=
  set_sharedData (f (sharedData s)) s.
Definition upd_dummySharedData (f : SharedData -> SharedData) (s : State) : State :=
  set_dummySharedData (f (dummySharedData s)) s.

Definition sharedPtr (s : State) : SharedData :=
  if muted (eng s) then dummySharedData s else sharedData s.
Definition upd_sharedPtr (f : SharedData -> SharedData) (s : State) : State :=
  if muted (eng s) then upd_dummySharedData f s else upd_sharedData f s.

Definition at_chanLen (i : Z) (s : State) : Z := get4 i (chanLen (eng s)).
Definition asg_chanLen (i v : Z) (s : State) : State :=
  upd_eng (fun e => set_chanLen (set4 i v (chanLen e)) e) s.
Definition at_chanLenCounter (i : Z) (s : State) : Z := get4 i (chanLenCounter (eng s)).
Definition asg_chanLenCounter (i v : Z) (s : State) : State :=
  upd_eng (fun e => set_chanLenCounter (set4 i v (chanLenCounter e)) e) s.
Definition at_chanUseLen (i : Z) (s : State) : Z := get4 i (chanUseLen (eng s)).
Definition asg_chanUseLen (i v : Z) (s : State) : State :=
  upd_eng (fun e => set_chanUseLen (set4 i v (chanUseLen e)) e) s.
Definition at_chanFreq (i : Z) (s : State) : Z := get4 i (chanFreq (eng s)).
Definition asg_chanFreq (i v : Z) (s : State) : State :=
  upd_eng (fun e => set_chanFreq (set4 i v (chanFreq e)) e) s.
Definition at_chanVol (i : Z) (s : State) : Z := get4 i (chanVol (eng s)).
Definition asg_chanVol (i v : Z) (s : State) : State :=
  upd_eng (fun e => set_chanVol (set4 i v (chanVol e)) e) s.
Definition at_chanEnvDir (i : Z) (s : State) : Z := get4 i (chanEnvDir (eng s)).
Definition asg_chanEnvDir (i v : Z) (s : State) : State :=
  upd_eng (fun e => set_chanEnvDir (set4 i v (chanEnvDir e)) e) s.
Definition at_chanEnvCounter (i : Z) (s : State) : Z := get4 i (chanEnvCounter (eng s)).
Definition asg_chanEnvCounter (i v : Z) (s : State) : State :=
  upd_eng (fun e => set_chanEnvCounter (set4 i v (chanEnvCounter e)) e) s.
Definition at_chanEnvSweep (i : Z) (s : State) : Z := get4 i (chanEnvSweep (eng s)).
Definition asg_chanEnvSweep (i v : Z) (s : State) : State :=
  upd_eng (fun e => set_chanEnvSweep (set4 i v (chanEnvSweep e)) e) s.
Definition asg_chan4FreqRatio (v : FreqRatio) (s : State) : State := upd_eng (set_chan4FreqRatio v) s.
Definition asg_chan1SweepTime (v : Z) (s : State) : State := upd_eng (set_chan1SweepTime v) s.
Definition asg_chan1SweepCounter (v : Z) (s : State) : State := upd_eng (set_chan1SweepCounter v) s.
Definition asg_chan1SweepDir (v : Z) (s : State) : State := upd_eng (set_chan1SweepDir v) s.
Definition asg_chan1SweepAmount (v : Z) (s : State) : State := upd_eng (set_chan1SweepAmount v) s.
Definition asg_sampleData (v : list Z) (s : State) : State := upd_eng (set_sampleData v) s.
Definition asg_cyclesToSoundEvent (v : Z) (s : State) : State := upd_eng (set_cyclesToSoundEvent v) s.
Definition asgp_chanDuty (i v : Z) (s : State) : State :=
  upd_sharedPtr (fun d => set_chanDuty (set4 i v (chanDuty d)) d) s.
Definition asgp_chanRealVol (i v : Z) (s : State) : State :=
  upd_sharedPtr (fun d => set_chanRealVol (set4 i v (chanRealVol d)) d) s.
Definition asgp_chanRealFreq (i v : Z) (s : State) : State :=
  upd_sharedPtr (fun d => set_chanRealFreq (set4 i v (chanRealFreq d)) d) s.
Definition asgp_chanPan (i v : Z) (s : State) : State :=
  upd_sharedPtr (fun d => set_chanPan (set4 i v (chanPan d)) d) s.
Definition asgp_chanOn (v : Z) (s : State) : State := upd_sharedPtr (set_chanOn v) s.
Definition asgp_volControl (v : Z) (s : State) : State := upd_sharedPtr (set_volControl v) s.
Definition asgp_chanOutput (v : Z) (s : State) : State := upd_sharedPtr (set_chanOutput v) s.
Definition asgp_lfsr7Bit (v : Z) (s : State) : State := upd_sharedPtr (set_lfsr7Bit v) s.
Definition asgp_message (v : Z) (s : State) : State := upd_sharedPtr (set_message v) s.
Definition asgp_cycles (v : Z) (s : State) : State := upd_sharedPtr (set_cycles v) s.

(** A C integer used as a condition. *)
Definition truthy (x : Z) : bool := negb (x =? 0).

(** [gameboy->readIO(r)] returns a [u8]. *)
Definition readIO (s : State) (r : Z) : Z := u8 (ioRam (gameboy s) r).

(** [gameboy->clearSoundChannel(c)]. *)
Definition clearSoundChannel (c : Z) (s : State) : State :=
  set_gameboy (set_clearedChannels (clearedChannels (gameboy s) ++ [c]) (gameboy s)) s.

Definition newline : string := String (Ascii.ascii_of_nat 10) EmptyString.

(** Sequencing of calls that may not return. *)
Definition bind {A B : Type} (m : option A) (k : A -> option B) : option B :=
  match m with Some a => k a | None => None end.
Notation "x <- m ;; k" := (bind m (fun x => k))
  (at level 61, m at next level, right associativity).

(** ** The FIFO *)

Definition fifoSendValue32 (v : Z) (s : State) : State :=
  set_fifo (fifo s ++ [v]) s.

Definition FIFO_SEND (msg : Z) (s : State) : State :=
  let message := u32 msg in
  if isub (fifosSent (sharedData s)) (fifosReceived (sharedData s)) <? MAX_FIFOS_WAITING
  then
    let s := upd_sharedData (fun d => set_fifosSent (iadd (fifosSent d) 1) d) s in
    fifoSendValue32 message s
  else
    set_printLog (printLog s ++ [("Sound error" ++ newline)%string]) s.

Section Engine.
Context {hdr : Header}.

Definition muteSND (s : State) : State :=
  let s := upd_sharedData (fun d => set_fifosSent (iadd (fifosSent d) 1) d) s in
  fifoSendValue32 (u32 (ishl GBSND_MUTE_COMMAND 20)) s.

Definition unmuteSND (s : State) : State :=
  let s := upd_sharedData (fun d => set_fifosSent (iadd (fifosSent d) 1) d) s in
  fifoSendValue32 (u32 (ishl GBSND_UNMUTE_COMMAND 20)) s.

Definition enableChannel (i : Z) (s : State) : State :=
  upd_sharedData (fun d => set_chanEnabled (set4 i true (chanEnabled d)) d) s.
Definition disableChannel (i : Z) (s : State) : State :=
  upd_sharedData (fun d => set_chanEnabled (set4 i false (chanEnabled d)) d) s.

(** ** SoundEngine *)

Definition mute (s : State) : State := upd_eng (set_muted true) s.
Definition unmute (s : State) : State := upd_eng (set_muted false) s.

Definition setSoundEventCycles (cycles : Z) (s : State) : State :=
  if cyclesToSoundEvent (eng s) >? cycles
  then asg_cyclesToSoundEvent cycles s
  else s.

(** *** synchronizeSound *)

Definition arm7_step (e : Arm7Event) (s : State) : State :=
  match e with
  | A7Idle => s
  | A7AckCycles => upd_sharedData (set_cycles (-1)) s
  | A7ScaleTransfer => upd_sharedData (set_scaleTransferReady true) s
  | A7Received =>
      upd_sharedData (fun d => set_fifosReceived (iadd (fifosReceived d) 1) d) s
  end.

(** One volatile read: the ARM7 performs the next event of its script
    first (none when the script is over). *)
Definition observe (s : State) : State :=
  match arm7 s with
  | [] => s
  | e :: rest => set_arm7 rest (arm7_step e s)
  end.

(** [while (sharedPtr->cycles != -1) { if (sharedPtr->scaleTransferReady)
    { sharedPtr->cycles = -1; goto sendByFifo; } }] *)
Fixpoint spinWait (fuel : nat) (s : State) : option State :=
  match fuel with
  | O => None
  | S k =>
      let s := observe s in
      if cycles (sharedPtr s) =? -1 then Some s
      else
        let s := observe s in
        if scaleTransferReady (sharedPtr s) then
          let s := asgp_cycles (-1) s in
          Some (FIFO_SEND (message (sharedPtr s)) s)
        else spinWait k s
  end.

Definition synchronizeSound (s : State) : option State :=
  if muted (eng s) then Some s
  else
    let now := cyclesSinceVBlank (gameboy s) in
    let now := if doubleSpeed (gameboy s) then idiv now 2 else now in
    if hyperSound (sharedPtr s)
       && negb (scaleTransferReady (sharedPtr s))
       && negb (negb (frameFlip_Gameboy (sharedPtr s) =? frameFlip_DS (sharedPtr s))
                || (dsCycles (sharedPtr s) >=? now))
    then
      let s := asgp_cycles now s in
      (* once the script is over the shared block no longer changes: one
         further iteration decides whether the loop ever ends *)
      spinWait (S (List.length (arm7 s))) s
    else
      Some (FIFO_SEND (message (sharedPtr s)) s).

Definition sendStartMessage (i : Z) (s : State) : option State :=
  let s := asgp_message (Z.lor (ishl GBSND_START_COMMAND 20) i) s in
  synchronizeSound s.

Definition sendUpdateMessage (i : Z) (s : State) : option State :=
  let i := if i =? -1 then 4 else i in
  let s := asgp_message (Z.lor (ishl GBSND_UPDATE_COMMAND 20) i) s in
  synchronizeSound s.

Definition sendGlobalVolumeMessage (s : State) : option State :=
  let s := asgp_message (ishl GBSND_MASTER_VOLUME_COMMAND 20) s in
  synchronizeSound s.

(** *** Pushing channel parameters to the shared block *)

Definition refreshSoundPan (i : Z) (s : State) : State :=
  if bitset (chanOutput (sharedPtr s)) (Z.shiftl 1 i)
     && bitset (chanOutput (sharedPtr s)) (Z.shiftl 1 (i + 4))
  then asgp_chanPan i 64 s
  else if bitset (chanOutput (sharedPtr s)) (Z.shiftl 1 i)
  then asgp_chanPan i 127 s
  else if bitset (chanOutput (sharedPtr s)) (Z.shiftl 1 (i + 4))
  then asgp_chanPan i 0 s
  else asgp_chanPan i 128 s.

Definition refreshSoundVolume (i : Z) (send : bool) (s : State) : option State :=
  if negb (bitset (chanOn (sharedPtr s)) (Z.shiftl 1 i))
     || negb (get4 i (chanEnabled (sharedPtr s)))
  then Some s
  else
    let volume := at_chanVol i s in
    if send && negb (get4 i (chanRealVol (sharedPtr s)) =? volume) then
      let s := asgp_chanRealVol i volume s in
      let s := asgp_message (Z.lor (ishl GBSND_VOLUME_COMMAND 20) i) s in
      synchronizeSound s
    else
      Some (asgp_chanRealVol i volume s).

(** [(int)(524288 / chan4FreqRatio)] for the values the ratio can hold. *)
Definition ratio_quot (n : Z) (r : FreqRatio) : Z :=
  match r with
  | RatioHalf => n * 2
  | RatioInt k => Z.quot n k
  end.

Definition refreshSoundFreq (i : Z) (s : State) : State :=
  let freq :=
    if i <=? 1 then imul (idiv 131072 (isub 2048 (at_chanFreq i s))) 8
    else if i =? 2 then imul (idiv 65536 (isub 2048 (at_chanFreq i s))) 32
    else if i =? 3 then
      ishr (int32 (ratio_quot 524288 (chan4FreqRatio (eng s))))
           (iadd (at_chanFreq i s) 1)
    else 0 in
  asgp_chanRealFreq i freq s.

(** The body of [refreshSoundDuty] is empty. *)
Definition refreshSoundDuty (i : Z) (s : State) : State :=
  if bitset (chanOn (sharedPtr s)) (Z.shiftl 1 i) then s else s.

Definition updateSoundSample (byte : Z) (s : State) : State :=
  let sample := readIO s (0x30 + byte) in
  let s := asg_sampleData
             (list_set (sampleData (eng s)) (Z.to_nat (byte * 2))
                (u8 (nth (Z.to_nat (Z.shiftr sample 4)) (pcmVals (eng s)) 0))) s in
  asg_sampleData
    (list_set (sampleData (eng s)) (Z.to_nat (byte * 2 + 1))
       (u8 (nth (Z.to_nat (Z.land sample 0xf)) (pcmVals (eng s)) 0))) s.

(** *** handleSoundRegister

    Both parameters are [u8]; the arguments are converted on entry. *)
Definition handleSoundRegister (ioReg val : Z) (s : State) : option State :=
  let val := u8 val in
  match u8 ioReg with
  (* CHANNEL 1 *)
  | 0x10 =>
      let s := asg_chan1SweepTime (Z.land (Z.shiftr val 4) 0x7) s in
      let s :=
        if truthy (chan1SweepTime (eng s)) then
          let s := asg_chan1SweepCounter
                     (idiv clockSpeed (idiv 128 (chan1SweepTime (eng s)))) s in
          setSoundEventCycles (chan1SweepCounter (eng s)) s
        else s in
      let s := asg_chan1SweepDir (if truthy (Z.land val 0x8) then -1 else 1) s in
      let s := asg_chan1SweepAmount (Z.land val 0x7) s in
      Some s
  | 0x11 =>
      let s := asg_chanLen 0 (Z.land val 0x3F) s in
      let s := asg_chanLenCounter 0
                 (idiv (imul (isub 64 (at_chanLen 0 s)) clockSpeed) 256) s in
      let s := if truthy (at_chanUseLen 0 s)
               then setSoundEventCycles (at_chanLenCounter 0 s) s else s in
      let s := asgp_chanDuty 0 (Z.shiftr val 6) s in
      let s := refreshSoundDuty 0 s in
      sendUpdateMessage 0 s
  | 0x12 =>
      let s := asg_chanVol 0 (Z.shiftr val 4) s in
      let s := if truthy (Z.land val 0x8)
               then asg_chanEnvDir 0 1 s else asg_chanEnvDir 0 (-1) s in
      let s := asg_chanEnvSweep 0 (Z.land val 0x7) s in
      refreshSoundVolume 0 true s
  | 0x13 =>
      let s := asg_chanFreq 0 (Z.land (at_chanFreq 0 s) 0x700) s in
      let s := asg_chanFreq 0 (Z.lor (at_chanFreq 0 s) val) s in
      let s := refreshSoundFreq 0 s in
      sendUpdateMessage 0 s
  | 0x14 =>
      let s := asg_chanFreq 0 (Z.land (at_chanFreq 0 s) 0xFF) s in
      let s := asg_chanFreq 0
                 (Z.lor (at_chanFreq 0 s) (Z.shiftl (Z.land val 0x7) 8)) s in
      let s := refreshSoundFreq 0 s in
      let s := if truthy (Z.land val 0x40)
               then asg_chanUseLen 0 1 s else asg_chanUseLen 0 0 s in
      if truthy (Z.land val 0x80) then
        let s := asg_chanLenCounter 0
                   (idiv (imul (isub 64 (at_chanLen 0 s)) clockSpeed) 256) s in
        let s := if truthy (at_chanUseLen 0 s)
                 then setSoundEventCycles (at_chanLenCounter 0 s) s else s in
        let s := asgp_chanOn (Z.lor (chanOn (sharedPtr s)) CHAN_1) s in
        let s := asg_chanVol 0 (Z.shiftr (readIO s 0x12) 4) s in
        let s :=
          if truthy (chan1SweepTime (eng s)) then
            let s := asg_chan1SweepCounter
                       (idiv clockSpeed (idiv 128 (chan1SweepTime (eng s)))) s in
            setSoundEventCycles (chan1SweepCounter (eng s)) s
          else s in
        s <- refreshSoundVolume 0 false s ;;
        sendStartMessage 0 s
      else
        sendUpdateMessage 0 s
  (* CHANNEL 2 *)
  | 0x16 =>
      let s := asg_chanLen 1 (Z.land val 0x3F) s in
      let s := asg_chanLenCounter 1
                 (idiv (imul (isub 64 (at_chanLen 1 s)) clockSpeed) 256) s in
      let s := if truthy (at_chanUseLen 1 s)
               then setSoundEventCycles (at_chanLenCounter 1 s) s else s in
      let s := asgp_chanDuty 1 (Z.shiftr val 6) s in
      sendUpdateMessage 1 s
  | 0x17 =>
      let s := asg_chanVol 1 (Z.shiftr val 4) s in
      let s := if truthy (Z.land val 0x8)
               then asg_chanEnvDir 1 1 s else asg_chanEnvDir 1 (-1) s in
      let s := asg_chanEnvSweep 1 (Z.land val 0x7) s in
      refreshSoundVolume 1 true s
  | 0x18 =>
      let s := asg_chanFreq 1 (Z.land (at_chanFreq 1 s) 0x700) s in
      let s := asg_chanFreq 1 (Z.lor (at_chanFreq 1 s) val) s in
      let s := refreshSoundFreq 1 s in
      sendUpdateMessage 1 s
  | 0x19 =>
      let s := asg_chanFreq 1 (Z.land (at_chanFreq 1 s) 0xFF) s in
      let s := asg_chanFreq 1
                 (Z.lor (at_chanFreq 1 s) (Z.shiftl (Z.land val 0x7) 8)) s in
      let s := refreshSoundFreq 1 s in
      let s := if truthy (Z.land val 0x40)
               then asg_chanUseLen 1 1 s else asg_chanUseLen 1 0 s in
      if truthy (Z.land val 0x80) then
        let s := asg_chanLenCounter 1
                   (idiv (imul (isub 64 (at_chanLen 1 s)) clockSpeed) 256) s in
        let s := if truthy (at_chanUseLen 1 s)
                 then setSoundEventCycles (at_chanLenCounter 1 s) s else s in
        let s := asgp_chanOn (Z.lor (chanOn (sharedPtr s)) CHAN_2) s in
        let s := asg_chanVol 1 (Z.shiftr (readIO s 0x17) 4) s in
        s <- refreshSoundVolume 1 false s ;;
        sendStartMessage 1 s
      else
        sendUpdateMessage 1 s
  (* CHANNEL 3 *)
  | 0x1A =>
      if Z.land val 0x80 =? 0 then
        let s := asgp_chanOn (Z.land (chanOn (sharedPtr s)) (Z.lnot CHAN_3)) s in
        sendUpdateMessage 2 s
      else Some s
  | 0x1B =>
      let s := asg_chanLen 2 val s in
      let s := asg_chanLenCounter 2
                 (idiv (imul (isub 256 (at_chanLen 2 s)) clockSpeed) 256) s in
      let s := if truthy (at_chanUseLen 2 s)
               then setSoundEventCycles (at_chanLenCounter 2 s) s else s in
      Some s
  | 0x1C =>
      let s := asg_chanVol 2 (Z.land (Z.shiftr val 5) 3) s in
      let s :=
        match at_chanVol 2 s with
        | 0 => s
        | 1 => asg_chanVol 2 15 s
        | 2 => asg_chanVol 2 (Z.shiftr 15 1) s
        | 3 => asg_chanVol 2 (Z.shiftr 15 2) s
        | _ => s
        end in
      refreshSoundVolume 2 true s
  | 0x1D =>
      let s := asg_chanFreq 2 (Z.land (at_chanFreq 2 s) 0xFF00) s in
      let s := asg_chanFreq 2 (Z.lor (at_chanFreq 2 s) val) s in
      let s := refreshSoundFreq 2 s in
      sendUpdateMessage 2 s
  | 0x1E =>
      let s := asg_chanFreq 2 (Z.land (at_chanFreq 2 s) 0xFF) s in
      let s := asg_chanFreq 2
                 (Z.lor (at_chanFreq 2 s) (Z.shiftl (Z.land val 7) 8)) s in
      let s := refreshSoundFreq 2 s in
      let s := if truthy (Z.land val 0x40)
               then asg_chanUseLen 2 1 s else asg_chanUseLen 2 0 s in
      if truthy (Z.land val 0x80) && truthy (Z.land (readIO s 0x1a) 0x80) then
        let s := asgp_chanOn (Z.lor (chanOn (sharedPtr s)) CHAN_3) s in
        let s := asg_chanLenCounter 2
                   (idiv (imul (isub 256 (at_chanLen 2 s)) clockSpeed) 256) s in
        let s := if truthy (at_chanUseLen 2 s)
                 then setSoundEventCycles (at_chanLenCounter 2 s) s else s in
        s <- refreshSoundVolume 2 false s ;;
        sendStartMessage 2 s
      else
        sendUpdateMessage 2 s
  (* CHANNEL 4 *)
  | 0x20 =>
      let s := asg_chanLen 3 (Z.land val 0x3F) s in
      let s := asg_chanLenCounter 3
                 (idiv (imul (isub 64 (at_chanLen 3 s)) clockSpeed) 256) s in
      let s := if truthy (at_chanUseLen 3 s)
               then setSoundEventCycles (at_chanLenCounter 3 s) s else s in
      Some s
  | 0x21 =>
      let s := asg_chanVol 3 (Z.shiftr val 4) s in
      let s := if truthy (Z.land val 0x8)
               then asg_chanEnvDir 3 1 s else asg_chanEnvDir 3 (-1) s in
      let s := asg_chanEnvSweep 3 (Z.land val 0x7) s in
      refreshSoundVolume 3 true s
  | 0x22 =>
      let s := asg_chanFreq 3 (Z.shiftr val 4) s in
      let s := asg_chan4FreqRatio
                 (if Z.land val 0x7 =? 0 then RatioHalf
                  else RatioInt (Z.land val 0x7)) s in
      let s := asgp_lfsr7Bit (Z.land val 0x8) s in
      let s := refreshSoundFreq 3 s in
      sendUpdateMessage 3 s
  | 0x23 =>
      let s := asg_chanUseLen 3 (if truthy (Z.land val 0x40) then 1 else 0) s in
      if truthy (Z.land val 0x80) then
        let s := asg_chanLenCounter 3
                   (idiv (imul (isub 64 (at_chanLen 3 s)) clockSpeed) 256) s in
        let s := if truthy (at_chanUseLen 3 s)
                 then setSoundEventCycles (at_chanLenCounter 3 s) s else s in
        let s := asgp_chanOn (Z.lor (chanOn (sharedPtr s)) CHAN_4) s in
        let s := asg_chanVol 3 (Z.shiftr (readIO s 0x21) 4) s in
        s <- refreshSoundVolume 3 false s ;;
        sendStartMessage 3 s
      else Some s
  (* GENERAL REGISTERS *)
  | 0x24 =>
      if negb (Z.land (volControl (sharedPtr s)) 0x7 =? Z.land val 0x7) then
        let s := asgp_volControl val s in
        sendGlobalVolumeMessage s
      else
        Some (asgp_volControl val s)
  | 0x25 =>
      let s := asgp_chanOutput val s in
      let s := refreshSoundPan 0 s in
      let s := refreshSoundPan 1 s in
      let s := refreshSoundPan 2 s in
      let s := refreshSoundPan 3 s in
      s <- sendUpdateMessage (-1) s ;;
      sendGlobalVolumeMessage s
  | 0x26 =>
      if negb (truthy (Z.land val 0x80)) then
        let s := asgp_chanOn 0 s in
        sendUpdateMessage (-1) s
      else Some s
  | 0x30 | 0x31 | 0x32 | 0x33 | 0x34 | 0x35 | 0x36 | 0x37
  | 0x38 | 0x39 | 0x3A | 0x3B | 0x3C | 0x3D | 0x3E | 0x3F =>
      Some (updateSoundSample (u8 ioReg - 0x30) s)
  | _ => Some s
  end.

(** *** refresh and init *)

Definition isTriggerReg (i : Z) : bool :=
  (i =? 0x14) || (i =? 0x19) || (i =? 0x1e) || (i =? 0x23).

(** [n] iterations of the body of [for (int i=0x10; i<=0x3F; i++)],
    starting at [i]. *)
Fixpoint refreshLoop (n : nat) (i : Z) (s : State) : option State :=
  match n with
  | O => Some s
  | S k =>
      s <- (if isTriggerReg i
            then (* Don't restart the sound channels. *)
              handleSoundRegister i (Z.land (readIO s i) (Z.lnot 0x80)) s
            else handleSoundRegister i (readIO s i) s) ;;
      refreshLoop k (i + 1) s
  end.

(** The four conditional trigger writes that end [refresh]. *)
Definition retrigger (s : State) : option State :=
  s <- (if truthy (Z.land (readIO s 0x26) 1)
        then handleSoundRegister 0x14 (Z.lor (readIO s 0x14) 0x80) s
        else Some s) ;;
  s <- (if truthy (Z.land (readIO s 0x26) 2)
        then handleSoundRegister 0x19 (Z.lor (readIO s 0x19) 0x80) s
        else Some s) ;;
  s <- (if truthy (Z.land (readIO s 0x26) 4)
        then handleSoundRegister 0x1e (Z.lor (readIO s 0x1e) 0x80) s
        else Some s) ;;
  if truthy (Z.land (readIO s 0x26) 8)
  then handleSoundRegister 0x23 (Z.lor (readIO s 0x23) 0x80) s
  else Some s.

(** [soundEnable()] is the libnds call that powers the sound hardware; it
    touches nothing of the state modelled here. *)
Definition refresh (s : State) : option State :=
  let s := unmute s in
  if soundDisabled s then Some s
  else
    let s := upd_sharedPtr (set_sampleDataPtr true) s in
    let s := asgp_chanOn 0 s in
    s <- handleSoundRegister 0x26 (readIO s 0x26) s ;;
    s <- refreshLoop 48 0x10 s ;;
    retrigger s.

(** [analog[i]*0x70] converted to [int], the analog levels being given in
    ten-thousandths. *)
Definition pcmVals_init : list Z :=
  map (fun a => Z.quot (a * 0x70) 10000)
      [-10000; -8667; -7334; -6000; -4668; -3335; -2000; -670;
       664; 2000; 3330; 4668; 6000; 7334; 8667; 10000].

Definition init (s : State) : option State :=
  let s := upd_eng (set_pcmVals pcmVals_init) s in
  let s := asg_chan1SweepTime 0 s in
  let s := asg_chan1SweepCounter 0 s in
  let s := asg_chan1SweepDir 0 s in
  let s := asg_chan1SweepAmount 0 s in
  let s := upd_eng (set_chanLen (fill4 0)) s in
  let s := upd_eng (set_chanLenCounter (fill4 0)) s in
  let s := upd_eng (set_chanUseLen (fill4 0)) s in
  let s := upd_eng (set_chanFreq (fill4 0)) s in
  let s := upd_eng (set_chanVol (fill4 0)) s in
  let s := upd_eng (set_chanEnvDir (fill4 0)) s in
  let s := upd_eng (set_chanEnvCounter (fill4 0)) s in
  let s := upd_eng (set_chanEnvSweep (fill4 0)) s in
  let s := upd_eng (set_chanVol (fill4 0)) s in
  refresh s.

(** *** updateSound

    [fuel] bounds the number of iterations of each [while] loop; the
    local variable [changed] is threaded through the passes. *)

(** Body of [while (chan1SweepCounter <= 0)]. *)
Definition sweepFire (s : State) : State :=
  let s := asg_chan1SweepCounter
             (iadd (chan1SweepCounter (eng s))
                (iadd (idiv clockSpeed (idiv 128 (chan1SweepTime (eng s))))
                      (chan1SweepCounter (eng s)))) s in
  let s := asg_chanFreq 0
             (iadd (at_chanFreq 0 s)
                (imul (ishr (at_chanFreq 0 s) (chan1SweepAmount (eng s)))
                      (chan1SweepDir (eng s)))) s in
  if at_chanFreq 0 s >? 0x7FF then
    let s := asgp_chanOn (Z.land (chanOn (sharedPtr s)) (Z.lnot CHAN_1)) s in
    clearSoundChannel CHAN_1 s
  else
    refreshSoundFreq 0 s.

Fixpoint sweepLoop (fuel : nat) (changed : bool) (s : State)
  : option (bool * State) :=
  if chan1SweepCounter (eng s) <=? 0 then
    match fuel with
    | O => None
    | S k => sweepLoop k true (sweepFire s)
    end
  else Some (changed, s).

Definition sweepPass (fuel : nat) (cycles : Z) (changed : bool) (s : State)
  : option (bool * State) :=
  if bitset (chanOn (sharedPtr s)) CHAN_1 && truthy (chan1SweepTime (eng s)) then
    let s := asg_chan1SweepCounter (isub (chan1SweepCounter (eng s)) cycles) s in
    cs <- sweepLoop fuel changed s ;;
    let s := snd cs in
    let s := if bitset (chanOn (sharedPtr s)) CHAN_1
             then setSoundEventCycles (chan1SweepCounter (eng s)) s else s in
    Some (fst cs, s)
  else Some (changed, s).

(** Body of [while (chanEnvCounter[i] <= 0)]. *)
Definition envFire (i : Z) (s : State) : option State :=
  let s := asg_chanEnvCounter i
             (iadd (at_chanEnvCounter i s)
                (idiv (imul (at_chanEnvSweep i s) clockSpeed) 64)) s in
  let s := asg_chanVol i (iadd (at_chanVol i s) (at_chanEnvDir i s)) s in
  let s := if at_chanVol i s <? 0 then asg_chanVol i 0 s else s in
  let s := if at_chanVol i s >? 0xF then asg_chanVol i 0xF s else s in
  refreshSoundVolume i refreshSoundVolume_send s.

Fixpoint envLoop (fuel : nat) (i : Z) (changed : bool) (s : State)
  : option (bool * State) :=
  if at_chanEnvCounter i s <=? 0 then
    match fuel with
    | O => None
    | S k => s <- envFire i s ;; envLoop k i true s
    end
  else Some (changed, s).

(** Body of the first [for (int i=0; i<4; i++)]. *)
Definition envStep (fuel : nat) (cycles : Z) (i : Z) (cs : bool * State)
  : option (bool * State) :=
  let (changed, s) := cs in
  if negb (i =? 2) && bitset (chanOn (sharedPtr s)) (Z.shiftl 1 i) then
    if truthy (at_chanEnvSweep i s) then
      let s := asg_chanEnvCounter i (isub (at_chanEnvCounter i s) cycles) s in
      cs <- envLoop fuel i changed s ;;
      let s := snd cs in
      let s := if negb (at_chanVol i s =? 0) && negb (at_chanVol i s =? 0xF)
               then setSoundEventCycles (at_chanEnvCounter i s) s else s in
      Some (fst cs, s)
    else Some (changed, s)
  else Some (changed, s).

Definition envelopePass (fuel : nat) (cycles : Z) (cs : bool * State)
  : option (bool * State) :=
  cs <- envStep fuel cycles 0 cs ;;
  cs <- envStep fuel cycles 1 cs ;;
  cs <- envStep fuel cycles 2 cs ;;
  envStep fuel cycles 3 cs.

(** Body of the second [for (int i=0; i<4; i++)]. *)
Definition lengthStep (cycles : Z) (i : Z) (cs : bool * State) : bool * State :=
  let (changed, s) := cs in
  if bitset (chanOn (sharedPtr s)) (Z.shiftl 1 i) && truthy (at_chanUseLen i s) then
    let s := asg_chanLenCounter i (isub (at_chanLenCounter i s) cycles) s in
    if at_chanLenCounter i s <=? 0 then
      let s := asgp_chanOn
                 (Z.land (chanOn (sharedPtr s)) (Z.lnot (Z.shiftl 1 i))) s in
      let s :=
        if i =? 0 then clearSoundChannel CHAN_1 s
        else if i =? 1 then clearSoundChannel CHAN_2 s
        else if i =? 2 then clearSoundChannel CHAN_3 s
        else clearSoundChannel CHAN_4 s in
      (true, s)
    else
      (changed, setSoundEventCycles (at_chanLenCounter i s) s)
  else (changed, s).

Definition lengthPass (cycles : Z) (cs : bool * State) : bool * State :=
  lengthStep cycles 3 (lengthStep cycles 2 (lengthStep cycles 1
    (lengthStep cycles 0 cs))).

(** The tail of [updateSound]: [if (changed) ...]. *)
Definition notifyChanged (cs : bool * State) : option State :=
  let (changed, s) := cs in
  if changed then
    if g_hyperSound s then sendUpdateMessage (-1) s
    else if muted (eng s) then Some s
    else
      (* Force immediate update, even though hyperSound isn't on. *)
      Some (FIFO_SEND (Z.lor (ishl GBSND_UPDATE_COMMAND 28) 4) s)
  else Some s.

Definition updateSound (fuel : nat) (cycles : Z) (s : State) : option State :=
  if soundDisabled s then Some s
  else
    cs <- sweepPass fuel cycles false s ;;
    cs <- envelopePass fuel cycles cs ;;
    notifyChanged (lengthPass cycles cs).

End Engine.

(** ** Notions used by the statements *)

(** Sent-but-unacknowledged FIFO values, as [FIFO_SEND] computes it. *)
Definition outstanding (s : State) : Z :=
  isub (fifosSent (sharedData s)) (fifosReceived (sharedData s)).

Definition soundError : string := ("Sound error" ++ newline)%string.

(** A sequence of sends. *)
Fixpoint FIFO_SEND_all (ms : list Z) (s : State) : State :=
  match ms with
  | [] => s
  | m :: rest => FIFO_SEND_all rest (FIFO_SEND m s)
  end.

(** ** A concrete configuration

    The DMG clock rate and one numbering of the commands; used to run the
    model on examples. *)
Definition ds_header : Header := {|
  clockSpeed := 4194304;
  GBSND_UPDATE_COMMAND := 0;
  GBSND_START_COMMAND := 1;
  GBSND_VOLUME_COMMAND := 2;
  GBSND_MASTER_VOLUME_COMMAND := 3;
  GBSND_MUTE_COMMAND := 5;
  GBSND_UNMUTE_COMMAND := 6;
  refreshSoundVolume_send := false
|}.

Definition engine0 : SoundEngine := {|
  chan4FreqRatio := RatioHalf;
  chan1SweepTime := 0; chan1SweepCounter := 0;
  chan1SweepDir := 0; chan1SweepAmount := 0;
  chanLen := fill4 0; chanLenCounter := fill4 0; chanUseLen := fill4 0;
  chanFreq := fill4 0; chanVol := fill4 0; chanEnvDir := fill4 0;
  chanEnvCounter := fill4 0; chanEnvSweep := fill4 0;
  pcmVals := pcmVals_init; sampleData := repeat 0 32;
  cyclesToSoundEvent := 70224; muted := false
|}.

Definition shared0 : SharedData := {|
  chanOn := 0;
  chanDuty := fill4 0; chanRealVol := fill4 0; chanRealFreq := fill4 0;
  chanPan := fill4 0; chanEnabled := fill4 true;
  volControl := 0; chanOutput := 0; lfsr7Bit := 0; message := 0;
  fifosSent := 0; fifosReceived := 0;
  hyperSound := false; scaleTransferReady := false;
  frameFlip_Gameboy := 0; frameFlip_DS := 0;
  dsCycles := 0; cycles := -1; sampleDataPtr := false
|}.

Definition gameboy0 : Gameboy := {|
  ioRam := fun _ => 0; clearedChannels := [];
  cyclesSinceVBlank := 1000; doubleSpeed := false
|}.

Definition state0 : State := {|
  eng := engine0; sharedData := shared0; dummySharedData := shared0;
  gameboy := gameboy0; soundDisabled := false; g_hyperSound := false;
  fifo := []; printLog := []; arm7 := []
|}.

(** 58 values in flight, and the queue at its threshold. *)
Definition state_58 : State := upd_sharedData (set_fifosSent 58) state0.
Definition state_full : State := upd_sharedData (set_fifosSent 60) state0.

(** The part of a shared block that the synchronisation protocol and the
    ARM7 do not touch: everything but [cycles], the two FIFO counters and
    [scaleTransferReady]. *)
Definition protoErase (d : SharedData) : SharedData :=
  set_cycles 0 (set_fifosSent 0 (set_fifosReceived 0
    (set_scaleTransferReady false d))).

(** [s'] differs from [s] by message traffic only. *)
Definition sync_frame (s s' : State) : Prop :=
  eng s' = eng s /\
  gameboy s' = gameboy s /\
  dummySharedData s' = dummySharedData s /\
  soundDisabled s' = soundDisabled s /\
  g_hyperSound s' = g_hyperSound s /\
  protoErase (sharedData s') = protoErase (sharedData s).

(** The message traffic of a state: FIFO contents, counter of sent values
    and log. *)
Definition traffic (s : State) : list Z * Z * list string :=
  (fifo s, fifosSent (sharedData s), printLog s).

Section Notions.
Context {hdr : Header}.

(** The value that [synchronizeSound] computes into its local [cycles]. *)
Definition targetCycles (s : State) : Z :=
  if doubleSpeed (gameboy s)
  then idiv (cyclesSinceVBlank (gameboy s)) 2
  else cyclesSinceVBlank (gameboy s).

(** One turn of the spin loop that did not leave it: two volatile reads. *)
Definition spinIter (s : State) : State := observe (observe s).

(** The exit through [goto sendByFifo]. *)
Definition abortWait (s : State) : State :=
  let s := asgp_cycles (-1) s in
  FIFO_SEND (message (sharedPtr s)) s.

End Notions.

(** A muted engine in hyper-sync mode whose frame-flip flags differ. *)
Definition state_muted_hyper : State :=
  let d := mkShared 0 (fill4 0) (fill4 0) (fill4 0) (fill4 0) (fill4 true)
             0 0 0 (Z.lor (Z.shiftl 1 20) 0) 0 0 true false 1 0 0 (-1) false in
  mkState (set_muted true engine0) d d gameboy0 false true [] [] [].

(** An unmuted engine in hyper-sync mode, in phase with the ARM7 and
    behind the target cycle; the ARM7 raises [scaleTransferReady] at the
    fourth read. *)
Definition state_hyper_wait : State :=
  let d := mkShared 0 (fill4 0) (fill4 0) (fill4 0) (fill4 0) (fill4 true)
             0 0 0 77 0 0 true false 0 0 0 (-1) false in
  mkState engine0 d shared0 gameboy0 false true [] []
          [A7Idle; A7Idle; A7Idle; A7ScaleTransfer].

(** A turn of the spin loop that neither sees the acknowledgement nor the
    scale-transfer flag. *)
Definition noExit (s : State) : Prop :=
  cycles (sharedData (observe s)) <> -1 /\
  scaleTransferReady (sharedData (observe (observe s))) = false.

(** The same engine with the two frame-flip flags out of phase. *)
Definition state_hyper_desync : State :=
  let d := mkShared 0 (fill4 0) (fill4 0) (fill4 0) (fill4 0) (fill4 true)
             0 0 0 77 0 0 true false 1 0 0 (-1) false in
  mkState engine0 d shared0 gameboy0 false true [] []
          [A7Idle; A7Idle; A7Idle; A7ScaleTransfer].

(** ** Relations between the state before and after a call *)

(** What a call leaves alone besides the engine and the shared block it
    writes through [sharedPtr]: the collaborator, the global flags and the
    mute state; while muted also the real shared block, the FIFO, the log
    and the ARM7 script; while not muted the dummy block. *)
Definition write_frame (s s' : State) : Prop :=
  gameboy s' = gameboy s /\
  soundDisabled s' = soundDisabled s /\
  g_hyperSound s' = g_hyperSound s /\
  muted (eng s') = muted (eng s) /\
  (muted (eng s) = true ->
     sharedData s' = sharedData s /\ fifo s' = fifo s /\
     printLog s' = printLog s /\ arm7 s' = arm7 s) /\
  (muted (eng s) = false -> dummySharedData s' = dummySharedData s).

Definition is_muted (s : State) : Prop := muted (eng s) = true.

(** No bit of the on-bitmask is set by the call. *)
Definition noRestart (s s' : State) : Prop :=
  muted (eng s') = muted (eng s) /\
  forall n, Z.testbit (chanOn (sharedPtr s')) n = true ->
            Z.testbit (chanOn (sharedPtr s)) n = true.

(** A relation [R] that every step of a call satisfies, and a set [T] of
    states from which the call is claimed to return. *)
Record RelOK (R : State -> State -> Prop) (T : State -> Prop) : Prop := {
  R_refl : forall s, R s s;
  R_trans : forall s1 s2 s3, R s1 s2 -> R s2 s3 -> R s1 s3;
  R_T : forall s s', R s s' -> T s -> T s';
  R_sync : forall s s', synchronizeSound s = Some s' -> R s s';
  T_sync : forall s, T s -> synchronizeSound s <> None
}.

Definition Ro (R : State -> State -> Prop) (T : State -> Prop)
  (s : State) (o : option State) : Prop :=
  (T s -> o <> None) /\ forall s', o = Some s' -> R s s'.

(** [f] does not depend on what [g] changes. *)
Definition Comm (g : State -> State) (f : State -> option State) : Prop :=
  forall s, f (g s) = option_map g (f s).

(** The sound subsystem disabled from the menu, engine not muted. *)
Definition state_disabled : State := set_soundDisabled true state0.

(** A muted engine. *)
Definition state_muted : State := mute state0.

(** ** Trigger writes *)

(** Frequency-high/trigger register, envelope register and maximal length
    of a channel. *)
Definition trigReg (ch : Z) : Z :=
  match ch with 0 => 0x14 | 1 => 0x19 | 2 => 0x1E | _ => 0x23 end.
Definition envReg (ch : Z) : Z :=
  match ch with 0 => 0x12 | 1 => 0x17 | _ => 0x21 end.
Definition maxLength (ch : Z) : Z :=
  match ch with 2 => 256 | _ => 64 end.

Section TriggerNotions.
Context {hdr : Header}.

(** [(maxLength - chanLen[ch]) * clockSpeed / 256] in [int] arithmetic. *)
Definition lengthReload (ch : Z) (s : State) : Z :=
  idiv (imul (isub (maxLength ch) (at_chanLen ch s)) clockSpeed) 256.

Definition startMessage (ch : Z) : Z := Z.lor (ishl GBSND_START_COMMAND 20) ch.
Definition updateMessage (i : Z) : Z := Z.lor (ishl GBSND_UPDATE_COMMAND 20) i.

(** What a trigger write of channel [ch] made in state [s] has established
    in state [x]. *)
Definition triggered (ch : Z) (s x : State) : Prop :=
  bitset (chanOn (sharedPtr x)) (Z.shiftl 1 ch) = true /\
  chanOn (sharedPtr x) = Z.lor (chanOn (sharedPtr s)) (Z.shiftl 1 ch) /\
  at_chanLenCounter ch x = lengthReload ch s /\
  (ch <> 2 -> at_chanVol ch x = Z.shiftr (readIO s (envReg ch)) 4) /\
  (ch = 0 -> chan1SweepTime (eng s) <> 0 ->
   chan1SweepCounter (eng x)
   = idiv clockSpeed (idiv 128 (chan1SweepTime (eng s)))) /\
  message (sharedPtr x) = startMessage ch.

End TriggerNotions.

(** Two states that differ by message traffic only (FIFO, counters, log,
    handshake fields, ARM7 script). *)
Definition sameButTraffic (s s' : State) : Prop :=
  eng s' = eng s /\
  gameboy s' = gameboy s /\
  soundDisabled s' = soundDisabled s /\
  g_hyperSound s' = g_hyperSound s /\
  protoErase (sharedData s') = protoErase (sharedData s) /\
  protoErase (dummySharedData s') = protoErase (dummySharedData s).

(** A predicate on the outcome of a call. *)
Definition Post (Q : option State -> Prop) (o : option State) : Prop := Q o.

(** Channel 3 with its DAC switched on in register 0x1A. *)
Definition gameboy_dac : Gameboy :=
  mkGameboy (fun r => if r =? 0x1a then 0x80 else if r =? 0x12 then 0xA3 else 0)
            [] 1000 false.
Definition state_dac : State := set_gameboy gameboy_dac state0.

(** The message-traffic side of [x] is that of [s]. *)
Definition sameTraffic (s x : State) : Prop :=
  muted (eng x) = muted (eng s) /\
  fifo x = fifo s /\
  printLog x = printLog s /\
  fifosSent (sharedData x) = fifosSent (sharedData s) /\
  fifosReceived (sharedData x) = fifosReceived (sharedData s) /\
  hyperSound (sharedData x) = hyperSound (sharedData s).

(** Best-effort delivery: engine not muted, shared block not in hyper-sync
    mode.  [synchronizeSound] then never waits. *)
Definition best_effort (s : State) : Prop :=
  muted (eng s) = false /\ hyperSound (sharedData s) = false.

Definition mode_frame (s s' : State) : Prop :=
  muted (eng s') = muted (eng s) /\
  hyperSound (sharedData s') = hyperSound (sharedData s) /\
  gameboy s' = gameboy s.

Definition never (s : State) : Prop := False.

(** The CPU model reports channel 1 as playing (register 0x26 = 0x81) and
    holds duty 3 in register 0x11, while the shared block is blank. *)
Definition gameboy_resync : Gameboy :=
  mkGameboy (fun r => if r =? 0x26 then 0x81 else if r =? 0x11 then 0xC0 else 0)
            [] 1000 false.
Definition state_resync : State := set_gameboy gameboy_resync state0.

Section RefreshNotions.
Context {hdr : Header}.

(** The state in which [refresh] starts to replay the registers. *)
Definition refreshStart (s : State) : State :=
  asgp_chanOn 0 (upd_sharedPtr (set_sampleDataPtr true) (unmute s)).

End RefreshNotions.

(** ** Advancing the timers *)

(** Whether the on-bit of channel [i] is set in the block behind
    [sharedPtr]. *)
Definition chanOnBit (i : Z) (s : State) : bool :=
  bitset (chanOn (sharedPtr s)) (Z.shiftl 1 i).

(** Number of deactivation signals the CPU model has received for channel
    [i]. *)
Definition deactivations (i : Z) (s : State) : nat :=
  count_occ Z.eq_dec (clearedChannels (gameboy s)) (Z.shiftl 1 i).

(** The frequency a sweep firing computes: [freq + (freq >> amount) * dir]
    in [int] arithmetic. *)
Definition sweepNext (s : State) : Z :=
  iadd (at_chanFreq 0 s)
       (imul (ishr (at_chanFreq 0 s) (chan1SweepAmount (eng s)))
             (chan1SweepDir (eng s))).

(** [if (v < 0) v = 0; if (v > 0xF) v = 0xF;] *)
Definition clampVol (v : Z) : Z :=
  if v <? 0 then 0 else if v >? 0xF then 0xF else v.

(** The volumes of the three channels that have an envelope are in range. *)
Definition vol_ok (s : State) : Prop :=
  0 <= at_chanVol 0 s <= 15 /\
  0 <= at_chanVol 1 s <= 15 /\
  0 <= at_chanVol 3 s <= 15.

Definition volR (s s' : State) : Prop := vol_ok s -> vol_ok s'.

(** Everything the length pass reads or writes for channel [i] is the same
    in [s'] as in [s]. *)
Definition keepR (i : Z) (s s' : State) : Prop :=
  muted (eng s') = muted (eng s) /\
  chanOnBit i s' = chanOnBit i s /\
  at_chanUseLen i s' = at_chanUseLen i s /\
  at_chanLenCounter i s' = at_chanLenCounter i s /\
  deactivations i s' = deactivations i s.

(** The frequency of channel 0, local and pushed. *)
Definition freqR (s s' : State) : Prop :=
  muted (eng s') = muted (eng s) /\
  at_chanFreq 0 s' = at_chanFreq 0 s /\
  get4 0 (chanRealFreq (sharedPtr s')) = get4 0 (chanRealFreq (sharedPtr s)).

(** The calls the emulation core makes on the engine between two resyncs. *)
Inductive Call : Type :=
| Write (ioReg val : Z)
| Advance (fuel : nat) (cycles : Z).

(** A call that is not a write carrying the trigger bit to a trigger
    register. *)
Definition noTrigger (c : Call) : Prop :=
  match c with
  | Write r v => isTriggerReg (u8 r) = true -> Z.land (u8 v) 0x80 = 0
  | Advance _ _ => True
  end.

Definition isAdvance (c : Call) : Prop :=
  match c with
  | Write _ _ => False
  | Advance _ _ => True
  end.

Section AdvanceNotions.
Context {hdr : Header}.

Definition call (c : Call) (s : State) : option State :=
  match c with
  | Write r v => handleSoundRegister r v s
  | Advance fuel cycles => updateSound fuel cycles s
  end.

Fixpoint run (cs : list Call) (s : State) : option State :=
  match cs with
  | [] => Some s
  | c :: cs => s <- call c s ;; run cs s
  end.

(** The state in which the sweep loop of [updateSound] is entered, and the
    state after [k] firings. *)
Definition sweepStart (cycles : Z) (s : State) : State :=
  asg_chan1SweepCounter (isub (chan1SweepCounter (eng s)) cycles) s.

Definition firing (k : nat) (cycles : Z) (s : State) : State :=
  Nat.iter k sweepFire (sweepStart cycles s).

(** The end of the sweep pass: [if (sharedPtr->chanOn & CHAN_1)
    setSoundEventCycles(chan1SweepCounter);] *)
Definition sweepEnd (s : State) : State :=
  if bitset (chanOn (sharedPtr s)) CHAN_1
  then setSoundEventCycles (chan1SweepCounter (eng s)) s else s.

End AdvanceNotions.

(** Channel 1 playing at frequency 0x400 with a sweep that doubles it, the
    sweep counter at one period. *)
Definition state_sweep : State :=
  upd_sharedData (set_chanOn CHAN_1)
    (upd_eng (fun e => set_chan1SweepTime 1 (set_chan1SweepCounter 32768
                (set_chan1SweepDir 1 (set_chanFreq (set4 0 0x400 (chanFreq e)) e))))
       state0).

(** Channel 2 playing with its length enabled and 100 cycles left. *)
Definition state_len : State :=
  upd_sharedData (set_chanOn CHAN_2)
    (upd_eng (fun e => set_chanUseLen (set4 1 1 (chanUseLen e))
                (set_chanLenCounter (set4 1 100 (chanLenCounter e)) e))
       state0).

(** Channel 1 playing at full volume with a rising envelope of period 1,
    the envelope counter at one period. *)
Definition state_env : State :=
  upd_sharedData (set_chanOn CHAN_1)
    (upd_eng (fun e => set_chanVol (set4 0 15 (chanVol e))
                (set_chanEnvDir (set4 0 1 (chanEnvDir e))
                (set_chanEnvSweep (set4 0 1 (chanEnvSweep e))
                (set_chanEnvCounter (set4 0 65536 (chanEnvCounter e)) e))))
       state0).

(** What the length pass started in state [s] has done to channel [i] when
    the channel's counter expired: the pair [p] is the value of [changed]
    and the state. *)
Definition expiredAt (i cycles : Z) (s : State) (p : bool * State) : Prop :=
  fst p = true /\
  muted (eng (snd p)) = muted (eng s) /\
  chanOnBit i (snd p) = false /\
  at_chanLenCounter i (snd p) = isub (at_chanLenCounter i s) cycles /\
  deactivations i (snd p) = S (deactivations i s).

(** ** Iteration budgets of the two loops of [updateSound] *)

Section BudgetNotions.
Context {hdr : Header}.

(** The amounts by which a firing moves the sweep counter and the envelope
    counter of channel [i]. *)
Definition sweepPeriod (s : State) : Z :=
  idiv clockSpeed (idiv 128 (chan1SweepTime (eng s))).

Definition envPeriod (i : Z) (s : State) : Z :=
  idiv (imul (at_chanEnvSweep i s) clockSpeed) 64.

(** [fuel] iterations are enough for the sweep loop of
    [updateSound(cycles)] called in state [s]: a firing takes the counter
    [c] to [2 * c + period], so the loop ends only from above [-period]. *)
Definition sweepBudget (fuel : nat) (cycles : Z) (s : State) : Prop :=
  truthy (chan1SweepTime (eng s)) = true ->
  0 < sweepPeriod s < 2 ^ 30 /\
  - sweepPeriod s < isub (chan1SweepCounter (eng s)) cycles /\
  sweepPeriod s
  < 2 ^ Z.of_nat fuel * (isub (chan1SweepCounter (eng s)) cycles + sweepPeriod s).

(** [fuel] iterations are enough for the envelope loop of channel [i]. *)
Definition envBudget (fuel : nat) (cycles : Z) (i : Z) (s : State) : Prop :=
  truthy (at_chanEnvSweep i s) = true ->
  0 < envPeriod i s /\
  - isub (at_chanEnvCounter i s) cycles < envPeriod i s * Z.of_nat fuel.

End BudgetNotions.

(** The delivery mode is the same in [s'] as in [s]. *)
Definition deliveryR (s s' : State) : Prop :=
  muted (eng s') = muted (eng s) /\
  hyperSound (sharedData s') = hyperSound (sharedData s).

(** So are the envelope timers. *)
Definition timersR (s s' : State) : Prop :=
  deliveryR s s' /\
  chanEnvSweep (eng s') = chanEnvSweep (eng s) /\
  chanEnvCounter (eng s') = chanEnvCounter (eng s).

(** So are the envelope timers but for the counter of channel [i]. *)
Definition envOtherR (i : Z) (s s' : State) : Prop :=
  deliveryR s s' /\
  chanEnvSweep (eng s') = chanEnvSweep (eng s) /\
  forall j, 0 <= j < 4 -> j <> i ->
            at_chanEnvCounter j s' = at_chanEnvCounter j s.

(** ** Further notions: the scheduler bound, ignored registers *)

(** [cyclesToSoundEvent] is not larger in [s'] than in [s]. *)
Definition eventR (s s' : State) : Prop :=
  cyclesToSoundEvent (eng s') <= cyclesToSoundEvent (eng s).

(** The registers that have a [case] in [handleSoundRegister]. *)
Definition hasCase (r : Z) : bool :=
  ((0x10 <=? r) && (r <=? 0x14)) || ((0x16 <=? r) && (r <=? 0x1E))
  || ((0x20 <=? r) && (r <=? 0x26)) || ((0x30 <=? r) && (r <=? 0x3F)).

(** The pan value that [refreshSoundPan] derives for channel [i] from the
    output-selection byte [v]: bit [i] and bit [i+4] select the two
    outputs. *)
Definition panOf (v i : Z) : Z :=
  if bitset v (Z.shiftl 1 i) && bitset v (Z.shiftl 1 (i + 4)) then 64
  else if bitset v (Z.shiftl 1 i) then 127
  else if bitset v (Z.shiftl 1 (i + 4)) then 0
  else 128.

(** Frequency-low register of a channel with an 11-bit frequency. *)
Definition freqLowReg (ch : Z) : Z :=
  match ch with 0 => 0x13 | 1 => 0x18 | _ => 0x1D end.

(** The frequency that [refreshSoundFreq] pushes for a square channel. *)
Definition squareFreq (f : Z) : Z := imul (idiv 131072 (isub 2048 f)) 8.

(** What a write to a frequency register of square channel [ch] has
    established in state [x]: the local frequency is [f] and its image is
    pushed. *)
Definition freqPushed (ch f : Z) (x : State) : Prop :=
  at_chanFreq ch x = f /\
  get4 ch (chanRealFreq (sharedPtr x)) = squareFreq f.

(** The ratio that a write of [v] to register 0x22 selects, and the
    frequency that [refreshSoundFreq] pushes for the noise channel. *)
Definition noiseRatio (v : Z) : FreqRatio :=
  if Z.land v 0x7 =? 0 then RatioHalf else RatioInt (Z.land v 0x7).

Definition noiseFreq (v : Z) : Z :=
  ishr (int32 (ratio_quot 524288 (noiseRatio v))) (iadd (Z.shiftr v 4) 1).

(** ** Further notions: message traffic *)

(** The sent counter after [n] more values: [n] times [fifosSent++]. *)
Definition sentAfter (n : nat) (x : Z) : Z := Nat.iter n (fun c => iadd c 1) x.

(** From [s] to [s'] the FIFO and the log have only grown, the log by
    "Sound error" lines, and the sent counter has been incremented once
    per value appended to the FIFO. *)
Definition trafficR (s s' : State) : Prop :=
  exists l ll,
    fifo s' = fifo s ++ l /\
    fifosSent (sharedData s') = sentAfter (List.length l) (fifosSent (sharedData s)) /\
    printLog s' = printLog s ++ ll /\
    Forall (fun x => x = soundError) ll.

(** What a call leaves alone according to the mute state: the mute state
    itself and the global flags; while muted the real shared block, the
    FIFO, the log and the ARM7 script; while not muted the dummy block. *)
Definition mute_frame (s s' : State) : Prop :=
  muted (eng s') = muted (eng s) /\
  soundDisabled s' = soundDisabled s /\
  g_hyperSound s' = g_hyperSound s /\
  (muted (eng s) = true ->
     sharedData s' = sharedData s /\ fifo s' = fifo s /\
     printLog s' = printLog s /\ arm7 s' = arm7 s) /\
  (muted (eng s) = false -> dummySharedData s' = dummySharedData s).

(** ** Further notions: running timers and the next-event bound *)

(** The sweep timer, the envelope timer of channel [i] and the length
    timer of channel [i] are covered by the next-event bound: when the
    timer is running, its counter is positive and [cyclesToSoundEvent]
    does not exceed it. *)
Definition sweepScheduled (x : State) : Prop :=
  chanOnBit 0 x = true ->
  truthy (chan1SweepTime (eng x)) = true ->
  0 < chan1SweepCounter (eng x) /\
  cyclesToSoundEvent (eng x) <= chan1SweepCounter (eng x).

Definition envScheduled (i : Z) (x : State) : Prop :=
  chanOnBit i x = true ->
  truthy (at_chanEnvSweep i x) = true ->
  at_chanVol i x <> 0 -> at_chanVol i x <> 0xF ->
  0 < at_chanEnvCounter i x /\
  cyclesToSoundEvent (eng x) <= at_chanEnvCounter i x.

Definition lenScheduled (i : Z) (x : State) : Prop :=
  chanOnBit i x = true ->
  truthy (at_chanUseLen i x) = true ->
  0 < at_chanLenCounter i x /\
  cyclesToSoundEvent (eng x) <= at_chanLenCounter i x.

(** The sweep timer, resp. the envelope timer of channel [i], is the same
    in [s'] as in [s]. *)
Definition sweepTimerR (s s' : State) : Prop :=
  chan1SweepCounter (eng s') = chan1SweepCounter (eng s) /\
  chan1SweepTime (eng s') = chan1SweepTime (eng s).

Definition envTimerR (i : Z) (s s' : State) : Prop :=
  at_chanEnvCounter i s' = at_chanEnvCounter i s /\
  at_chanEnvSweep i s' = at_chanEnvSweep i s /\
  at_chanVol i s' = at_chanVol i s.

(** ** Further notions: the wait loop *)

(** The engine of [state_hyper_wait] facing an ARM7 that acknowledges the
    cycle count at its third event, resp. never answers. *)
Definition state_hyper_ack : State :=
  set_arm7 [A7Idle; A7Received; A7AckCycles; A7ScaleTransfer] state_hyper_wait.

Definition state_hyper_silent : State :=
  set_arm7 [A7Idle; A7Received] state_hyper_wait.

(** ** Further notions: channels disabled by the user *)

(** The engine's view of channel [i] keeps its enable flag, and while the
    channel is disabled its real volume. *)
Definition frozenR (i : Z) (s s' : State) : Prop :=
  muted (eng s') = muted (eng s) /\
  get4 i (chanEnabled (sharedPtr s')) = get4 i (chanEnabled (sharedPtr s)) /\
  (get4 i (chanEnabled (sharedPtr s)) = false ->
   get4 i (chanRealVol (sharedPtr s')) = get4 i (chanRealVol (sharedPtr s))).

(** ** Further notions: the ranges of the sound parameters *)

Definition within (lo hi x : Z) : Prop := lo <= x <= hi.

(** The parameters decoded from the registers, as the hardware has them:
    3-bit sweep and envelope periods, directions -1 or 1 (0 before the
    first write), 6-bit lengths (8-bit for the wave channel), 11-bit
    frequencies and a 4-bit noise shift. *)
Definition rangesOK (s : State) : Prop :=
  within 0 7 (chan1SweepTime (eng s)) /\
  within 0 7 (chan1SweepAmount (eng s)) /\
  within (-1) 1 (chan1SweepDir (eng s)) /\
  within 0 7 (at_chanEnvSweep 0 s) /\
  within 0 7 (at_chanEnvSweep 1 s) /\
  within 0 7 (at_chanEnvSweep 3 s) /\
  within (-1) 1 (at_chanEnvDir 0 s) /\
  within (-1) 1 (at_chanEnvDir 1 s) /\
  within (-1) 1 (at_chanEnvDir 3 s) /\
  within 0 63 (at_chanLen 0 s) /\
  within 0 63 (at_chanLen 1 s) /\
  within 0 255 (at_chanLen 2 s) /\
  within 0 63 (at_chanLen 3 s) /\
  within 0 1 (at_chanUseLen 0 s) /\
  within 0 1 (at_chanUseLen 1 s) /\
  within 0 1 (at_chanUseLen 2 s) /\
  within 0 1 (at_chanUseLen 3 s) /\
  within 0 0x7FF (at_chanFreq 1 s) /\
  within 0 0x7FF (at_chanFreq 2 s) /\
  within 0 15 (at_chanFreq 3 s).

(** The frequency of channel 0 is swept by [updateSound] and leaves the
    11-bit range when the sweep overflows, which switches the channel
    off: it is in range while the channel is on. *)
Definition paramsOK (s : State) : Prop :=
  rangesOK s /\ (chanOnBit 0 s = true -> within 0 0x7FF (at_chanFreq 0 s)).

Definition paramsOK_all (s : State) : Prop :=
  rangesOK s /\ within 0 0x7FF (at_chanFreq 0 s).

Definition rangesR (s s' : State) : Prop := rangesOK s -> rangesOK s'.

Definition freq0R (s s' : State) : Prop :=
  at_chanFreq 0 s' = at_chanFreq 0 s /\
  (chanOnBit 0 s' = true -> chanOnBit 0 s = true).

Definition paramsR (s s' : State) : Prop := paramsOK s -> paramsOK s'.

Definition paramsR_all (s s' : State) : Prop := paramsOK_all s -> paramsOK_all s'.

(** The envelope register of a channel with an envelope. *)
Definition volReg (ch : Z) : Z :=
  match ch with 0 => 0x12 | 1 => 0x17 | _ => 0x21 end.

(** The volume of the wave channel, in the engine and as the engine's
    shared block has it, is the same in [s'] as in [s]. *)
Definition waveVolR (s s' : State) : Prop :=
  muted (eng s') = muted (eng s) /\
  at_chanVol 2 s' = at_chanVol 2 s /\
  get4 2 (chanRealVol (sharedPtr s')) = get4 2 (chanRealVol (sharedPtr s)).

(** * Properties *)

(** ** Machine arithmetic *)

Lemma int32_id (x : Z) : -2147483648 <= x < 2147483648 -> int32 x = x.
Proof.
  intros H. unfold int32.
  rewrite Z.mod_small by lia. lia.
Qed.

Lemma int32_range (x : Z) : -2147483648 <= int32 x < 2147483648.
Proof.
  unfold int32.
  pose proof (Z.mod_pos_bound (x + 2147483648) 4294967296 ltac:(lia)). lia.
Qed.

Lemma u8_range (x : Z) : 0 <= u8 x < 256.
Proof.
  unfold u8. change 0xFF with (Z.ones 8).
  rewrite Z.land_ones by lia.
  apply Z.mod_pos_bound. reflexivity.
Qed.

Lemma u8_id (x : Z) : 0 <= x < 256 -> u8 x = x.
Proof.
  intros H. unfold u8. change 0xFF with (Z.ones 8).
  rewrite Z.land_ones by lia. apply Z.mod_small. exact H.
Qed.

(** Reduction of field accesses through field updates, and nothing else. *)
Ltac rsimpl :=
  cbn [chan4FreqRatio chan1SweepTime chan1SweepCounter chan1SweepDir chan1SweepAmount chanLen chanLenCounter chanUseLen chanFreq chanVol chanEnvDir chanEnvCounter chanEnvSweep pcmVals sampleData cyclesToSoundEvent muted chanOn chanDuty chanRealVol chanRealFreq chanPan chanEnabled volControl chanOutput lfsr7Bit message fifosSent fifosReceived hyperSound scaleTransferReady frameFlip_Gameboy frameFlip_DS dsCycles cycles sampleDataPtr ioRam clearedChannels cyclesSinceVBlank doubleSpeed eng sharedData dummySharedData gameboy soundDisabled g_hyperSound fifo printLog arm7 a0 a1 a2 a3 set_chan4FreqRatio set_chan1SweepTime set_chan1SweepCounter set_chan1SweepDir set_chan1SweepAmount set_chanLen set_chanLenCounter set_chanUseLen set_chanFreq set_chanVol set_chanEnvDir set_chanEnvCounter set_chanEnvSweep set_pcmVals set_sampleData set_cyclesToSoundEvent set_muted set_chanOn set_chanDuty set_chanRealVol set_chanRealFreq set_chanPan set_chanEnabled set_volControl set_chanOutput set_lfsr7Bit set_message set_fifosSent set_fifosReceived set_scaleTransferReady set_cycles set_sampleDataPtr set_clearedChannels set_eng set_sharedData set_dummySharedData set_gameboy set_soundDisabled set_g_hyperSound set_fifo set_printLog set_arm7 upd_eng upd_sharedData upd_dummySharedData upd_sharedPtr at_chanLen asg_chanLen at_chanLenCounter asg_chanLenCounter at_chanUseLen asg_chanUseLen at_chanFreq asg_chanFreq at_chanVol asg_chanVol at_chanEnvDir asg_chanEnvDir at_chanEnvCounter asg_chanEnvCounter at_chanEnvSweep asg_chanEnvSweep asg_chan4FreqRatio asg_chan1SweepTime asg_chan1SweepCounter asg_chan1SweepDir asg_chan1SweepAmount asg_sampleData asg_cyclesToSoundEvent asgp_chanDuty asgp_chanRealVol asgp_chanRealFreq asgp_chanPan asgp_chanOn asgp_volControl asgp_chanOutput asgp_lfsr7Bit asgp_message asgp_cycles get4 set4 sharedPtr fifoSendValue32 clearSoundChannel fst snd bind].

Tactic Notation "rsimpl" "in" hyp(H) :=
  cbn [chan4FreqRatio chan1SweepTime chan1SweepCounter chan1SweepDir chan1SweepAmount chanLen chanLenCounter chanUseLen chanFreq chanVol chanEnvDir chanEnvCounter chanEnvSweep pcmVals sampleData cyclesToSoundEvent muted chanOn chanDuty chanRealVol chanRealFreq chanPan chanEnabled volControl chanOutput lfsr7Bit message fifosSent fifosReceived hyperSound scaleTransferReady frameFlip_Gameboy frameFlip_DS dsCycles cycles sampleDataPtr ioRam clearedChannels cyclesSinceVBlank doubleSpeed eng sharedData dummySharedData gameboy soundDisabled g_hyperSound fifo printLog arm7 a0 a1 a2 a3 set_chan4FreqRatio set_chan1SweepTime set_chan1SweepCounter set_chan1SweepDir set_chan1SweepAmount set_chanLen set_chanLenCounter set_chanUseLen set_chanFreq set_chanVol set_chanEnvDir set_chanEnvCounter set_chanEnvSweep set_pcmVals set_sampleData set_cyclesToSoundEvent set_muted set_chanOn set_chanDuty set_chanRealVol set_chanRealFreq set_chanPan set_chanEnabled set_volControl set_chanOutput set_lfsr7Bit set_message set_fifosSent set_fifosReceived set_scaleTransferReady set_cycles set_sampleDataPtr set_clearedChannels set_eng set_sharedData set_dummySharedData set_gameboy set_soundDisabled set_g_hyperSound set_fifo set_printLog set_arm7 upd_eng upd_sharedData upd_dummySharedData upd_sharedPtr at_chanLen asg_chanLen at_chanLenCounter asg_chanLenCounter at_chanUseLen asg_chanUseLen at_chanFreq asg_chanFreq at_chanVol asg_chanVol at_chanEnvDir asg_chanEnvDir at_chanEnvCounter asg_chanEnvCounter at_chanEnvSweep asg_chanEnvSweep asg_chan4FreqRatio asg_chan1SweepTime asg_chan1SweepCounter asg_chan1SweepDir asg_chan1SweepAmount asg_sampleData asg_cyclesToSoundEvent asgp_chanDuty asgp_chanRealVol asgp_chanRealFreq asgp_chanPan asgp_chanOn asgp_volControl asgp_chanOutput asgp_lfsr7Bit asgp_message asgp_cycles get4 set4 sharedPtr fifoSendValue32 clearSoundChannel fst snd bind] in H.


Ltac rsimpl_all :=
  repeat match goal with H : _ |- _ => progress rsimpl in H end; rsimpl.

Section Properties.
Context {hdr : Header}.

(** ** The FIFO: admission control *)

Lemma FIFO_SEND_accept (m : Z) (s : State) :
  outstanding s < MAX_FIFOS_WAITING ->
  FIFO_SEND m s =
  fifoSendValue32 (u32 m)
    (upd_sharedData (fun d => set_fifosSent (iadd (fifosSent d) 1) d) s).
Proof.
  intros H. unfold FIFO_SEND. fold (outstanding s).
  apply Z.ltb_lt in H. rewrite H. reflexivity.
Qed.

Lemma FIFO_SEND_drop (m : Z) (s : State) :
  MAX_FIFOS_WAITING <= outstanding s ->
  FIFO_SEND m s = set_printLog (printLog s ++ [soundError]) s.
Proof.
  intros H. unfold FIFO_SEND. fold (outstanding s).
  apply Z.ltb_ge in H. rewrite H. reflexivity.
Qed.

Lemma FIFO_SEND_all_spec (ms : list Z) : forall (s : State),
  0 <= fifosReceived (sharedData s) <= fifosSent (sharedData s) ->
  fifosSent (sharedData s) + Z.of_nat (List.length ms) < 2147483648 ->
  let o := fifosSent (sharedData s) - fifosReceived (sharedData s) in
  let k := Z.to_nat (Z.min (Z.of_nat (List.length ms))
                           (Z.max 0 (MAX_FIFOS_WAITING - o))) in
  fifo (FIFO_SEND_all ms s) = fifo s ++ map u32 (firstn k ms) /\
  fifosSent (sharedData (FIFO_SEND_all ms s))
    = fifosSent (sharedData s) + Z.of_nat k /\
  fifosReceived (sharedData (FIFO_SEND_all ms s)) = fifosReceived (sharedData s) /\
  printLog (FIFO_SEND_all ms s)
    = printLog s ++ repeat soundError (List.length ms - k).
Proof.
  induction ms as [|m ms IH]; intros s Hr Hs o k.
  - assert (Hk : k = 0%nat) by (subst k; cbn [List.length]; lia).
    rewrite Hk. cbn. rewrite !app_nil_r. repeat split; lia.
  - assert (Ho : outstanding s = o).
    { unfold outstanding, isub. apply int32_id. subst o. lia. }
    cbn [FIFO_SEND_all List.length] in *.
    destruct (Z_lt_le_dec o MAX_FIFOS_WAITING) as [Hlt|Hge].
    + rewrite FIFO_SEND_accept by lia.
      set (s1 := fifoSendValue32 _ _).
      assert (Hsent : fifosSent (sharedData s1) = fifosSent (sharedData s) + 1).
      { subst s1. rsimpl. unfold iadd. apply int32_id. lia. }
      assert (Hrecv : fifosReceived (sharedData s1) = fifosReceived (sharedData s))
        by reflexivity.
      specialize (IH s1). rewrite Hsent, Hrecv in IH.
      destruct IH as (Hf & Hn & Hv & Hl); [lia | lia |].
      unfold MAX_FIFOS_WAITING in *.
      assert (Hk : k = S (Z.to_nat (Z.min (Z.of_nat (List.length ms))
                 (Z.max 0 (60 - (fifosSent (sharedData s) + 1
                                 - fifosReceived (sharedData s))))))).
      { subst k o. lia. }
      rewrite Hk. cbn [firstn map]. rewrite Hf, Hn, Hv, Hl.
      subst s1. rsimpl. rewrite <- app_assoc. cbn [app].
      repeat split; try lia.
    + rewrite FIFO_SEND_drop by lia.
      set (s1 := set_printLog _ _).
      specialize (IH s1). subst s1. rsimpl in IH.
      destruct IH as (Hf & Hn & Hv & Hl); [lia | lia |].
      unfold MAX_FIFOS_WAITING in *.
      assert (Hk : k = 0%nat) by (subst k o; lia).
      assert (Hk' : Z.to_nat (Z.min (Z.of_nat (List.length ms))
         (Z.max 0 (60 - (fifosSent (sharedData s) - fifosReceived (sharedData s)))))
         = 0%nat) by (subst o; lia).
      rewrite Hk' in *. rewrite Hk. cbn [firstn map] in *.
      rewrite Hf, Hn, Hv, Hl. rewrite !Nat.sub_0_r.
      rsimpl. cbn [List.length repeat app]. rewrite <- app_assoc.
      repeat split; try lia; reflexivity.
Qed.

(** C4: a send made while fewer than [MAX_FIFOS_WAITING] (60) values are
    sent but not yet received increments [fifosSent] and appends the
    message to the FIFO; a send made at or above the threshold leaves the
    counter and the FIFO unchanged and logs "Sound error".  [FIFO_SEND] is
    a total function: it never blocks.  For a whole sequence of sends
    (counters away from the 32-bit limits) exactly the first
    [min (n, 60 - outstanding)] messages are enqueued, in order, and each
    of the others is dropped with one log line. *)
Theorem FIFO_SEND_admission_control (m : Z) (s : State) :
  (outstanding s < MAX_FIFOS_WAITING ->
     fifosSent (sharedData (FIFO_SEND m s)) = iadd (fifosSent (sharedData s)) 1 /\
     fifo (FIFO_SEND m s) = fifo s ++ [u32 m] /\
     printLog (FIFO_SEND m s) = printLog s) /\
  (MAX_FIFOS_WAITING <= outstanding s ->
     fifosSent (sharedData (FIFO_SEND m s)) = fifosSent (sharedData s) /\
     fifo (FIFO_SEND m s) = fifo s /\
     printLog (FIFO_SEND m s) = printLog s ++ [soundError]) /\
  (forall ms : list Z,
     0 <= fifosReceived (sharedData s) <= fifosSent (sharedData s) ->
     fifosSent (sharedData s) + Z.of_nat (List.length ms) < 2147483648 ->
     let o := fifosSent (sharedData s) - fifosReceived (sharedData s) in
     let k := Z.to_nat (Z.min (Z.of_nat (List.length ms))
                              (Z.max 0 (MAX_FIFOS_WAITING - o))) in
     fifo (FIFO_SEND_all ms s) = fifo s ++ map u32 (firstn k ms) /\
     fifosSent (sharedData (FIFO_SEND_all ms s))
       = fifosSent (sharedData s) + Z.of_nat k /\
     printLog (FIFO_SEND_all ms s)
       = printLog s ++ repeat soundError (List.length ms - k)).
Proof.
  split; [|split].
  - intros H. rewrite FIFO_SEND_accept by exact H. rsimpl. auto.
  - intros H. rewrite FIFO_SEND_drop by exact H. rsimpl. auto.
  - intros ms Hr Hs o k.
    destruct (FIFO_SEND_all_spec ms s Hr Hs) as (Hf & Hn & _ & Hl).
    auto.
Qed.

Lemma FIFO_SEND_admission_control_witness :
  fifo (FIFO_SEND 7 state0) = [7] /\
  fifo (FIFO_SEND 7 state_full) = [] /\
  fifo (FIFO_SEND_all [1; 2; 3] state_58) = [1; 2].
Proof.
  split; [|split].
  - destruct (FIFO_SEND_admission_control 7 state0) as (H & _ & _).
    destruct H as (_ & H & _); [vm_compute; reflexivity | exact H].
  - destruct (FIFO_SEND_admission_control 7 state_full) as (_ & H & _).
    destruct H as (_ & H & _); [vm_compute; discriminate | exact H].
  - destruct (FIFO_SEND_admission_control 7 state_58) as (_ & _ & H).
    destruct (H [1; 2; 3]) as (H1 & _);
      [vm_compute; split; discriminate | vm_compute; reflexivity | exact H1].
Defined.

(** C10: [muteSND] and [unmuteSND] do not go through [FIFO_SEND]: in every
    state, whatever the counters (at or above the threshold included),
    they increment [fifosSent] and append their command to the FIFO, and
    log nothing. *)
Theorem muteSND_unmuteSND_unconditional (s : State) :
  (fifosSent (sharedData (muteSND s)) = iadd (fifosSent (sharedData s)) 1 /\
   fifo (muteSND s) = fifo s ++ [u32 (ishl GBSND_MUTE_COMMAND 20)] /\
   printLog (muteSND s) = printLog s) /\
  (fifosSent (sharedData (unmuteSND s)) = iadd (fifosSent (sharedData s)) 1 /\
   fifo (unmuteSND s) = fifo s ++ [u32 (ishl GBSND_UNMUTE_COMMAND 20)] /\
   printLog (unmuteSND s) = printLog s).
Proof.
  unfold muteSND, unmuteSND. rsimpl. repeat split.
Qed.

(** ** synchronizeSound *)

Lemma sync_frame_refl (s : State) : sync_frame s s.
Proof. unfold sync_frame. tauto. Qed.

Lemma sync_frame_trans (s1 s2 s3 : State) :
  sync_frame s1 s2 -> sync_frame s2 s3 -> sync_frame s1 s3.
Proof.
  unfold sync_frame. intros (A1 & A2 & A3 & A4 & A5 & A6) (B1 & B2 & B3 & B4 & B5 & B6).
  repeat split; congruence.
Qed.

Lemma sync_frame_FIFO_SEND (m : Z) (s : State) : sync_frame s (FIFO_SEND m s).
Proof.
  unfold FIFO_SEND.
  destruct (_ <? _); unfold sync_frame, protoErase; rsimpl; repeat split.
Qed.

Lemma sync_frame_arm7_step (e : Arm7Event) (s : State) :
  sync_frame s (arm7_step e s).
Proof.
  destruct e; unfold sync_frame, protoErase, arm7_step; rsimpl; repeat split.
Qed.

Lemma sync_frame_observe (s : State) : sync_frame s (observe s).
Proof.
  unfold observe. destruct (arm7 s) as [|e rest].
  - apply sync_frame_refl.
  - eapply sync_frame_trans; [apply (sync_frame_arm7_step e)|].
    unfold sync_frame, protoErase; rsimpl; repeat split.
Qed.

Lemma sync_frame_asgp_cycles (c : Z) (s : State) :
  muted (eng s) = false -> sync_frame s (asgp_cycles c s).
Proof.
  intros Hm. unfold asgp_cycles, upd_sharedPtr. rewrite Hm.
  unfold sync_frame, protoErase; rsimpl; repeat split.
Qed.

Lemma sync_frame_muted (s s' : State) :
  sync_frame s s' -> muted (eng s') = muted (eng s).
Proof. intros (H & _). rewrite H. reflexivity. Qed.

Lemma sync_frame_spinWait (n : nat) : forall (s s' : State),
  muted (eng s) = false -> spinWait n s = Some s' -> sync_frame s s'.
Proof.
  induction n as [|n IH]; intros s s' Hm H; [discriminate|].
  cbn [spinWait] in H.
  pose proof (sync_frame_observe s) as F1.
  pose proof (sync_frame_observe (observe s)) as F2.
  assert (Hm2 : muted (eng (observe (observe s))) = false).
  { rewrite (sync_frame_muted _ _ F2), (sync_frame_muted _ _ F1). exact Hm. }
  destruct (cycles (sharedPtr (observe s)) =? -1).
  - injection H as <-. exact F1.
  - destruct (scaleTransferReady (sharedPtr (observe (observe s)))).
    + injection H as <-.
      eapply sync_frame_trans; [exact F1|].
      eapply sync_frame_trans; [exact F2|].
      eapply sync_frame_trans; [apply (sync_frame_asgp_cycles (-1)); exact Hm2|].
      apply sync_frame_FIFO_SEND.
    + eapply sync_frame_trans; [exact F1|].
      eapply sync_frame_trans; [exact F2|].
      apply IH; assumption.
Qed.

(** Whenever [synchronizeSound] returns, it has changed message traffic
    only. *)
Lemma sync_frame_synchronizeSound (s s' : State) :
  synchronizeSound s = Some s' -> sync_frame s s'.
Proof.
  unfold synchronizeSound. cbv zeta. fold (targetCycles s).
  destruct (muted (eng s)) eqn:Hm.
  - intros H. injection H as <-. apply sync_frame_refl.
  - destruct (_ && _).
    + intros H.
      pose proof (sync_frame_asgp_cycles (targetCycles s) s Hm) as F.
      eapply sync_frame_trans; [exact F|].
      eapply sync_frame_spinWait; [|exact H].
      rewrite (sync_frame_muted _ _ F). exact Hm.
    + intros H. injection H as <-. apply sync_frame_FIFO_SEND.
Qed.

(** A muted engine never reaches the FIFO. *)
Lemma synchronizeSound_muted (s : State) :
  muted (eng s) = true -> synchronizeSound s = Some s.
Proof. intros H. unfold synchronizeSound. rewrite H. reflexivity. Qed.

(** Best-effort mode never waits. *)
Lemma synchronizeSound_best_effort (s : State) :
  muted (eng s) = false -> hyperSound (sharedData s) = false ->
  synchronizeSound s = Some (FIFO_SEND (message (sharedData s)) s).
Proof.
  intros Hm Hh. unfold synchronizeSound, sharedPtr. rewrite Hm, Hh. reflexivity.
Qed.

Lemma sharedPtr_unmuted (s : State) :
  muted (eng s) = false -> sharedPtr s = sharedData s.
Proof. intros H. unfold sharedPtr. rewrite H. reflexivity. Qed.

Lemma muted_observe (s : State) : muted (eng (observe s)) = muted (eng s).
Proof. apply sync_frame_muted, sync_frame_observe. Qed.

Lemma muted_spinIter (s : State) : muted (eng (spinIter s)) = muted (eng s).
Proof. unfold spinIter. rewrite !muted_observe. reflexivity. Qed.

Lemma muted_iter_spinIter (j : nat) (s : State) :
  muted (eng (Nat.iter j spinIter s)) = muted (eng s).
Proof.
  induction j as [|j IH]; [reflexivity|].
  rewrite Nat.iter_succ, muted_spinIter. exact IH.
Qed.

Lemma arm7_arm7_step (e : Arm7Event) (s : State) : arm7 (arm7_step e s) = arm7 s.
Proof. destruct e; reflexivity. Qed.

Lemma observe_nil (s : State) : arm7 s = [] -> observe s = s.
Proof. intros H. unfold observe. rewrite H. reflexivity. Qed.

Lemma observe_length (s : State) :
  List.length (arm7 (observe s)) = Nat.pred (List.length (arm7 s)).
Proof.
  unfold observe. destruct (arm7 s) as [|e rest] eqn:E.
  - rewrite E. reflexivity.
  - rsimpl. reflexivity.
Qed.

Lemma spinIter_nil (s : State) : arm7 s = [] -> spinIter s = s.
Proof.
  intros H. unfold spinIter. rewrite (observe_nil s H). apply observe_nil, H.
Qed.

Lemma iter_spinIter_length (j : nat) (s : State) :
  (List.length (arm7 (Nat.iter j spinIter s)) <= List.length (arm7 s) - j)%nat.
Proof.
  induction j as [|j IH].
  - cbn. lia.
  - rewrite Nat.iter_succ. unfold spinIter at 1. rewrite !observe_length. lia.
Qed.

Lemma iter_spinIter_static (i m : nat) (s : State) :
  arm7 (Nat.iter i spinIter s) = [] ->
  Nat.iter (i + m) spinIter s = Nat.iter i spinIter s.
Proof.
  intros H. induction m as [|m IH].
  - rewrite Nat.add_0_r. reflexivity.
  - rewrite Nat.add_succ_r, Nat.iter_succ, IH. apply spinIter_nil, H.
Qed.

(** Turns that do not leave the loop only consume fuel. *)
Lemma spinWait_skip (j : nat) : forall (k : nat) (s : State),
  muted (eng s) = false ->
  (forall i, (i < j)%nat -> noExit (Nat.iter i spinIter s)) ->
  spinWait (j + k) s = spinWait k (Nat.iter j spinIter s).
Proof.
  induction j as [|j IH]; intros k s Hm Hno; [reflexivity|].
  destruct (Hno 0%nat ltac:(lia)) as (Hc & Hf).
  change (Nat.iter 0 spinIter s) with s in Hc, Hf.
  cbn [Nat.add spinWait].
  rewrite !sharedPtr_unmuted by (rewrite ?muted_observe; exact Hm).
  apply Z.eqb_neq in Hc. rewrite Hc, Hf.
  rewrite Nat.iter_succ_r. fold (spinIter s).
  apply IH.
  - rewrite muted_spinIter. exact Hm.
  - intros i Hi. rewrite <- Nat.iter_succ_r. apply Hno. lia.
Qed.

(** A turn that sees the scale-transfer flag leaves through the FIFO. *)
Lemma spinWait_abort (k : nat) (s : State) :
  muted (eng s) = false ->
  cycles (sharedData (observe s)) <> -1 ->
  scaleTransferReady (sharedData (spinIter s)) = true ->
  spinWait (S k) s = Some (abortWait (spinIter s)).
Proof.
  intros Hm Hc Hf. cbn [spinWait].
  rewrite !sharedPtr_unmuted by (rewrite ?muted_observe; exact Hm).
  apply Z.eqb_neq in Hc. unfold spinIter in Hf. rewrite Hc, Hf. reflexivity.
Qed.

(** A turn that sees the acknowledgement leaves without sending. *)
Lemma spinWait_ack (k : nat) (s : State) :
  muted (eng s) = false ->
  cycles (sharedData (observe s)) = -1 ->
  spinWait (S k) s = Some (observe s).
Proof.
  intros Hm Hc. cbn [spinWait].
  rewrite !sharedPtr_unmuted by (rewrite ?muted_observe; exact Hm).
  rewrite Hc. reflexivity.
Qed.

(** The loop is left at turn [j] at the latest when the script has [j]
    events or more: afterwards every turn is like the previous one. *)
Lemma exit_turn_bound (j : nat) (w : State) :
  (forall i, (i < j)%nat -> noExit (Nat.iter i spinIter w)) ->
  ~ noExit (Nat.iter j spinIter w) ->
  (j <= List.length (arm7 w))%nat.
Proof.
  intros Hno Hex.
  destruct (Nat.le_gt_cases j (List.length (arm7 w))) as [H|H]; [exact H|].
  exfalso. apply Hex.
  set (n := List.length (arm7 w)) in *.
  assert (Hnil : arm7 (Nat.iter n spinIter w) = []).
  { pose proof (iter_spinIter_length n w) as L. fold n in L.
    destruct (arm7 (Nat.iter n spinIter w)); [reflexivity|cbn in L; lia]. }
  replace j with (n + (j - n))%nat by lia.
  rewrite (iter_spinIter_static n (j - n) w Hnil).
  apply Hno. exact H.
Qed.

Lemma synchronizeSound_wait (s : State) :
  muted (eng s) = false ->
  hyperSound (sharedData s) = true ->
  scaleTransferReady (sharedData s) = false ->
  frameFlip_Gameboy (sharedData s) = frameFlip_DS (sharedData s) ->
  dsCycles (sharedData s) < targetCycles s ->
  synchronizeSound s =
  spinWait (S (List.length (arm7 s)))
           (upd_sharedData (set_cycles (targetCycles s)) s).
Proof.
  intros Hm Hh Hr Hf Hd. unfold synchronizeSound. cbv zeta.
  fold (targetCycles s). rewrite (sharedPtr_unmuted s Hm), Hm, Hh, Hr, Hf.
  rewrite Z.eqb_refl.
  assert (E : (dsCycles (sharedData s) >=? targetCycles s) = false).
  { rewrite Z.geb_leb. apply Z.leb_gt. exact Hd. }
  rewrite E. cbn [andb negb orb].
  unfold asgp_cycles, upd_sharedPtr. rewrite Hm. reflexivity.
Qed.

Lemma synchronizeSound_immediate (s : State) :
  muted (eng s) = false ->
  (hyperSound (sharedData s) = false \/
   scaleTransferReady (sharedData s) = true \/
   frameFlip_Gameboy (sharedData s) <> frameFlip_DS (sharedData s) \/
   targetCycles s <= dsCycles (sharedData s)) ->
  synchronizeSound s = Some (FIFO_SEND (message (sharedData s)) s).
Proof.
  intros Hm H. unfold synchronizeSound. cbv zeta.
  fold (targetCycles s). rewrite (sharedPtr_unmuted s Hm), Hm.
  replace (hyperSound (sharedData s) && negb (scaleTransferReady (sharedData s))
           && negb (negb (frameFlip_Gameboy (sharedData s) =? frameFlip_DS (sharedData s))
                    || (dsCycles (sharedData s) >=? targetCycles s))) with false;
    [reflexivity|].
  symmetry.
  destruct H as [H|[H|[H|H]]].
  - rewrite H. reflexivity.
  - rewrite H. apply andb_false_iff. left. apply andb_false_r.
  - apply Z.eqb_neq in H. rewrite H. cbn [negb orb]. apply andb_false_r.
  - assert (E : (dsCycles (sharedData s) >=? targetCycles s) = true).
    { rewrite Z.geb_leb. apply Z.leb_le. exact H. }
    rewrite E, orb_true_r. apply andb_false_r.
Qed.

(** C9 fails as stated: a muted engine in hyper-sync mode whose
    frame-flip flags differ delivers nothing at all. *)
Lemma synchronizeSound_muted_counterexample :
  g_hyperSound state_muted_hyper = true /\
  hyperSound (sharedPtr state_muted_hyper) = true /\
  hyperSound (sharedData state_muted_hyper) = true /\
  frameFlip_Gameboy (sharedPtr state_muted_hyper)
    <> frameFlip_DS (sharedPtr state_muted_hyper) /\
  outstanding state_muted_hyper < MAX_FIFOS_WAITING /\
  synchronizeSound state_muted_hyper = Some state_muted_hyper /\
  synchronizeSound state_muted_hyper
    <> Some (FIFO_SEND (message (sharedPtr state_muted_hyper)) state_muted_hyper) /\
  fifo state_muted_hyper = [].
Proof.
  repeat split; try reflexivity; vm_compute; discriminate.
Qed.

(** C9 (amended): while the engine is not muted and the shared block is
    in hyper-sync mode, (1) if the frame-flip flags differ or [dsCycles]
    is at or past the computed cycle count (halved under double speed),
    [synchronizeSound] is exactly [FIFO_SEND] of the pending message: the
    [cycles] field is not written, no read of the wait loop is made, and
    below the threshold the message is appended to the FIFO; (2) once the
    wait is entered, the first turn of the loop at which
    [scaleTransferReady] is read as set, the acknowledgement not having
    been seen, ends the wait with [cycles] reset to -1 and the message
    sent by [FIFO_SEND]. *)
Theorem synchronizeSound_fallback (s : State) :
  muted (eng s) = false ->
  hyperSound (sharedData s) = true ->
  ((frameFlip_Gameboy (sharedData s) <> frameFlip_DS (sharedData s) \/
    targetCycles s <= dsCycles (sharedData s)) ->
   synchronizeSound s = Some (FIFO_SEND (message (sharedData s)) s) /\
   cycles (sharedData (FIFO_SEND (message (sharedData s)) s)) = cycles (sharedData s) /\
   arm7 (FIFO_SEND (message (sharedData s)) s) = arm7 s /\
   (outstanding s < MAX_FIFOS_WAITING ->
    fifo (FIFO_SEND (message (sharedData s)) s)
      = fifo s ++ [u32 (message (sharedData s))])) /\
  (scaleTransferReady (sharedData s) = false ->
   frameFlip_Gameboy (sharedData s) = frameFlip_DS (sharedData s) ->
   dsCycles (sharedData s) < targetCycles s ->
   forall j : nat,
     let w := upd_sharedData (set_cycles (targetCycles s)) s in
     let t := Nat.iter j spinIter w in
     (forall i, (i < j)%nat -> noExit (Nat.iter i spinIter w)) ->
     cycles (sharedData (observe t)) <> -1 ->
     scaleTransferReady (sharedData (spinIter t)) = true ->
     synchronizeSound s
       = Some (FIFO_SEND (message (sharedData (spinIter t)))
                 (upd_sharedData (set_cycles (-1)) (spinIter t)))).
Proof.
  intros Hm Hh. split.
  - intros Hd. split; [|split; [|split]].
    + apply synchronizeSound_immediate; [exact Hm|]. tauto.
    + unfold FIFO_SEND. destruct (_ <? _); reflexivity.
    + unfold FIFO_SEND. destruct (_ <? _); reflexivity.
    + intros Ho. rewrite FIFO_SEND_accept by exact Ho. reflexivity.
  - intros Hr Hf Hd j w t Hno Hc Hx.
    rewrite synchronizeSound_wait by assumption. fold w.
    assert (Hmw : muted (eng w) = false) by exact Hm.
    assert (Hj : (j <= List.length (arm7 s))%nat).
    { change (arm7 s) with (arm7 w). apply exit_turn_bound; [exact Hno|].
      fold t. intros (_ & Hn). unfold spinIter in Hx. congruence. }
    replace (S (List.length (arm7 s)))
      with (j + S (List.length (arm7 s) - j))%nat by lia.
    rewrite (spinWait_skip j _ w Hmw Hno). fold t.
    assert (Hmt : muted (eng t) = false).
    { unfold t. rewrite muted_iter_spinIter. exact Hmw. }
    rewrite (spinWait_abort _ t Hmt Hc Hx).
    unfold abortWait, asgp_cycles, upd_sharedPtr. cbv zeta.
    rewrite muted_spinIter, Hmt.
    rewrite sharedPtr_unmuted by (rsimpl; rewrite muted_spinIter; exact Hmt).
    reflexivity.
Qed.

Lemma synchronizeSound_fallback_witness :
  (exists s', synchronizeSound state_hyper_desync = Some s' /\
              fifo s' = [77] /\ cycles (sharedData s') = -1 /\
              List.length (arm7 s') = 4%nat) /\
  (exists s', synchronizeSound state_hyper_wait = Some s' /\
              fifo s' = [77] /\ cycles (sharedData s') = -1 /\
              arm7 s' = []).
Proof.
  split.
  - destruct (synchronizeSound_fallback state_hyper_desync eq_refl eq_refl)
      as (H1 & _).
    destruct H1 as (H1 & _).
    + left. vm_compute. discriminate.
    + eexists. split; [exact H1|]. vm_compute. repeat split.
  - destruct (synchronizeSound_fallback state_hyper_wait eq_refl eq_refl)
      as (_ & H2).
    specialize (H2 eq_refl eq_refl ltac:(vm_compute; reflexivity) 1%nat).
    cbv zeta in H2.
    eexists. split.
    + apply H2.
      * intros i Hi. assert (i = 0%nat) by lia. subst i.
        vm_compute. split; [discriminate|reflexivity].
      * vm_compute. discriminate.
      * vm_compute. reflexivity.
    + vm_compute. repeat split.
Defined.

(** ** Reasoning along the statements of a function

    A function body is a chain of [let s := ... in], conditionals and
    calls.  [Ro R T s body] is established statement by statement: each
    assignment is in [R], and the rest of the body is handled for an
    arbitrary state. *)

Section Rel.
Variables (R : State -> State -> Prop) (T : State -> Prop).
Hypothesis OK : RelOK R T.

Lemma Ro_Some s x : R s x -> Ro R T s (Some x).
Proof.
  intros H. split; [discriminate|].
  intros s' E. injection E as <-. exact H.
Qed.

Lemma Ro_step s e o : R s e -> Ro R T e o -> Ro R T s o.
Proof.
  intros H (H1 & H2). split.
  - intros Ht. apply H1. eapply (R_T R T OK); eassumption.
  - intros s' E. eapply (R_trans R T OK); [exact H|]. apply H2, E.
Qed.

Lemma Ro_let s e (k : State -> option State) :
  (forall x, Ro R T x (k x)) -> R s e -> Ro R T s (let x := e in k x).
Proof. intros Hk He. eapply Ro_step; [exact He|]. apply Hk. Qed.

Lemma Ro_letZ s (e : Z) (k : Z -> option State) :
  (forall v, v = e -> Ro R T s (k v)) -> Ro R T s (let x := e in k x).
Proof. intros H. apply (H e eq_refl). Qed.

Lemma Ro_bind s m (k : State -> option State) :
  Ro R T s m -> (forall x, Ro R T x (k x)) -> Ro R T s (bind m k).
Proof.
  intros (H1 & H2) Hk. destruct m as [x|].
  - cbn [bind]. eapply Ro_step; [apply H2; reflexivity|]. apply Hk.
  - split; [|discriminate]. intros Ht. exfalso. apply (H1 Ht). reflexivity.
Qed.

Lemma Ro_sync s x : R s x -> Ro R T s (synchronizeSound x).
Proof.
  intros H. eapply Ro_step; [exact H|]. split.
  - apply (T_sync R T OK).
  - apply (R_sync R T OK).
Qed.

End Rel.

(** A branch taken on a trigger bit that is known to be clear. *)
Ltac rel_contra :=
  exfalso;
  match goal with
  | Hk : Z.land ?v 128 = 0, Hq : truthy (Z.land ?v 128) = true |- _ =>
      unfold truthy in Hq; rewrite Hk in Hq; discriminate
  | Hk : Z.land ?v 128 = 0, Hq : (truthy (Z.land ?v 128) && _) = true |- _ =>
      unfold truthy in Hq; rewrite Hk in Hq; discriminate
  end.

Ltac rel_exec ok step :=
  repeat lazymatch goal with
  | |- Ro ?R ?T ?s (let x := ?e in @?k x) =>
      let ty := type of e in
      lazymatch ty with
      | State => refine (Ro_let R T ok s e k _ _); [ intros ? | step ]
      | _ => refine (Ro_letZ R T s e k _); intros ? ?
      end
  | |- Ro ?R ?T ?s (bind ?m ?k) =>
      refine (Ro_bind R T ok s m k _ _); [ | intros ? ]
  | |- Ro ?R ?T ?s (if ?c then _ else _) =>
      destruct c eqn:?; try solve [rel_contra]
  | |- Ro ?R ?T ?s (Some _) => refine (Ro_Some R T _ _ _); step
  | |- Ro ?R ?T ?s (synchronizeSound _) => refine (Ro_sync R T ok _ _ _); step
  | |- Ro ?R ?T ?s (sendStartMessage _ _) => unfold sendStartMessage
  | |- Ro ?R ?T ?s (sendUpdateMessage _ _) => unfold sendUpdateMessage
  | |- Ro ?R ?T ?s (sendGlobalVolumeMessage _) => unfold sendGlobalVolumeMessage
  | |- Ro ?R ?T ?s (refreshSoundVolume _ _ _) => unfold refreshSoundVolume
  end.

(** Case analysis on the register number of [switch (ioReg)]. *)
Ltac by_register r :=
  destruct r as [|p|p];
  [ | do 7 (try match goal with q : positive |- _ => destruct q end) | ];
  cbv beta iota.

Ltac unfold_helpers :=
  cbv zeta;
  unfold setSoundEventCycles, refreshSoundFreq, refreshSoundPan, refreshSoundDuty,
    updateSoundSample, asgp_chanOn, asgp_chanDuty, asgp_chanRealVol,
    asgp_chanRealFreq, asgp_chanPan, asgp_volControl, asgp_chanOutput,
    asgp_lfsr7Bit, asgp_message, asgp_cycles, upd_sharedPtr.

(** Case analysis on the conditions of a state expression, innermost
    first. *)
Ltac split_state :=
  repeat (rsimpl;
          match goal with
          | |- context [if ?c then _ else _] =>
              lazymatch c with
              | context [if _ then _ else _] => fail
              | _ => destruct c eqn:?
              end
          | |- context [match ?v with 0 => _ | Z.pos _ => _ | Z.neg _ => _ end] =>
              destruct v as [|[[|[]|]|[|[]|]|]|]
          end).

(** ** What a register write leaves alone *)

Lemma write_frame_refl s : write_frame s s.
Proof. unfold write_frame. tauto. Qed.

Lemma write_frame_trans s1 s2 s3 :
  write_frame s1 s2 -> write_frame s2 s3 -> write_frame s1 s3.
Proof.
  unfold write_frame.
  intros (A1 & A2 & A3 & A4 & A5 & A6) (B1 & B2 & B3 & B4 & B5 & B6).
  split; [congruence|]. split; [congruence|]. split; [congruence|].
  split; [congruence|]. split.
  - intros E. destruct (A5 E) as (? & ? & ? & ?).
    destruct (B5 ltac:(congruence)) as (? & ? & ? & ?).
    repeat split; congruence.
  - intros E. rewrite B6, A6 by congruence. reflexivity.
Qed.

Lemma write_frame_sync s s' : synchronizeSound s = Some s' -> write_frame s s'.
Proof.
  intros H. destruct (muted (eng s)) eqn:Hm.
  - rewrite (synchronizeSound_muted s Hm) in H. injection H as <-.
    apply write_frame_refl.
  - destruct (sync_frame_synchronizeSound s s' H) as (F1 & F2 & F3 & F4 & F5 & F6).
    unfold write_frame. rewrite F1, F2, F3, F4, F5, Hm.
    repeat split; try discriminate.
Qed.

Lemma write_frame_OK : RelOK write_frame is_muted.
Proof.
  constructor.
  - apply write_frame_refl.
  - apply write_frame_trans.
  - unfold write_frame, is_muted. intros s s' (_ & _ & _ & H & _) E. congruence.
  - apply write_frame_sync.
  - intros s Hm. rewrite (synchronizeSound_muted s Hm). discriminate.
Qed.

Ltac frame_step :=
  unfold_helpers; split_state;
  unfold write_frame; rsimpl_all;
  repeat match goal with H : _ |- _ => progress cbn [andb orb negb] in H end;
  repeat split; intros; try reflexivity; try congruence.

Lemma handleSoundRegister_frame ioReg val s :
  Ro write_frame is_muted s (handleSoundRegister ioReg val s).
Proof.
  cbv beta delta [handleSoundRegister].
  rel_exec write_frame_OK frame_step.
  by_register (u8 ioReg).
  all: rel_exec write_frame_OK frame_step.
Qed.

(** ** Independence from a part of the state *)

Section Commute.
Variable g : State -> State.
Hypothesis g_sync : Comm g synchronizeSound.

Lemma Comm_let (e : State -> State) (k : State -> option State) :
  (forall s, e (g s) = g (e s)) -> Comm g k ->
  Comm g (fun s => let x := e s in k x).
Proof. intros He Hk s. cbv zeta. rewrite He. apply Hk. Qed.

Lemma Comm_letZ (e : State -> Z) (k : Z -> State -> option State) :
  (forall s, e (g s) = e s) -> (forall z, Comm g (k z)) ->
  Comm g (fun s => let x := e s in k x s).
Proof. intros He Hk s. cbv zeta. rewrite He. apply Hk. Qed.

Lemma Comm_if (c : State -> bool) (A B : State -> option State) :
  (forall s, c (g s) = c s) -> Comm g A -> Comm g B ->
  Comm g (fun s => if c s then A s else B s).
Proof.
  intros Hc HA HB s. cbv beta. rewrite Hc.
  destruct (c s); [apply HA | apply HB].
Qed.

Lemma Comm_bind (m k : State -> option State) :
  Comm g m -> Comm g k -> Comm g (fun s => bind (m s) k).
Proof.
  intros Hm Hk s. cbv beta. rewrite Hm.
  destruct (m s) as [x|]; cbn [option_map bind]; [apply Hk | reflexivity].
Qed.

Lemma Comm_Some (e : State -> State) :
  (forall s, e (g s) = g (e s)) -> Comm g (fun s => Some (e s)).
Proof. intros He s. cbv beta. rewrite He. reflexivity. Qed.

Lemma Comm_sync (e : State -> State) :
  (forall s, e (g s) = g (e s)) -> Comm g (fun s => synchronizeSound (e s)).
Proof. intros He s. cbv beta. rewrite He. apply g_sync. Qed.

End Commute.

Ltac comm_exec gs step cond :=
  repeat (cbv beta;
  lazymatch goal with
  | |- Comm ?g (fun s => let x := @?e s in @?k x s) =>
      let ty := type of e in
      lazymatch ty with
      | State -> State =>
          lazymatch goal with
          | |- Comm _ (fun s => let x := _ in @?k' x) =>
              refine (Comm_let g e k' _ _); [ step | ]
          end
      | _ => refine (Comm_letZ g e k _ _); [ cond | intros ? ]
      end
  | |- Comm ?g (fun s => bind (@?m s) ?k) =>
      refine (Comm_bind g m k _ _)
  | |- Comm ?g (fun s => if @?c s then @?A s else @?B s) =>
      refine (Comm_if g c A B _ _ _); [ cond | | ]
  | |- Comm ?g (fun s => Some (@?e s)) => refine (Comm_Some g e _); step
  | |- Comm ?g (fun s => synchronizeSound (@?e s)) =>
      refine (Comm_sync g gs e _); step
  | |- Comm ?g synchronizeSound => exact gs
  | |- Comm ?g (fun s => sendStartMessage _ _) => unfold sendStartMessage
  | |- Comm ?g (fun s => sendUpdateMessage _ _) => unfold sendUpdateMessage
  | |- Comm ?g (fun s => sendGlobalVolumeMessage _) => unfold sendGlobalVolumeMessage
  | |- Comm ?g (fun s => refreshSoundVolume _ _ _) => unfold refreshSoundVolume
  | |- Comm ?g (sendStartMessage _) => unfold sendStartMessage
  | |- Comm ?g (sendUpdateMessage _) => unfold sendUpdateMessage
  | |- Comm ?g sendGlobalVolumeMessage => unfold sendGlobalVolumeMessage
  | |- Comm ?g (refreshSoundVolume _ _) => unfold refreshSoundVolume
  end).

(** *** The disabled flag *)

Lemma FIFO_SEND_soundDisabled b m s :
  FIFO_SEND m (set_soundDisabled b s) = set_soundDisabled b (FIFO_SEND m s).
Proof. unfold FIFO_SEND. rsimpl. destruct (_ <? _); reflexivity. Qed.

Lemma observe_soundDisabled b s :
  observe (set_soundDisabled b s) = set_soundDisabled b (observe s).
Proof.
  unfold observe. rsimpl. destruct (arm7 s) as [|e rest]; [reflexivity|].
  destruct e; reflexivity.
Qed.

Lemma spinWait_soundDisabled b n : forall s,
  spinWait n (set_soundDisabled b s) = option_map (set_soundDisabled b) (spinWait n s).
Proof.
  induction n as [|n IH]; intros s; [reflexivity|].
  cbn [spinWait]. rewrite !observe_soundDisabled.
  set (s1 := observe s). set (s2 := observe s1).
  replace (sharedPtr (set_soundDisabled b s1)) with (sharedPtr s1) by reflexivity.
  replace (sharedPtr (set_soundDisabled b s2)) with (sharedPtr s2) by reflexivity.
  destruct (_ =? _); [reflexivity|].
  destruct (scaleTransferReady _).
  - cbn [option_map]. f_equal.
    replace (asgp_cycles (-1) (set_soundDisabled b s2))
      with (set_soundDisabled b (asgp_cycles (-1) s2))
      by (unfold asgp_cycles, upd_sharedPtr; rsimpl; destruct (muted (eng s2)); reflexivity).
    rewrite <- FIFO_SEND_soundDisabled. reflexivity.
  - apply IH.
Qed.

Lemma synchronizeSound_soundDisabled b :
  Comm (set_soundDisabled b) synchronizeSound.
Proof.
  intros s. unfold synchronizeSound. rsimpl.
  destruct (muted (eng s)) eqn:Hm; [reflexivity|].
  cbv zeta.
  replace (sharedPtr (set_soundDisabled b s)) with (sharedPtr s) by reflexivity.
  destruct (_ && _).
  - replace (asgp_cycles _ (set_soundDisabled b s))
      with (set_soundDisabled b (asgp_cycles (targetCycles s) s))
      by (unfold asgp_cycles, upd_sharedPtr, targetCycles; rsimpl; rewrite Hm; reflexivity).
    rewrite spinWait_soundDisabled. reflexivity.
  - cbn [option_map]. f_equal. apply FIFO_SEND_soundDisabled.
Qed.

Ltac comm_step :=
  intros; cbv beta; unfold_helpers; unfold readIO, sharedPtr;
  split_state; reflexivity.

Ltac comm_cond :=
  intros; cbv beta; unfold readIO, sharedPtr; rsimpl; reflexivity.

(** [handleSoundRegister] never reads [soundDisabled]. *)
Lemma handleSoundRegister_soundDisabled b ioReg val :
  Comm (set_soundDisabled b) (handleSoundRegister ioReg val).
Proof.
  cbv beta delta [handleSoundRegister].
  comm_exec (synchronizeSound_soundDisabled b) comm_step comm_cond.
  by_register (u8 ioReg).
  all: comm_exec (synchronizeSound_soundDisabled b) comm_step comm_cond.
Qed.



(** ** Symbolic execution of a function body

    Each [let s := e in] introduces the next state together with its
    defining equation; fields of a later state are then evaluated by
    rewriting the equations backwards, newest first. *)

Lemma Post_let (Q : option State -> Prop) (e : State) (k : State -> option State) :
  (forall x, x = e -> Post Q (k x)) -> Post Q (let x := e in k x).
Proof. intros H. apply (H e eq_refl). Qed.

Lemma Post_letZ (Q : option State -> Prop) (e : Z) (k : Z -> option State) :
  (forall v, v = e -> Post Q (k v)) -> Post Q (let x := e in k x).
Proof. intros H. apply (H e eq_refl). Qed.

(** Resolve the conditionals in a defining equation [H : x = e]; the mute
    state of the previous state is among the hypotheses.  A condition
    without variables is computed, any other is split. *)
Ltac norm_eq H :=
  cbv zeta in H;
  unfold setSoundEventCycles, refreshSoundFreq, refreshSoundPan, refreshSoundDuty,
    updateSoundSample, asgp_chanOn, asgp_chanDuty, asgp_chanRealVol,
    asgp_chanRealFreq, asgp_chanPan, asgp_volControl, asgp_chanOutput,
    asgp_lfsr7Bit, asgp_message, asgp_cycles, upd_sharedPtr in H;
  repeat first
    [ progress rsimpl in H
    | match goal with
      | Hm : muted (eng ?y) = _ |- _ => rewrite Hm in H
      end
    | progress cbv iota in H
    | match type of H with
      | context [if ?c then _ else _] =>
          lazymatch c with
          | context [if _ then _ else _] => fail
          | _ =>
              tryif (match c with context [?v] => is_var v end)
              then destruct c eqn:?
              else (let b := eval vm_compute in c in change c with b in H)
          end
      end ].

(** The mute state of the new state. *)
Ltac mute_of x H :=
  lazymatch goal with
  | Hm : muted (eng ?y) = ?m |- _ =>
      let Hm' := fresh "Hm" in
      assert (Hm' : muted (eng x) = m) by (rewrite H; rsimpl; exact Hm)
  end.

Ltac post_exec :=
  repeat (cbn beta iota delta [andb];
  lazymatch goal with
  | |- Post ?Q (let x := ?e in @?k x) =>
      let ty := type of e in
      lazymatch ty with
      | State =>
          let x := fresh "x" in
          let H := fresh "Hx" in
          refine (Post_let Q e k _); intros x H; norm_eq H; mute_of x H
      | _ => refine (Post_letZ Q e k _); intros ? ?
      end
  | |- Post ?Q (if ?c then _ else _) =>
      tryif (match c with context [?v] => is_var v end)
      then (destruct c eqn:?; try congruence)
      else (let b := eval vm_compute in c in change c with b; cbv iota)
  | |- Post ?Q (bind (Some _) _) => cbn [bind]
  | |- Post ?Q (bind (if ?c then _ else _) _) =>
      tryif (match c with context [?v] => is_var v end)
      then destruct c eqn:?
      else (let b := eval vm_compute in c in change c with b; cbv iota)
  | |- Post ?Q (bind (refreshSoundVolume _ _ _) _) =>
      cbv beta delta [refreshSoundVolume]
  | |- Post ?Q (bind (let x := ?e in _) _) => cbv zeta
  | |- Post ?Q (sendStartMessage _ _) => cbv beta delta [sendStartMessage]
  | |- Post ?Q (sendUpdateMessage _ _) => cbv beta delta [sendUpdateMessage]
  end).

(** Evaluate the fields of the current state. *)
Ltac eval_fields :=
  repeat first
    [ progress rsimpl
    | progress unfold sharedPtr, readIO
    | match goal with
      | Hm : muted (eng ?y) = _ |- _ => rewrite Hm
      end
    | progress cbv iota
    | match goal with
      | H : ?x = _ |- context [?x] =>
          is_var x;
          lazymatch type of x with State => rewrite H end
      end ].

Ltac eval_fields_in H0 :=
  repeat first
    [ progress rsimpl in H0
    | progress unfold sharedPtr, readIO in H0
    | match goal with
      | Hm : muted (eng ?y) = _ |- _ => rewrite Hm in H0
      end
    | progress cbv iota in H0
    | match goal with
      | H : ?x = _ |- _ =>
          is_var x;
          lazymatch type of x with State => idtac end;
          lazymatch type of H0 with context [x] => rewrite H in H0 end
      end ].

Lemma truthy_false (x : Z) : truthy x = false -> x = 0.
Proof.
  unfold truthy. intros H. apply negb_false_iff in H. apply Z.eqb_eq. exact H.
Qed.

Lemma truthy_true (x : Z) : truthy x = true -> x <> 0.
Proof.
  unfold truthy. intros H. apply negb_true_iff in H. apply Z.eqb_neq. exact H.
Qed.

Lemma Z_land_lor_same (x m : Z) : Z.land (Z.lor x m) m = m.
Proof.
  apply Z.bits_inj'. intros n Hn.
  rewrite Z.land_spec, Z.lor_spec.
  destruct (Z.testbit x n), (Z.testbit m n); reflexivity.
Qed.

Lemma bitset_lor (x m : Z) : m <> 0 -> bitset (Z.lor x m) m = true.
Proof.
  intros H. unfold bitset. rewrite Z_land_lor_same.
  apply negb_true_iff, Z.eqb_neq, H.
Qed.

Ltac start_write r v Hval :=
  cbv beta delta [handleSoundRegister];
  lazymatch goal with
  | |- Post ?Q (let x := ?e in @?k x) =>
      refine (Post_letZ Q e k _); intros v Hval
  end;
  change (u8 r) with r; cbv beta iota.

(** Close a branch whose condition contradicts the hypotheses once both
    are expressed over the initial state. *)
Ltac contra_branch :=
  exfalso;
  repeat match goal with
         | H : truthy _ = false |- _ => progress eval_fields_in H
         | H : (_ && _) = false |- _ => progress eval_fields_in H
         end;
  repeat match goal with
         | Ht : ?c = true, H : context [?c] |- _ =>
             tryif constr_eq H Ht then fail else rewrite Ht in H
         end;
  repeat match goal with H : _ |- _ => progress cbn [andb] in H end;
  first [ discriminate
        | congruence
        | match goal with
          | H : truthy ?x = false, H0 : ?x <> 0 |- _ =>
              apply H0, truthy_false, H
          end ].

Ltac trigger_tac r :=
  let v := fresh "v" in
  let Hval := fresh "Hval" in
  start_write r v Hval;
  repeat match goal with
         | H : context [u8 _] |- _ =>
             tryif constr_eq H Hval then fail else rewrite <- Hval in H
         end;
  post_exec;
  unfold Post; eexists; (split; [reflexivity|]);
  unfold triggered, sameTraffic, lengthReload, maxLength, startMessage,
    updateMessage, envReg;
  repeat split; intros; eval_fields; try reflexivity;
  try (apply bitset_lor; discriminate);
  try congruence;
  try contra_branch.

Lemma trigger_ch0 val s :
  truthy (Z.land (u8 val) 0x80) = true ->
  Post (fun o => exists s1, o = synchronizeSound s1 /\
                            triggered 0 s s1 /\ sameTraffic s s1)
       (handleSoundRegister 0x14 val s).
Proof.
  intros Hv. destruct (muted (eng s)) eqn:Hm; trigger_tac 0x14.
Qed.

Lemma trigger_ch1 val s :
  truthy (Z.land (u8 val) 0x80) = true ->
  Post (fun o => exists s1, o = synchronizeSound s1 /\
                            triggered 1 s s1 /\ sameTraffic s s1)
       (handleSoundRegister 0x19 val s).
Proof.
  intros Hv. destruct (muted (eng s)) eqn:Hm; trigger_tac 0x19.
Qed.

Lemma trigger_ch2 val s :
  truthy (Z.land (u8 val) 0x80) = true ->
  truthy (Z.land (u8 (ioRam (gameboy s) 0x1a)) 0x80) = true ->
  Post (fun o => exists s1, o = synchronizeSound s1 /\
                            triggered 2 s s1 /\ sameTraffic s s1)
       (handleSoundRegister 0x1E val s).
Proof.
  intros Hv Hdac. destruct (muted (eng s)) eqn:Hm; trigger_tac 0x1E.
Qed.

Lemma trigger_ch3 val s :
  truthy (Z.land (u8 val) 0x80) = true ->
  Post (fun o => exists s1, o = synchronizeSound s1 /\
                            triggered 3 s s1 /\ sameTraffic s s1)
       (handleSoundRegister 0x23 val s).
Proof.
  intros Hv. destruct (muted (eng s)) eqn:Hm; trigger_tac 0x23.
Qed.

(** Channel 3 with its DAC off: the trigger bit only produces an Update. *)
Lemma trigger_ch2_dac_off val s :
  truthy (Z.land (u8 (ioRam (gameboy s) 0x1a)) 0x80) = false ->
  Post (fun o => exists s1, o = synchronizeSound s1 /\
                            chanOn (sharedPtr s1) = chanOn (sharedPtr s) /\
                            at_chanLenCounter 2 s1 = at_chanLenCounter 2 s /\
                            message (sharedPtr s1) = updateMessage 2 /\
                            sameTraffic s s1)
       (handleSoundRegister 0x1E val s).
Proof.
  intros Hdac. destruct (muted (eng s)) eqn:Hm.
  all: start_write 0x1E v Hval; post_exec.
  all: try (exfalso;
            match goal with
            | H : (_ && _) = true |- _ =>
                eval_fields_in H; rewrite Hdac, andb_false_r in H; discriminate
            end).
  all: unfold Post; eexists; (split; [reflexivity|]).
  all: unfold sameTraffic, updateMessage.
  all: repeat split; eval_fields; try reflexivity; try congruence.
  all: match goal with H : ?w = (if _ then _ else _) |- _ => subst w end.
  all: reflexivity.
Qed.

(** [synchronizeSound] keeps the engine and, in the block behind
    [sharedPtr], everything but the handshake fields. *)
Lemma synchronizeSound_keeps s1 s' :
  synchronizeSound s1 = Some s' ->
  eng s' = eng s1 /\ gameboy s' = gameboy s1 /\
  protoErase (sharedPtr s') = protoErase (sharedPtr s1).
Proof.
  intros H. destruct (muted (eng s1)) eqn:Hm.
  - rewrite (synchronizeSound_muted s1 Hm) in H. injection H as <-. auto.
  - destruct (sync_frame_synchronizeSound s1 s' H) as (F1 & F2 & _ & _ & _ & F6).
    unfold sharedPtr. rewrite F1, Hm. auto.
Qed.

Lemma triggered_sync ch s s1 s' :
  triggered ch s s1 -> synchronizeSound s1 = Some s' -> triggered ch s s'.
Proof.
  intros (T1 & T2 & T3 & T4 & T5 & T6) H.
  destruct (synchronizeSound_keeps s1 s' H) as (He & _ & Hp).
  assert (Hon : chanOn (sharedPtr s') = chanOn (sharedPtr s1))
    by exact (f_equal chanOn Hp).
  assert (Hmsg : message (sharedPtr s') = message (sharedPtr s1))
    by exact (f_equal message Hp).
  unfold triggered, at_chanLenCounter, at_chanVol in *.
  rewrite Hon, Hmsg, He. repeat split; assumption.
Qed.

(** C1 fails as stated: with register 0x1A reading 0 (DAC off), the
    trigger write 0x1E := 0x80 of channel 2 leaves the on-bit clear and
    the length counter alone, and sends an Update, not a Start. *)
Lemma trigger_write_counterexample :
  truthy (Z.land (u8 0x80) 0x80) = true /\
  exists s',
    handleSoundRegister (hdr := ds_header) (trigReg 2) 0x80 state0 = Some s' /\
    bitset (chanOn (sharedPtr s')) (Z.shiftl 1 2) = false /\
    fifo s' = [updateMessage (hdr := ds_header) 2] /\
    updateMessage (hdr := ds_header) 2 <> startMessage (hdr := ds_header) 2.
Proof.
  split; [reflexivity|].
  eexists. split; [vm_compute; reflexivity|].
  repeat split; vm_compute; discriminate.
Qed.

(** C1 (amended): for channels 0, 1 and 3 in every prior state, and for
    channel 2 provided bit 7 of register 0x1A reads as set, a write with
    bit 7 set to the channel's frequency-high/trigger register sets the
    channel's on-bit in the bitmask behind [sharedPtr], recomputes the
    length counter to [(maxLength - chanLen) * clockSpeed / 256] in [int]
    arithmetic (maxLength 64 for channels 0, 1, 3 and 256 for channel 2),
    reloads the volume of channels 0, 1 and 3 from the envelope register,
    reloads the sweep counter of channel 0 when the sweep time is not 0,
    stores the Start message of the channel in the message slot and hands
    it to [synchronizeSound]; all this still holds when the latter has
    returned.  With the engine not muted and the shared block in
    best-effort mode the write returns, and below the FIFO threshold the
    Start message is appended to the FIFO. *)
Theorem trigger_write (ch val : Z) (s : State) :
  0 <= ch < 4 ->
  truthy (Z.land (u8 val) 0x80) = true ->
  (ch = 2 -> truthy (Z.land (readIO s 0x1a) 0x80) = true) ->
  exists s1,
    handleSoundRegister (trigReg ch) val s = synchronizeSound s1 /\
    triggered ch s s1 /\
    (forall s', synchronizeSound s1 = Some s' -> triggered ch s s') /\
    (muted (eng s) = false -> hyperSound (sharedData s) = false ->
     exists s', handleSoundRegister (trigReg ch) val s = Some s' /\
                (outstanding s < MAX_FIFOS_WAITING ->
                 fifo s' = fifo s ++ [u32 (startMessage ch)])).
Proof.
  intros Hch Hv Hdac.
  assert (H : exists s1, handleSoundRegister (trigReg ch) val s = synchronizeSound s1 /\
                         triggered ch s s1 /\ sameTraffic s s1).
  { assert (C : ch = 0 \/ ch = 1 \/ ch = 2 \/ ch = 3) by lia.
    destruct C as [-> | [-> | [-> | ->]]].
    - apply (trigger_ch0 val s Hv).
    - apply (trigger_ch1 val s Hv).
    - apply (trigger_ch2 val s Hv). apply Hdac. reflexivity.
    - apply (trigger_ch3 val s Hv). }
  destruct H as (s1 & E & T & (Tm & Tf & _ & Ts & Tr & Th)).
  exists s1. split; [exact E|]. split; [exact T|]. split.
  - intros s' H. exact (triggered_sync ch s s1 s' T H).
  - intros Hm Hh.
    assert (Hm1 : muted (eng s1) = false) by congruence.
    assert (Hh1 : hyperSound (sharedData s1) = false) by congruence.
    rewrite E, (synchronizeSound_best_effort s1 Hm1 Hh1).
    eexists. split; [reflexivity|]. intros Ho.
    assert (Ho1 : outstanding s1 < MAX_FIFOS_WAITING).
    { unfold outstanding in *. rewrite Ts, Tr. exact Ho. }
    rewrite (FIFO_SEND_accept _ s1 Ho1). rsimpl. rewrite Tf.
    destruct T as (_ & _ & _ & _ & _ & Tmsg).
    rewrite (sharedPtr_unmuted s1 Hm1) in Tmsg. rewrite Tmsg. reflexivity.
Qed.

(** ** The master-enable register *)

Lemma handle_0x26_off val s :
  Z.land (u8 val) 0x80 = 0 ->
  handleSoundRegister 0x26 val s
  = synchronizeSound (asgp_message (updateMessage 4) (asgp_chanOn 0 s)).
Proof.
  intros H. cbv beta delta [handleSoundRegister].
  change (u8 38) with 38. cbv beta iota zeta.
  unfold truthy. rewrite H. reflexivity.
Qed.

Lemma handle_0x26_on val s :
  truthy (Z.land (u8 val) 0x80) = true ->
  handleSoundRegister 0x26 val s = Some s.
Proof.
  intros H. cbv beta delta [handleSoundRegister].
  change (u8 38) with 38. cbv beta iota zeta.
  rewrite H. reflexivity.
Qed.

(** Writing to the block behind [sharedPtr] what it already holds. *)
Lemma asgp_same (c m : Z) (s : State) :
  chanOn (sharedPtr s) = c -> message (sharedPtr s) = m ->
  asgp_message m (asgp_chanOn c s) = s.
Proof.
  destruct s as [e d dd g sd gh f pl a7].
  unfold asgp_message, asgp_chanOn, upd_sharedPtr, sharedPtr.
  destruct (muted e) eqn:Hm; repeat (progress (rsimpl; rewrite ?Hm));
    intros <- <-.
  - destruct dd; reflexivity.
  - destruct d; reflexivity.
Qed.

Lemma asgp_read (c m : Z) (s : State) :
  chanOn (sharedPtr (asgp_message m (asgp_chanOn c s))) = c /\
  message (sharedPtr (asgp_message m (asgp_chanOn c s))) = m.
Proof.
  unfold asgp_message, asgp_chanOn, upd_sharedPtr, sharedPtr.
  destruct (muted (eng s)) eqn:Hm;
    repeat (progress (rsimpl; rewrite ?Hm)); split; reflexivity.
Qed.

Lemma sameButTraffic_sync s s' :
  synchronizeSound s = Some s' -> sameButTraffic s s'.
Proof.
  intros H. destruct (muted (eng s)) eqn:Hm.
  - rewrite (synchronizeSound_muted s Hm) in H. injection H as <-.
    unfold sameButTraffic. tauto.
  - destruct (sync_frame_synchronizeSound s s' H) as (F1 & F2 & F3 & F4 & F5 & F6).
    unfold sameButTraffic. rewrite F1, F2, F3, F4, F5, F6. tauto.
Qed.

(** C6 fails as stated: a second disable write sends a second Update
    (the FIFO and the sent counter grow), so the state is not the same. *)
Lemma master_disable_twice_counterexample :
  exists s1 s2,
    handleSoundRegister (hdr := ds_header) 0x26 0 state0 = Some s1 /\
    handleSoundRegister (hdr := ds_header) 0x26 0 s1 = Some s2 /\
    fifo s1 = [updateMessage (hdr := ds_header) 4] /\
    fifo s2 = [updateMessage (hdr := ds_header) 4;
               updateMessage (hdr := ds_header) 4] /\
    fifosSent (sharedData s1) = 1 /\ fifosSent (sharedData s2) = 2 /\
    s2 <> s1.
Proof.
  eexists. eexists.
  split; [vm_compute; reflexivity|].
  split; [vm_compute; reflexivity|].
  repeat split; try reflexivity.
  intros E. apply (f_equal fifo) in E. vm_compute in E. discriminate E.
Qed.

(** C6 (amended): a write to register 0x26 with bit 7 clear zeroes the
    whole on-bitmask, stores the global Update in the message slot and
    hands it to [synchronizeSound].  A second consecutive disable write
    acts on the state reached exactly as one more call of
    [synchronizeSound]: the bitmask stays zero and nothing changes except
    message traffic, but the Update is issued again; with the engine not
    muted, in best-effort mode and below the FIFO threshold it is appended
    to the FIFO a second time. *)
Theorem master_disable (val val2 : Z) (s : State) :
  Z.land (u8 val) 0x80 = 0 ->
  Z.land (u8 val2) 0x80 = 0 ->
  handleSoundRegister 0x26 val s
  = synchronizeSound (asgp_message (updateMessage 4) (asgp_chanOn 0 s)) /\
  forall s1,
    handleSoundRegister 0x26 val s = Some s1 ->
    chanOn (sharedPtr s1) = 0 /\
    message (sharedPtr s1) = updateMessage 4 /\
    handleSoundRegister 0x26 val2 s1 = synchronizeSound s1 /\
    (forall s2, handleSoundRegister 0x26 val2 s1 = Some s2 ->
                chanOn (sharedPtr s2) = 0 /\ sameButTraffic s1 s2) /\
    (muted (eng s1) = false -> hyperSound (sharedData s1) = false ->
     outstanding s1 < MAX_FIFOS_WAITING ->
     exists s2, handleSoundRegister 0x26 val2 s1 = Some s2 /\
                fifo s2 = fifo s1 ++ [u32 (updateMessage 4)] /\
                fifosSent (sharedData s2) = iadd (fifosSent (sharedData s1)) 1).
Proof.
  intros Hv Hv2. split; [apply handle_0x26_off, Hv|].
  intros s1 H1. rewrite (handle_0x26_off val s Hv) in H1.
  destruct (synchronizeSound_keeps _ _ H1) as (He & _ & Hp).
  assert (Hon : chanOn (sharedPtr s1) = 0).
  { rewrite (f_equal chanOn Hp : chanOn (sharedPtr s1) = _).
    apply asgp_read. }
  assert (Hmsg : message (sharedPtr s1) = updateMessage 4).
  { rewrite (f_equal message Hp : message (sharedPtr s1) = _).
    apply asgp_read. }
  assert (E2 : handleSoundRegister 0x26 val2 s1 = synchronizeSound s1).
  { rewrite (handle_0x26_off val2 s1 Hv2), (asgp_same 0 _ s1 Hon Hmsg).
    reflexivity. }
  split; [exact Hon|]. split; [exact Hmsg|]. split; [exact E2|]. split.
  - intros s2 H2. rewrite E2 in H2.
    destruct (synchronizeSound_keeps _ _ H2) as (_ & _ & Hp2).
    split.
    + rewrite (f_equal chanOn Hp2 : chanOn (sharedPtr s2) = _). exact Hon.
    + apply sameButTraffic_sync, H2.
  - intros Hm Hh Ho. rewrite E2, (synchronizeSound_best_effort s1 Hm Hh).
    eexists. split; [reflexivity|].
    rewrite (FIFO_SEND_accept _ s1 Ho). rsimpl.
    rewrite (sharedPtr_unmuted s1 Hm) in Hmsg. rewrite Hmsg. split; reflexivity.
Qed.

(** ** Bulk resync *)

Lemma mode_frame_OK : RelOK mode_frame best_effort.
Proof.
  constructor.
  - unfold mode_frame. tauto.
  - unfold mode_frame. intros s1 s2 s3 (A1 & A2 & A3) (B1 & B2 & B3).
    repeat split; congruence.
  - unfold mode_frame, best_effort. intros s s' (A1 & A2 & _) (B1 & B2).
    split; congruence.
  - intros s s' H. destruct (muted (eng s)) eqn:Hm.
    + rewrite (synchronizeSound_muted s Hm) in H. injection H as <-.
      unfold mode_frame. tauto.
    + destruct (sync_frame_synchronizeSound s s' H) as (F1 & F2 & _ & _ & _ & F6).
      unfold mode_frame. rewrite F1, F2.
      repeat split. exact (f_equal hyperSound F6).
  - intros s (Hm & Hh). rewrite (synchronizeSound_best_effort s Hm Hh).
    discriminate.
Qed.

Ltac mode_step :=
  unfold_helpers; split_state;
  unfold mode_frame; rsimpl_all;
  repeat split; try reflexivity; try congruence.

(** In best-effort mode every register write returns. *)
Lemma handleSoundRegister_mode ioReg val s :
  Ro mode_frame best_effort s (handleSoundRegister ioReg val s).
Proof.
  cbv beta delta [handleSoundRegister].
  rel_exec mode_frame_OK mode_step.
  by_register (u8 ioReg).
  all: rel_exec mode_frame_OK mode_step.
Qed.

Lemma noRestart_OK : RelOK noRestart never.
Proof.
  constructor.
  - unfold noRestart. intros s. split; [reflexivity|]. tauto.
  - unfold noRestart. intros s1 s2 s3 (A1 & A2) (B1 & B2).
    split; [congruence|]. intros n H. apply A2, B2, H.
  - unfold never. tauto.
  - intros s s' H. destruct (synchronizeSound_keeps s s' H) as (He & _ & Hp).
    unfold noRestart. rewrite He. split; [reflexivity|].
    rewrite (f_equal chanOn Hp : chanOn (sharedPtr s') = _). tauto.
  - unfold never. tauto.
Qed.

Lemma testbit_land_l (a b n : Z) :
  Z.testbit (Z.land a b) n = true -> Z.testbit a n = true.
Proof. rewrite Z.land_spec. intros H. apply andb_true_iff in H. tauto. Qed.

Ltac restart_step :=
  unfold_helpers; unfold noRestart, sharedPtr; split_state;
  rsimpl_all;
  (split; [ first [reflexivity | congruence] | ]);
  intros n Hn;
  first [ exact Hn
        | congruence
        | apply testbit_land_l in Hn; exact Hn
        | rewrite Z.bits_0 in Hn; discriminate Hn ].

(** A write that does not carry the trigger bit to a trigger register
    sets no bit of the on-bitmask. *)
Lemma handleSoundRegister_noRestart ioReg val s :
  (isTriggerReg (u8 ioReg) = true -> Z.land (u8 val) 0x80 = 0) ->
  Ro noRestart never s (handleSoundRegister ioReg val s).
Proof.
  intros Hmask. cbv beta delta [handleSoundRegister].
  rel_exec noRestart_OK restart_step.
  match goal with Hv : ?v = u8 val |- _ => rewrite <- Hv in Hmask end.
  revert Hmask.
  by_register (u8 ioReg).
  all: intros Hmask; try specialize (Hmask eq_refl).
  all: rel_exec noRestart_OK restart_step.
Qed.

Lemma mask_trigger_bit (x : Z) : Z.land (u8 (Z.land x (Z.lnot 0x80))) 0x80 = 0.
Proof.
  unfold u8. rewrite <- !Z.land_assoc.
  change (Z.land (Z.lnot 128) (Z.land 255 128)) with 0.
  apply Z.land_0_r.
Qed.

Lemma set_trigger_bit (x : Z) : truthy (Z.land (u8 (Z.lor x 0x80)) 0x80) = true.
Proof.
  unfold u8. rewrite <- Z.land_assoc.
  change (Z.land 255 128) with 128. rewrite Z_land_lor_same. reflexivity.
Qed.

Lemma refreshLoop_mode (n : nat) : forall i s,
  Ro mode_frame best_effort s (refreshLoop n i s).
Proof.
  induction n as [|n IH]; intros i s; cbn [refreshLoop].
  - apply (Ro_Some _ _). apply (R_refl _ _ mode_frame_OK).
  - apply (Ro_bind _ _ mode_frame_OK); [|intros x; apply IH].
    destruct (isTriggerReg i); apply handleSoundRegister_mode.
Qed.

Lemma refreshLoop_noRestart (n : nat) : forall i s,
  0 <= i -> i + Z.of_nat n <= 256 ->
  Ro noRestart never s (refreshLoop n i s).
Proof.
  induction n as [|n IH]; intros i s Hi Hn; cbn [refreshLoop].
  - apply (Ro_Some _ _). apply (R_refl _ _ noRestart_OK).
  - apply (Ro_bind _ _ noRestart_OK); [|intros x; apply IH; lia].
    destruct (isTriggerReg i) eqn:Et; apply handleSoundRegister_noRestart.
    + intros _. apply mask_trigger_bit.
    + rewrite (u8_id i) by lia. congruence.
Qed.

(** One of the trigger writes that end [refresh]. *)
Lemma retrigger_write (ch : Z) (s s' : State) :
  0 <= ch < 4 ->
  handleSoundRegister (trigReg ch) (Z.lor (readIO s (trigReg ch)) 0x80) s = Some s' ->
  gameboy s' = gameboy s /\
  muted (eng s') = muted (eng s) /\
  chanOn (sharedPtr s') =
  (if (ch =? 2) && negb (truthy (Z.land (readIO s 0x1a) 0x80))
   then chanOn (sharedPtr s)
   else Z.lor (chanOn (sharedPtr s)) (Z.shiftl 1 ch)).
Proof.
  intros Hch H.
  destruct (handleSoundRegister_mode (trigReg ch) (Z.lor (readIO s (trigReg ch)) 0x80) s)
    as (_ & Hf).
  destruct (Hf s' H) as (Fm & _ & Fg).
  split; [exact Fg|]. split; [exact Fm|].
  pose proof (set_trigger_bit (readIO s (trigReg ch))) as Hv.
  assert (C : ch = 0 \/ ch = 1 \/ ch = 2 \/ ch = 3) by lia.
  destruct C as [-> | [-> | [-> | ->]]]; cbn [Z.eqb andb trigReg] in *.
  - destruct (trigger_ch0 _ s Hv) as (s1 & E & T & _).
    rewrite H in E. symmetry in E.
    destruct (triggered_sync 0 s s1 s' T E) as (_ & T2 & _). exact T2.
  - destruct (trigger_ch1 _ s Hv) as (s1 & E & T & _).
    rewrite H in E. symmetry in E.
    destruct (triggered_sync 1 s s1 s' T E) as (_ & T2 & _). exact T2.
  - change (2 =? 2) with true. cbn [andb].
    destruct (truthy (Z.land (readIO s 26) 128)) eqn:Ed; cbn [negb].
    + destruct (trigger_ch2 _ s Hv Ed) as (s1 & E & T & _).
      rewrite H in E. symmetry in E.
      destruct (triggered_sync 2 s s1 s' T E) as (_ & T2 & _). exact T2.
    + destruct (trigger_ch2_dac_off (Z.lor (readIO s 30) 128) s Ed)
        as (s1 & E & T & _).
      rewrite H in E. symmetry in E.
      destruct (synchronizeSound_keeps s1 s' E) as (_ & _ & Hp).
      rewrite (f_equal chanOn Hp : chanOn (sharedPtr s') = _). exact T.
  - destruct (trigger_ch3 _ s Hv) as (s1 & E & T & _).
    rewrite H in E. symmetry in E.
    destruct (triggered_sync 3 s s1 s' T E) as (_ & T2 & _). exact T2.
Qed.

Lemma retrigger_cond (ch : Z) (c : bool) (s s' : State) :
  0 <= ch < 4 ->
  (if c
   then handleSoundRegister (trigReg ch) (Z.lor (readIO s (trigReg ch)) 0x80) s
   else Some s) = Some s' ->
  gameboy s' = gameboy s /\
  muted (eng s') = muted (eng s) /\
  chanOn (sharedPtr s') =
  (if c && negb ((ch =? 2) && negb (truthy (Z.land (readIO s 0x1a) 0x80)))
   then Z.lor (chanOn (sharedPtr s)) (Z.shiftl 1 ch)
   else chanOn (sharedPtr s)).
Proof.
  intros Hch H. destruct c; cbn [andb].
  - destruct (retrigger_write ch s s' Hch H) as (A & B & C).
    split; [exact A|]. split; [exact B|]. rewrite C.
    destruct ((ch =? 2) && negb (truthy (Z.land (readIO s 26) 128))); reflexivity.
  - injection H as <-. auto.
Qed.

Lemma bind_Some {A B : Type} (m : option A) (k : A -> option B) (b : B) :
  bind m k = Some b -> exists a, m = Some a /\ k a = Some b.
Proof. destruct m as [a|]; [|discriminate]. intros H. exists a. auto. Qed.

Lemma readIO_gameboy (s s' : State) (r : Z) :
  gameboy s' = gameboy s -> readIO s' r = readIO s r.
Proof. intros H. unfold readIO. rewrite H. reflexivity. Qed.

(** The on-bitmask after the four conditional trigger writes. *)
Lemma retrigger_result (sB s' : State) :
  retrigger sB = Some s' ->
  chanOn (sharedPtr sB) = 0 ->
  gameboy s' = gameboy sB /\
  muted (eng s') = muted (eng sB) /\
  forall ch, 0 <= ch < 4 ->
    bitset (chanOn (sharedPtr s')) (Z.shiftl 1 ch)
    = bitset (readIO sB 0x26) (Z.shiftl 1 ch)
      && (negb (ch =? 2) || truthy (Z.land (readIO sB 0x1a) 0x80)).
Proof.
  unfold retrigger. intros H H0.
  apply bind_Some in H. destruct H as (s1 & H1 & H).
  apply bind_Some in H. destruct H as (s2 & H2 & H).
  apply bind_Some in H. destruct H as (s3 & H3 & H4).
  apply (retrigger_cond 0) in H1; [|lia]. destruct H1 as (G1 & M1 & C1).
  apply (retrigger_cond 1) in H2; [|lia]. destruct H2 as (G2 & M2 & C2).
  apply (retrigger_cond 2) in H3; [|lia]. destruct H3 as (G3 & M3 & C3).
  apply (retrigger_cond 3) in H4; [|lia]. destruct H4 as (G4 & M4 & C4).
  assert (G2' : gameboy s2 = gameboy sB) by congruence.
  assert (G3' : gameboy s3 = gameboy sB) by congruence.
  split; [congruence|]. split; [congruence|].
  rewrite !(readIO_gameboy sB s1), !(readIO_gameboy sB s2), !(readIO_gameboy sB s3)
    in * by congruence.
  rewrite C4, C3, C2, C1, H0. clear.
  intros ch Hch.
  assert (C : ch = 0 \/ ch = 1 \/ ch = 2 \/ ch = 3) by lia.
  unfold bitset, truthy.
  change (Z.shiftl 1 0) with 1; change (Z.shiftl 1 1) with 2;
    change (Z.shiftl 1 2) with 4; change (Z.shiftl 1 3) with 8.
  destruct C as [-> | [-> | [-> | ->]]].
  all: change (Z.shiftl 1 0) with 1; change (Z.shiftl 1 1) with 2;
       change (Z.shiftl 1 2) with 4; change (Z.shiftl 1 3) with 8.
  all: destruct (Z.land (readIO sB 38) 1 =? 0),
                (Z.land (readIO sB 38) 2 =? 0),
                (Z.land (readIO sB 38) 4 =? 0),
                (Z.land (readIO sB 38) 8 =? 0),
                (Z.land (readIO sB 26) 128 =? 0); reflexivity.
Qed.

Lemma not_eq_None_Some_state (o : option State) :
  o <> None -> exists s', o = Some s'.
Proof. destruct o as [x|]; [exists x; reflexivity | congruence]. Qed.

Lemma retrigger_mode (s : State) : Ro mode_frame best_effort s (retrigger s).
Proof.
  unfold retrigger.
  repeat (apply (Ro_bind _ _ mode_frame_OK); [|intros ?]).
  all: match goal with
       | |- Ro _ _ ?x (if ?c then _ else _) =>
           destruct c;
           [ apply handleSoundRegister_mode
           | apply (Ro_Some _ _), (R_refl _ _ mode_frame_OK) ]
       end.
Qed.

Lemma noRestart_zero (s s' : State) :
  noRestart s s' -> chanOn (sharedPtr s) = 0 -> chanOn (sharedPtr s') = 0.
Proof.
  intros (_ & H) H0. apply Z.bits_inj. intros n. rewrite Z.bits_0.
  destruct (Z.testbit (chanOn (sharedPtr s')) n) eqn:E; [|reflexivity].
  apply H in E. rewrite H0, Z.bits_0 in E. discriminate E.
Qed.

Lemma refreshStart_facts (s : State) :
  muted (eng (refreshStart s)) = false /\
  chanOn (sharedPtr (refreshStart s)) = 0 /\
  gameboy (refreshStart s) = gameboy s /\
  hyperSound (sharedData (refreshStart s)) = hyperSound (sharedData s).
Proof.
  unfold refreshStart, asgp_chanOn, upd_sharedPtr, sharedPtr, unmute.
  rsimpl. repeat split.
Qed.

Lemma refresh_enabled (s : State) :
  soundDisabled s = false ->
  refresh s
  = (sA <- handleSoundRegister 0x26 (readIO s 0x26) (refreshStart s) ;;
     sB <- refreshLoop 48 0x10 sA ;;
     retrigger sB).
Proof.
  intros Hd. unfold refresh. cbv zeta.
  replace (soundDisabled (unmute s)) with false by (symmetry; exact Hd).
  reflexivity.
Qed.



(** ** Advancing the timers: what every pass of [updateSound] preserves *)

Lemma bitset_testbit (x i : Z) :
  0 <= i -> bitset x (Z.shiftl 1 i) = Z.testbit x i.
Proof.
  intros Hi. unfold bitset. rewrite Z.shiftl_1_l.
  destruct (Z.testbit x i) eqn:E.
  - apply negb_true_iff, Z.eqb_neq. intros H.
    assert (F : Z.testbit (Z.land x (2 ^ i)) i = false)
      by (rewrite H; apply Z.bits_0).
    rewrite Z.land_spec, E, Z.pow2_bits_true in F by exact Hi. discriminate.
  - apply negb_false_iff, Z.eqb_eq. apply Z.bits_inj'. intros n Hn.
    rewrite Z.land_spec, Z.bits_0, Z.pow2_bits_eqb by exact Hi.
    destruct (Z.eqb_spec i n) as [<-|_].
    + rewrite E. reflexivity.
    + apply andb_false_r.
Qed.

Lemma RelOK_never (R : State -> State -> Prop) :
  (forall s, R s s) ->
  (forall s1 s2 s3, R s1 s2 -> R s2 s3 -> R s1 s3) ->
  (forall s s', synchronizeSound s = Some s' -> R s s') ->
  RelOK R never.
Proof.
  intros A B C. constructor; try assumption; unfold never; tauto.
Qed.

Section Passes.
Variable R : State -> State -> Prop.
Hypothesis R_refl : forall s, R s s.
Hypothesis R_trans : forall s1 s2 s3, R s1 s2 -> R s2 s3 -> R s1 s3.
Hypothesis R_sweepCounter : forall v s, R s (asg_chan1SweepCounter v s).
Hypothesis R_envCounter : forall i v s, R s (asg_chanEnvCounter i v s).
Hypothesis R_event : forall v s, R s (setSoundEventCycles v s).
Hypothesis R_sweepFire : forall s, R s (sweepFire s).
Hypothesis R_envFire :
  forall i s s', 0 <= i < 4 -> i <> 2 -> envFire i s = Some s' -> R s s'.
Hypothesis R_lengthStep :
  forall cycles i c s, 0 <= i < 4 -> R s (snd (lengthStep cycles i (c, s))).
Hypothesis R_notify :
  forall c s s', notifyChanged (c, s) = Some s' -> R s s'.

Lemma setSoundEventCycles_R v s : R s (setSoundEventCycles v s).
Proof. apply R_event. Qed.

Lemma sweepLoop_R fuel : forall c s c' s',
  sweepLoop fuel c s = Some (c', s') -> R s s'.
Proof.
  induction fuel as [|k IH]; intros c s c' s'; cbn [sweepLoop].
  - destruct (_ <=? _); [discriminate|].
    intros E. injection E as <- <-. apply R_refl.
  - destruct (_ <=? _).
    + intros E. eapply R_trans; [apply R_sweepFire|]. eapply IH, E.
    + intros E. injection E as <- <-. apply R_refl.
Qed.

Lemma sweepPass_R fuel cycles c s c' s' :
  sweepPass fuel cycles c s = Some (c', s') -> R s s'.
Proof.
  unfold sweepPass. destruct (_ && _).
  - cbv zeta. intros E. apply bind_Some in E. destruct E as ([c1 s1] & E1 & E2).
    cbn [fst snd] in E2. injection E2 as <- <-.
    eapply R_trans; [apply R_sweepCounter|].
    eapply R_trans; [eapply sweepLoop_R, E1|].
    destruct (bitset _ _); [apply setSoundEventCycles_R | apply R_refl].
  - intros E. injection E as <- <-. apply R_refl.
Qed.

(** The envelope loop and the envelope step of one channel [i]. *)
Lemma envLoop_R fuel i :
  (forall s s', envFire i s = Some s' -> R s s') ->
  forall c s c' s', envLoop fuel i c s = Some (c', s') -> R s s'.
Proof.
  intros Hf. induction fuel as [|k IH]; intros c s c' s'; cbn [envLoop].
  - destruct (_ <=? _); [discriminate|].
    intros E. injection E as <- <-. apply R_refl.
  - destruct (_ <=? _).
    + intros E. apply bind_Some in E. destruct E as (s1 & E1 & E2).
      eapply R_trans; [eapply Hf; eassumption|]. eapply IH, E2.
    + intros E. injection E as <- <-. apply R_refl.
Qed.

Lemma envStep_R fuel cycles i c s c' s' :
  (forall v s, R s (asg_chanEnvCounter i v s)) ->
  (i <> 2 -> forall s s', envFire i s = Some s' -> R s s') ->
  envStep fuel cycles i (c, s) = Some (c', s') -> R s s'.
Proof.
  intros Hc Hf. unfold envStep.
  destruct (negb (i =? 2)) eqn:E2; cbn [andb].
  - destruct (bitset _ _); [|intros E; injection E as <- <-; apply R_refl].
    destruct (truthy _); [|intros E; injection E as <- <-; apply R_refl].
    cbv zeta. intros E. apply bind_Some in E. destruct E as ([c1 s1] & E1 & E3).
    cbn [fst snd] in E3. injection E3 as <- <-.
    eapply R_trans; [apply Hc|].
    eapply R_trans; [eapply (envLoop_R fuel i); [|exact E1]|].
    + apply negb_true_iff, Z.eqb_neq in E2. exact (Hf E2).
    + destruct (_ && _); [apply setSoundEventCycles_R | apply R_refl].
  - intros E. injection E as <- <-. apply R_refl.
Qed.

Lemma envelopePass_R fuel cycles c s c' s' :
  envelopePass fuel cycles (c, s) = Some (c', s') -> R s s'.
Proof.
  unfold envelopePass. intros E.
  apply bind_Some in E. destruct E as ([c0 s0] & E0 & E).
  apply bind_Some in E. destruct E as ([c1 s1] & E1 & E).
  apply bind_Some in E. destruct E as ([c2 s2] & E2 & E3).
  assert (Hf : forall i, 0 <= i < 4 -> i <> 2 ->
                 forall x x', envFire i x = Some x' -> R x x')
    by (intros i Hi H2 x x'; apply R_envFire; assumption).
  eapply R_trans;
    [eapply envStep_R; [apply R_envCounter| |exact E0]; apply Hf; lia|].
  eapply R_trans;
    [eapply envStep_R; [apply R_envCounter| |exact E1]; apply Hf; lia|].
  eapply R_trans;
    [eapply envStep_R; [apply R_envCounter| |exact E2]; apply Hf; lia|].
  eapply envStep_R; [apply R_envCounter| |exact E3]. apply Hf; lia.
Qed.

Lemma lengthStep_R cycles i p :
  0 <= i < 4 -> R (snd p) (snd (lengthStep cycles i p)).
Proof. intros Hi. destruct p as [c s]. apply R_lengthStep, Hi. Qed.

Lemma lengthPass_R cycles c s : R s (snd (lengthPass cycles (c, s))).
Proof.
  unfold lengthPass.
  eapply R_trans; [|apply lengthStep_R; lia].
  eapply R_trans; [|apply lengthStep_R; lia].
  eapply R_trans; [|apply lengthStep_R; lia].
  apply R_lengthStep. lia.
Qed.

(** The passes after the sweep. *)
Lemma laterPasses_R fuel cycles c s cs s' :
  envelopePass fuel cycles (c, s) = Some cs ->
  notifyChanged (lengthPass cycles cs) = Some s' -> R s s'.
Proof.
  intros E2 E3. destruct cs as [c2 s2].
  eapply R_trans; [eapply envelopePass_R, E2|].
  eapply R_trans; [apply (lengthPass_R cycles c2 s2)|].
  destruct (lengthPass cycles (c2, s2)) as [c3 s3]. cbn [snd].
  eapply R_notify, E3.
Qed.

Lemma updateSound_R fuel cycles s s' :
  updateSound fuel cycles s = Some s' -> R s s'.
Proof.
  unfold updateSound. destruct (soundDisabled s).
  - intros E. injection E as <-. apply R_refl.
  - intros E. apply bind_Some in E. destruct E as ([c1 s1] & E1 & E).
    apply bind_Some in E. destruct E as (cs & E2 & E3).
    eapply R_trans; [eapply sweepPass_R, E1|].
    eapply laterPasses_R; eassumption.
Qed.

End Passes.

(** *** No pass sets a bit of the on-bitmask *)

Ltac advance_step tac :=
  cbv beta iota delta [sweepFire lengthStep FIFO_SEND]; tac.

Lemma envFire_noRestart i s : Ro noRestart never s (envFire i s).
Proof.
  cbv beta delta [envFire].
  rel_exec noRestart_OK restart_step.
Qed.

Lemma notifyChanged_noRestart c s : Ro noRestart never s (notifyChanged (c, s)).
Proof.
  cbv beta iota delta [notifyChanged].
  rel_exec noRestart_OK ltac:(advance_step restart_step).
Qed.

Lemma updateSound_noRestart fuel cycles s s' :
  updateSound fuel cycles s = Some s' -> noRestart s s'.
Proof.
  apply (updateSound_R noRestart).
  - apply (R_refl _ _ noRestart_OK).
  - apply (R_trans _ _ noRestart_OK).
  - intros v x. restart_step.
  - intros i v x. restart_step.
  - intros v x. restart_step.
  - intros x. advance_step restart_step.
  - intros i x x' _ _ E. apply (envFire_noRestart i x), E.
  - intros cy i c x _. advance_step restart_step.
  - intros c x x' E. apply (notifyChanged_noRestart c x), E.
Qed.

Lemma noRestart_bit (i : Z) (s s' : State) :
  0 <= i -> noRestart s s' -> chanOnBit i s = false -> chanOnBit i s' = false.
Proof.
  unfold chanOnBit. intros Hi (_ & H). rewrite !bitset_testbit by exact Hi.
  intros E. destruct (Z.testbit (chanOn (sharedPtr s')) i) eqn:E'; [|reflexivity].
  rewrite (H i E') in E. discriminate.
Qed.

Lemma run_noRestart (calls : list Call) : forall s s',
  Forall noTrigger calls -> run calls s = Some s' -> noRestart s s'.
Proof.
  induction calls as [|c calls IH]; intros s s' Hc; cbn [run].
  - intros E. injection E as <-. apply (R_refl _ _ noRestart_OK).
  - intros E. apply bind_Some in E. destruct E as (x & E1 & E2).
    inversion Hc as [|c0 l0 Hc1 Hc2]; subst.
    apply (R_trans _ _ noRestart_OK s x s'); [|apply IH; assumption].
    destruct c as [r v|fuel cycles]; cbn [call noTrigger] in *.
    + apply (handleSoundRegister_noRestart r v s Hc1), E1.
    + apply (updateSound_noRestart fuel cycles), E1.
Qed.

(** *** The frequency of channel 0 after the sweep pass *)

Lemma freqR_OK : RelOK freqR never.
Proof.
  apply RelOK_never.
  - unfold freqR. tauto.
  - unfold freqR. intros s1 s2 s3 (A1 & A2 & A3) (B1 & B2 & B3).
    repeat split; congruence.
  - intros s s' H. destruct (synchronizeSound_keeps s s' H) as (He & _ & Hp).
    unfold freqR, at_chanFreq. rewrite He.
    rewrite (f_equal chanRealFreq Hp : chanRealFreq (sharedPtr s') = _).
    repeat split.
Qed.

Ltac freq_step :=
  unfold_helpers; unfold freqR, sharedPtr; split_state;
  rsimpl_all; repeat split; try reflexivity; try congruence.

Lemma envFire_freqR i s : Ro freqR never s (envFire i s).
Proof.
  cbv beta delta [envFire].
  rel_exec freqR_OK freq_step.
Qed.

Lemma notifyChanged_freqR c s : Ro freqR never s (notifyChanged (c, s)).
Proof.
  cbv beta iota delta [notifyChanged].
  rel_exec freqR_OK ltac:(advance_step freq_step).
Qed.

Lemma laterPasses_freqR fuel cycles c s cs s' :
  envelopePass fuel cycles (c, s) = Some cs ->
  notifyChanged (lengthPass cycles cs) = Some s' -> freqR s s'.
Proof.
  apply (laterPasses_R freqR).
  - apply (R_refl _ _ freqR_OK).
  - apply (R_trans _ _ freqR_OK).
  - intros i v x. freq_step.
  - intros v x. freq_step.
  - intros i x x' _ _ E. apply (envFire_freqR i x), E.
  - intros cy i c0 x _. advance_step freq_step.
  - intros c0 x x' E. apply (notifyChanged_freqR c0 x), E.
Qed.

(** *** Sweep firings *)

Lemma bitset_land_lnot (c m : Z) : bitset (Z.land c (Z.lnot m)) m = false.
Proof.
  unfold bitset. rewrite <- Z.land_assoc, (Z.land_comm (Z.lnot m) m).
  rewrite Z.land_lnot_diag, Z.land_0_r. reflexivity.
Qed.

Lemma sweepFire_spec (s : State) :
  at_chanFreq 0 (sweepFire s) = sweepNext s /\
  (sweepNext s > 0x7FF ->
   chanOnBit 0 (sweepFire s) = false /\
   chanOn (sharedPtr (sweepFire s)) = Z.land (chanOn (sharedPtr s)) (Z.lnot CHAN_1) /\
   clearedChannels (gameboy (sweepFire s)) = clearedChannels (gameboy s) ++ [CHAN_1]) /\
  (sweepNext s <= 0x7FF ->
   get4 0 (chanRealFreq (sharedPtr (sweepFire s)))
   = imul (idiv 131072 (isub 2048 (sweepNext s))) 8 /\
   chanOn (sharedPtr (sweepFire s)) = chanOn (sharedPtr s) /\
   clearedChannels (gameboy (sweepFire s)) = clearedChannels (gameboy s)).
Proof.
  unfold chanOnBit. change (Z.shiftl 1 0) with 1.
  cbv beta zeta delta [sweepFire sweepNext refreshSoundFreq].
  unfold asgp_chanOn, asgp_chanRealFreq, upd_sharedPtr, sharedPtr.
  rsimpl.
  set (f := iadd _ _).
  destruct (Z.gtb_spec f 2047) as [G|G].
  - destruct (muted (eng s)) eqn:Hm; repeat (progress (rsimpl; rewrite ?Hm)).
    all: split; [reflexivity|]; split; [|intros; lia].
    all: intros _; split; [apply (bitset_land_lnot _ 1)|]; split; reflexivity.
  - destruct (muted (eng s)) eqn:Hm; repeat (progress (rsimpl; rewrite ?Hm)).
    all: split; [reflexivity|]; split; [intros; lia|].
    all: intros _; repeat split.
Qed.

Lemma sweepLoop_firings fuel : forall c s c' s',
  sweepLoop fuel c s = Some (c', s') ->
  exists n, (n <= fuel)%nat /\
    s' = Nat.iter n sweepFire s /\
    (forall k, (k < n)%nat -> chan1SweepCounter (eng (Nat.iter k sweepFire s)) <= 0) /\
    0 < chan1SweepCounter (eng s') /\
    c' = (c || negb (Nat.eqb n 0)).
Proof.
  induction fuel as [|fuel IH]; intros c s c' s'; cbn [sweepLoop].
  - destruct (Z.leb_spec (chan1SweepCounter (eng s)) 0) as [L|L]; [discriminate|].
    intros E. injection E as <- <-. exists 0%nat.
    split; [lia|]. split; [reflexivity|]. split; [intros k Hk; lia|].
    split; [exact L|]. cbn. rewrite orb_false_r. reflexivity.
  - destruct (Z.leb_spec (chan1SweepCounter (eng s)) 0) as [L|L].
    + intros E. destruct (IH _ _ _ _ E) as (n & Hn & Hs & Hk & Hc & Hch).
      exists (S n). split; [lia|]. split; [rewrite Nat.iter_succ_r; exact Hs|].
      split; [|split; [exact Hc|rewrite Hch; cbn; rewrite orb_true_r; reflexivity]].
      intros [|k] Hlt; [exact L|].
      rewrite Nat.iter_succ_r. apply Hk. lia.
    + intros E. injection E as <- <-. exists 0%nat.
      split; [lia|]. split; [reflexivity|]. split; [intros k Hk; lia|].
      split; [exact L|]. cbn. rewrite orb_false_r. reflexivity.
Qed.

Lemma iter_sweepFire_noRestart (n : nat) (s : State) :
  noRestart s (Nat.iter n sweepFire s).
Proof.
  induction n as [|n IH].
  - apply (R_refl _ _ noRestart_OK).
  - change (Nat.iter (S n) sweepFire s) with (sweepFire (Nat.iter n sweepFire s)).
    apply (R_trans _ _ noRestart_OK _ _ _ IH).
    generalize (Nat.iter n sweepFire s). clear IH n. intros x.
    advance_step restart_step.
Qed.

Lemma sweepEnd_noRestart (s : State) : noRestart s (sweepEnd s).
Proof. unfold sweepEnd. restart_step. Qed.

Lemma sweepEnd_freqR (s : State) : freqR s (sweepEnd s).
Proof. unfold sweepEnd. freq_step. Qed.

(** The sweep pass is entered only with the on-bit set and a sweep time. *)
Lemma sweepPass_skip fuel cycles c s :
  chanOnBit 0 s && truthy (chan1SweepTime (eng s)) = false ->
  sweepPass fuel cycles c s = Some (c, s).
Proof.
  unfold chanOnBit, sweepPass. change (Z.shiftl 1 0) with CHAN_1.
  intros ->. reflexivity.
Qed.

Lemma sweepPass_firings fuel cycles c s c' s' :
  chanOnBit 0 s = true -> truthy (chan1SweepTime (eng s)) = true ->
  sweepPass fuel cycles c s = Some (c', s') ->
  exists n, (n <= fuel)%nat /\
    s' = sweepEnd (firing n cycles s) /\
    (forall k, (k < n)%nat -> chan1SweepCounter (eng (firing k cycles s)) <= 0) /\
    0 < chan1SweepCounter (eng (firing n cycles s)).
Proof.
  unfold chanOnBit, sweepPass. change (Z.shiftl 1 0) with CHAN_1.
  intros -> ->. cbn [andb]. cbv zeta. fold (sweepStart cycles s).
  intros E. apply bind_Some in E. destruct E as ([c1 s1] & E1 & E2).
  cbn [fst snd] in E2. injection E2 as <- <-.
  destruct (sweepLoop_firings _ _ _ _ _ E1) as (n & Hn & Hs & Hk & Hc & _).
  exists n. unfold firing. rewrite <- Hs.
  split; [exact Hn|]. split; [reflexivity|]. split; [exact Hk|exact Hc].
Qed.

Lemma laterPasses_noRestart fuel cycles c s cs s' :
  envelopePass fuel cycles (c, s) = Some cs ->
  notifyChanged (lengthPass cycles cs) = Some s' -> noRestart s s'.
Proof.
  apply (laterPasses_R noRestart).
  - apply (R_refl _ _ noRestart_OK).
  - apply (R_trans _ _ noRestart_OK).
  - intros i v x. restart_step.
  - intros v x. restart_step.
  - intros i x x' _ _ E. apply (envFire_noRestart i x), E.
  - intros cy i c0 x _. advance_step restart_step.
  - intros c0 x x' E. apply (notifyChanged_noRestart c0 x), E.
Qed.

Lemma firing_noRestart (k n : nat) (cycles : Z) (s : State) :
  (k <= n)%nat -> noRestart (firing k cycles s) (firing n cycles s).
Proof.
  intros H. unfold firing.
  replace n with ((n - k) + k)%nat by lia.
  rewrite Nat.iter_add. apply iter_sweepFire_noRestart.
Qed.

(** *** The envelope keeps the volume in range *)

Lemma shiftr4_range (v : Z) : 0 <= v < 256 -> 0 <= Z.shiftr v 4 <= 15.
Proof.
  intros H. rewrite Z.shiftr_div_pow2 by lia. change (2 ^ 4) with 16.
  split.
  - apply Z.div_pos; lia.
  - apply Z.lt_succ_r. apply Z.div_lt_upper_bound; lia.
Qed.

Lemma clampVol_range (v : Z) : 0 <= clampVol v <= 15.
Proof.
  unfold clampVol.
  destruct (Z.ltb_spec v 0); [lia|].
  destruct (Z.gtb_spec v 15); lia.
Qed.

Lemma volR_OK : RelOK volR never.
Proof.
  apply RelOK_never.
  - unfold volR. tauto.
  - unfold volR. tauto.
  - intros s s' H. destruct (synchronizeSound_keeps s s' H) as (He & _).
    unfold volR, vol_ok, at_chanVol. rewrite He. tauto.
Qed.

Ltac vol_range :=
  lazymatch goal with
  | |- 0 <= Z.shiftr ?v 4 <= 15 =>
      apply shiftr4_range;
      first [ apply u8_range
            | match goal with Hv : v = u8 _ |- _ => rewrite Hv; apply u8_range end ]
  | |- _ => first [ assumption | lia ]
  end.

Ltac vol_step :=
  unfold_helpers; unfold readIO; split_state;
  unfold volR, vol_ok; rsimpl_all;
  intros (V0 & V1 & V3);
  (split; [|split]); vol_range.

Lemma handleSoundRegister_volR ioReg val s :
  Ro volR never s (handleSoundRegister ioReg val s).
Proof.
  cbv beta delta [handleSoundRegister].
  rel_exec volR_OK vol_step.
  by_register (u8 ioReg).
  all: rel_exec volR_OK vol_step.
Qed.

Lemma refreshSoundVolume_eng i b s s' :
  refreshSoundVolume i b s = Some s' -> eng s' = eng s.
Proof.
  unfold refreshSoundVolume.
  destruct (_ || _); [intros E; injection E as <-; reflexivity|].
  cbv zeta. destruct (_ && _).
  - intros E. destruct (synchronizeSound_keeps _ _ E) as (He & _).
    rewrite He. unfold_helpers. split_state; reflexivity.
  - intros E. injection E as <-. unfold_helpers. split_state; reflexivity.
Qed.

(** One firing of the envelope of channel [i]. *)
Lemma envFire_vol i s s' :
  0 <= i < 4 ->
  envFire i s = Some s' ->
  chanVol (eng s')
  = set4 i (clampVol (iadd (at_chanVol i s) (at_chanEnvDir i s))) (chanVol (eng s)).
Proof.
  intros Hi E. cbv beta zeta delta [envFire] in E.
  apply refreshSoundVolume_eng in E. rewrite E. clear E.
  unfold clampVol.
  assert (C : i = 0 \/ i = 1 \/ i = 2 \/ i = 3) by lia.
  destruct C as [-> | [-> | [-> | ->]]].
  all: split_state; try reflexivity.
  all: match goal with H : (0 >? 15) = true |- _ => discriminate H end.
Qed.

Lemma get4_set4_same {A} (i : Z) (v : A) (a : Arr4 A) :
  0 <= i < 4 -> get4 i (set4 i v a) = v.
Proof.
  intros Hi. assert (C : i = 0 \/ i = 1 \/ i = 2 \/ i = 3) by lia.
  destruct C as [-> | [-> | [-> | ->]]]; reflexivity.
Qed.

Lemma envFire_volR i s s' :
  0 <= i < 4 -> envFire i s = Some s' -> volR s s'.
Proof.
  intros Hi E. pose proof (envFire_vol i s s' Hi E) as Hv.
  pose proof (clampVol_range (iadd (at_chanVol i s) (at_chanEnvDir i s))) as Hc.
  unfold volR, vol_ok, at_chanVol in *. rewrite Hv.
  assert (C : i = 0 \/ i = 1 \/ i = 2 \/ i = 3) by lia.
  destruct C as [-> | [-> | [-> | ->]]]; cbn [get4 set4 a0 a1 a2 a3] in *;
    intros (V0 & V1 & V3); repeat split; lia.
Qed.

Lemma notifyChanged_volR c s : Ro volR never s (notifyChanged (c, s)).
Proof.
  cbv beta iota delta [notifyChanged].
  rel_exec volR_OK ltac:(advance_step vol_step).
Qed.

Lemma updateSound_volR fuel cycles s s' :
  updateSound fuel cycles s = Some s' -> volR s s'.
Proof.
  apply (updateSound_R volR).
  - apply (R_refl _ _ volR_OK).
  - apply (R_trans _ _ volR_OK).
  - intros v x. vol_step.
  - intros i v x. vol_step.
  - intros v x. vol_step.
  - intros x. advance_step vol_step.
  - intros i x x' Hi _ E. exact (envFire_volR i x x' Hi E).
  - intros cy i c x _. advance_step vol_step.
  - intros c x x' E. apply (notifyChanged_volR c x), E.
Qed.

Lemma run_volR (calls : list Call) : forall s s',
  run calls s = Some s' -> volR s s'.
Proof.
  induction calls as [|c calls IH]; intros s s'; cbn [run].
  - intros E. injection E as <-. apply (R_refl _ _ volR_OK).
  - intros E. apply bind_Some in E. destruct E as (x & E1 & E2).
    apply (R_trans _ _ volR_OK s x s'); [|apply IH; assumption].
    destruct c as [r v|fuel cycles]; cbn [call] in *.
    + apply (handleSoundRegister_volR r v s), E1.
    + apply (updateSound_volR fuel cycles), E1.
Qed.

Ltac vol_step' := unfold unmute; vol_step.

Lemma refreshLoop_volR (n : nat) : forall i s,
  Ro volR never s (refreshLoop n i s).
Proof.
  induction n as [|n IH]; intros i s; cbn [refreshLoop].
  - apply (Ro_Some _ _). apply (R_refl _ _ volR_OK).
  - apply (Ro_bind _ _ volR_OK); [|intros x; apply IH].
    destruct (isTriggerReg i); apply handleSoundRegister_volR.
Qed.

Lemma retrigger_volR s : Ro volR never s (retrigger s).
Proof.
  cbv beta delta [retrigger].
  rel_exec volR_OK vol_step.
  all: apply handleSoundRegister_volR.
Qed.

Lemma refresh_volR s : Ro volR never s (refresh s).
Proof.
  cbv beta delta [refresh].
  rel_exec volR_OK vol_step'.
  - apply handleSoundRegister_volR.
  - apply refreshLoop_volR.
  - apply retrigger_volR.
Qed.

Lemma init_vol_ok s s' : init s = Some s' -> vol_ok s'.
Proof.
  cbv beta zeta delta [init]. intros E.
  apply (refresh_volR _) in E. apply E.
  unfold vol_ok, at_chanVol, fill4. rsimpl. lia.
Qed.

(** *** The length counters *)

Lemma bitset_land_lnot_other (c a b : Z) :
  Z.land a b = 0 -> bitset (Z.land c (Z.lnot a)) b = bitset c b.
Proof.
  intros H. unfold bitset. f_equal. f_equal.
  apply Z.bits_inj'. intros n Hn.
  rewrite !Z.land_spec, Z.lnot_spec by exact Hn.
  assert (F : Z.testbit (Z.land a b) n = false) by (rewrite H; apply Z.bits_0).
  rewrite Z.land_spec in F.
  destruct (Z.testbit c n), (Z.testbit a n), (Z.testbit b n);
    try reflexivity; discriminate F.
Qed.

Lemma count_occ_snoc_same (l : list Z) (x : Z) :
  count_occ Z.eq_dec (l ++ [x]) x = S (count_occ Z.eq_dec l x).
Proof.
  rewrite count_occ_app. cbn [count_occ].
  destruct (Z.eq_dec x x) as [_|N]; [lia|contradiction].
Qed.

Lemma count_occ_snoc_other (l : list Z) (x y : Z) :
  y <> x -> count_occ Z.eq_dec (l ++ [y]) x = count_occ Z.eq_dec l x.
Proof.
  intros H. rewrite count_occ_app. cbn [count_occ].
  destruct (Z.eq_dec y x) as [E|_]; [contradiction|lia].
Qed.

Lemma keepR_refl i s : keepR i s s.
Proof. unfold keepR. tauto. Qed.

Lemma keepR_trans i s1 s2 s3 : keepR i s1 s2 -> keepR i s2 s3 -> keepR i s1 s3.
Proof.
  unfold keepR. intros (A1 & A2 & A3 & A4 & A5) (B1 & B2 & B3 & B4 & B5).
  repeat split; congruence.
Qed.

Lemma keepR_OK i : RelOK (keepR i) never.
Proof.
  apply RelOK_never.
  - apply keepR_refl.
  - apply keepR_trans.
  - intros s s' H. destruct (synchronizeSound_keeps s s' H) as (He & Hg & Hp).
    unfold keepR, chanOnBit, deactivations, at_chanUseLen, at_chanLenCounter.
    rewrite He, Hg.
    rewrite (f_equal chanOn Hp : chanOn (sharedPtr s') = _).
    repeat split.
Qed.

Ltac keep_side :=
  first [ reflexivity
        | congruence
        | apply bitset_land_lnot_other; reflexivity
        | apply count_occ_snoc_other; intros F; vm_compute in F; discriminate F ].

(** A branch on a comparison of two literals that evaluates the other
    way. *)
Ltac closed_contra :=
  match goal with
  | H : (?a =? ?b) = _ |- _ => vm_compute in H; discriminate H
  end.

Ltac keep_step :=
  unfold_helpers; unfold keepR, chanOnBit, deactivations, sharedPtr; split_state;
  try solve [closed_contra];
  rsimpl_all; repeat split; keep_side.

Ltac by_channel i Hi :=
  let C := fresh "C" in
  assert (C : i = 0 \/ i = 1 \/ i = 2 \/ i = 3) by lia;
  clear Hi; destruct C as [-> | [-> | [-> | ->]]].

Lemma envFire_keepR i j s : Ro (keepR i) never s (envFire j s).
Proof.
  cbv beta delta [envFire].
  rel_exec (keepR_OK i) keep_step.
Qed.

Lemma notifyChanged_keepR i c s : Ro (keepR i) never s (notifyChanged (c, s)).
Proof.
  cbv beta iota delta [notifyChanged].
  rel_exec (keepR_OK i) ltac:(advance_step keep_step).
Qed.

Lemma envelopePass_keepR i fuel cycles c s c' s' :
  envelopePass fuel cycles (c, s) = Some (c', s') -> keepR i s s'.
Proof.
  apply (envelopePass_R (keepR i)).
  - apply keepR_refl.
  - apply keepR_trans.
  - intros j v x. keep_step.
  - intros v x. keep_step.
  - intros j x x' _ _ E. apply (envFire_keepR i j x), E.
Qed.

(** The sweep concerns channel 0 only. *)
Lemma sweepPass_keepR i fuel cycles c s c' s' :
  0 < i < 4 ->
  sweepPass fuel cycles c s = Some (c', s') -> keepR i s s'.
Proof.
  intros Hi. apply (sweepPass_R (keepR i)).
  - apply keepR_refl.
  - apply keepR_trans.
  - intros v x. keep_step.
  - intros v x. keep_step.
  - intros x. assert (C : i = 1 \/ i = 2 \/ i = 3) by lia. clear Hi.
    destruct C as [-> | [-> | ->]]; advance_step keep_step.
Qed.

(** A step of the length pass for another channel. *)
Lemma lengthStep_keepR i j cycles c s :
  0 <= i < 4 -> 0 <= j < 4 -> i <> j ->
  keepR i s (snd (lengthStep cycles j (c, s))).
Proof.
  intros Hi Hj Hij.
  by_channel i Hi; by_channel j Hj; try contradiction.
  all: advance_step keep_step.
Qed.

Lemma lengthStep_changed j cycles p :
  fst p = true -> fst (lengthStep cycles j p) = true.
Proof.
  destruct p as [c s]. cbn [fst]. intros ->.
  cbv beta iota zeta delta [lengthStep].
  destruct (_ && _); [|reflexivity].
  destruct (_ <=? _); reflexivity.
Qed.

(** The step of a channel whose on-bit is clear. *)
Lemma lengthStep_off i cycles c s :
  chanOnBit i s = false -> lengthStep cycles i (c, s) = (c, s).
Proof.
  unfold chanOnBit. cbv beta iota delta [lengthStep]. intros ->. reflexivity.
Qed.

(** The step of a channel whose length expires. *)
Lemma lengthStep_expire i cycles c s :
  0 <= i < 4 ->
  chanOnBit i s = true ->
  truthy (at_chanUseLen i s) = true ->
  isub (at_chanLenCounter i s) cycles <= 0 ->
  fst (lengthStep cycles i (c, s)) = true /\
  muted (eng (snd (lengthStep cycles i (c, s)))) = muted (eng s) /\
  chanOnBit i (snd (lengthStep cycles i (c, s))) = false /\
  at_chanLenCounter i (snd (lengthStep cycles i (c, s)))
  = isub (at_chanLenCounter i s) cycles /\
  deactivations i (snd (lengthStep cycles i (c, s))) = S (deactivations i s).
Proof.
  intros Hi Hon Hlen Hexp. apply Z.leb_le in Hexp.
  unfold chanOnBit in Hon.
  cbv beta iota zeta delta [lengthStep]. rewrite Hon, Hlen. cbn [andb].
  by_channel i Hi.
  all: unfold chanOnBit, deactivations, asgp_chanOn, upd_sharedPtr, sharedPtr in *.
  all: rsimpl; rsimpl in Hexp; rewrite Hexp; cbn [Z.eqb Pos.eqb fst snd].
  all: destruct (muted (eng s)) eqn:Hm; repeat (progress (rsimpl; rewrite ?Hm)).
  all: repeat split;
    first [ reflexivity | apply bitset_land_lnot | apply count_occ_snoc_same ].
Qed.

Lemma lengthStep_quiet i j cycles p :
  0 <= i < 4 -> 0 <= j < 4 ->
  chanOnBit i (snd p) = false ->
  keepR i (snd p) (snd (lengthStep cycles j p)).
Proof.
  intros Hi Hj Hoff. destruct p as [c s]. cbn [snd] in *.
  destruct (Z.eq_dec i j) as [<-|N].
  - rewrite (lengthStep_off i cycles c s Hoff). apply keepR_refl.
  - apply lengthStep_keepR; assumption.
Qed.

Lemma lengthPass_quiet i cycles c s :
  0 <= i < 4 ->
  chanOnBit i s = false ->
  keepR i s (snd (lengthPass cycles (c, s))).
Proof.
  intros Hi Hoff. unfold lengthPass.
  pose proof (lengthStep_quiet i 0 cycles (c, s) Hi ltac:(lia) Hoff) as K0.
  cbn [snd] in K0.
  assert (O0 : chanOnBit i (snd (lengthStep cycles 0 (c, s))) = false)
    by (destruct K0 as (_ & -> & _); exact Hoff).
  pose proof (lengthStep_quiet i 1 cycles _ Hi ltac:(lia) O0) as K1.
  assert (O1 : chanOnBit i (snd (lengthStep cycles 1 (lengthStep cycles 0 (c, s))))
               = false)
    by (destruct K1 as (_ & -> & _); exact O0).
  pose proof (lengthStep_quiet i 2 cycles _ Hi ltac:(lia) O1) as K2.
  assert (O2 : chanOnBit i (snd (lengthStep cycles 2 (lengthStep cycles 1
                 (lengthStep cycles 0 (c, s))))) = false)
    by (destruct K2 as (_ & -> & _); exact O1).
  pose proof (lengthStep_quiet i 3 cycles _ Hi ltac:(lia) O2) as K3.
  exact (keepR_trans _ _ _ _ (keepR_trans _ _ _ _ (keepR_trans _ _ _ _ K0 K1) K2) K3).
Qed.

(** The steps before the one of channel [i] leave it armed. *)
Lemma lengthStep_before i j cycles s p :
  0 <= i < 4 -> 0 <= j < 4 -> i <> j ->
  keepR i s (snd p) -> keepR i s (snd (lengthStep cycles j p)).
Proof.
  intros Hi Hj N K. destruct p as [c x]. cbn [snd] in K.
  apply (keepR_trans _ _ _ _ K). apply lengthStep_keepR; assumption.
Qed.

(** The step of channel [i] itself. *)
Lemma lengthStep_fire i cycles s p :
  0 <= i < 4 ->
  chanOnBit i s = true ->
  truthy (at_chanUseLen i s) = true ->
  isub (at_chanLenCounter i s) cycles <= 0 ->
  keepR i s (snd p) -> expiredAt i cycles s (lengthStep cycles i p).
Proof.
  intros Hi Hon Hlen Hexp K. destruct p as [c x]. cbn [snd] in K.
  destruct K as (K1 & K2 & K3 & K4 & K5).
  destruct (lengthStep_expire i cycles c x Hi) as (E1 & E2 & E3 & E4 & E5);
    try congruence.
  unfold expiredAt. repeat split; congruence.
Qed.

(** The steps after it. *)
Lemma lengthStep_after i j cycles s p :
  0 <= i < 4 -> 0 <= j < 4 -> i <> j ->
  expiredAt i cycles s p -> expiredAt i cycles s (lengthStep cycles j p).
Proof.
  intros Hi Hj N (E1 & E2 & E3 & E4 & E5).
  pose proof (lengthStep_changed j cycles p E1) as C.
  destruct p as [c x]. cbn [fst snd] in *.
  destruct (lengthStep_keepR i j cycles c x Hi Hj N) as (K1 & K2 & K3 & K4 & K5).
  unfold expiredAt. repeat split; congruence.
Qed.

Lemma lengthPass_expire i cycles c s :
  0 <= i < 4 ->
  chanOnBit i s = true ->
  truthy (at_chanUseLen i s) = true ->
  isub (at_chanLenCounter i s) cycles <= 0 ->
  expiredAt i cycles s (lengthPass cycles (c, s)).
Proof.
  intros Hi Hon Hlen Hexp. unfold lengthPass.
  pose proof (keepR_refl i s : keepR i s (snd (c, s))) as K.
  assert (C : i = 0 \/ i = 1 \/ i = 2 \/ i = 3) by lia.
  destruct C as [E | [E | [E | E]]].
  - apply lengthStep_after; try lia. apply lengthStep_after; try lia.
    apply lengthStep_after; try lia.
    rewrite E in *. apply lengthStep_fire; assumption.
  - apply lengthStep_after; try lia. apply lengthStep_after; try lia.
    rewrite E in *. apply lengthStep_fire; try assumption.
    apply lengthStep_before; try lia. exact K.
  - apply lengthStep_after; try lia.
    rewrite E in *. apply lengthStep_fire; try assumption.
    apply lengthStep_before; try lia. apply lengthStep_before; try lia. exact K.
  - rewrite E in *. apply lengthStep_fire; try assumption.
    apply lengthStep_before; try lia. apply lengthStep_before; try lia.
    apply lengthStep_before; try lia. exact K.
Qed.

(** A firing that leaves the on-bit of channel 0 set was no overflow. *)
Lemma sweepFire_keep0 (s : State) :
  chanOnBit 0 (sweepFire s) = true -> keepR 0 s (sweepFire s).
Proof.
  intros Hon. destruct (sweepFire_spec s) as (_ & Ho & Hn).
  destruct (Z_gt_le_dec (sweepNext s) 0x7FF) as [G|L].
  - destruct (Ho G) as (F & _). rewrite F in Hon. discriminate Hon.
  - destruct (Hn L) as (_ & Hc & Hg).
    destruct (iter_sweepFire_noRestart 1 s) as (Hm & _). cbn [Nat.iter] in Hm.
    unfold keepR, chanOnBit, deactivations. rewrite Hc, Hg.
    split; [exact Hm|]. split; [reflexivity|].
    split; [|split; [|reflexivity]].
    all: cbv beta zeta delta [sweepFire refreshSoundFreq];
      unfold_helpers; split_state; reflexivity.
Qed.

Lemma iter_sweepFire_keep0 (n : nat) (s : State) :
  chanOnBit 0 (Nat.iter n sweepFire s) = true ->
  keepR 0 s (Nat.iter n sweepFire s).
Proof.
  induction n as [|n IH].
  - intros _. apply keepR_refl.
  - change (Nat.iter (S n) sweepFire s) with (sweepFire (Nat.iter n sweepFire s)).
    intros Hon. pose proof (sweepFire_keep0 _ Hon) as K.
    apply (keepR_trans _ _ _ _ (IH ltac:(destruct K as (_ & <- & _); exact Hon)) K).
Qed.

(** The sweep pass leaves channel [i] alone when [i] is not channel 0, and
    when it ends with the on-bit of channel 0 set. *)
Lemma sweepPass_keepR_or_on i fuel cycles s c1 s1 :
  0 <= i < 4 ->
  (i = 0 -> chanOnBit 0 s1 = true) ->
  sweepPass fuel cycles false s = Some (c1, s1) -> keepR i s s1.
Proof.
  intros Hi H0 E. destruct (Z.eq_dec i 0) as [->|N].
  - specialize (H0 eq_refl).
    destruct (chanOnBit 0 s && truthy (chan1SweepTime (eng s))) eqn:Ec.
    + apply andb_true_iff in Ec. destruct Ec as (Hon & Ht).
      destruct (sweepPass_firings _ _ _ _ _ _ Hon Ht E) as (n & _ & Hs & _).
      subst s1.
      assert (Ke : keepR 0 (firing n cycles s) (sweepEnd (firing n cycles s)))
        by (unfold sweepEnd; keep_step).
      assert (Ks : keepR 0 s (sweepStart cycles s))
        by (unfold sweepStart; keep_step).
      apply (keepR_trans _ _ _ _ Ks). apply (keepR_trans _ _ (firing n cycles s)); [|exact Ke].
      apply iter_sweepFire_keep0. fold (firing n cycles s).
      destruct Ke as (_ & <- & _). exact H0.
    + rewrite (sweepPass_skip _ _ _ _ Ec) in E.
      injection E as <- <-. apply keepR_refl.
  - apply (sweepPass_keepR i fuel cycles false s c1 s1); [lia|exact E].
Qed.

(** The sweep pass leaves channel [i] alone when [i] is not channel 0, and
    when it is skipped. *)
Lemma sweepPass_keepR_or_skip i fuel cycles s c1 s1 :
  0 <= i < 4 ->
  (i = 0 -> chanOnBit 0 s && truthy (chan1SweepTime (eng s)) = false) ->
  sweepPass fuel cycles false s = Some (c1, s1) -> keepR i s s1.
Proof.
  intros Hi H0 E. destruct (Z.eq_dec i 0) as [->|N].
  - rewrite (sweepPass_skip _ _ _ _ (H0 eq_refl)) in E.
    injection E as <- <-. apply keepR_refl.
  - apply (sweepPass_keepR i fuel cycles false s c1 s1); [lia|exact E].
Qed.

Lemma updateSound_expire i fuel cycles s s' :
  0 <= i < 4 ->
  updateSound fuel cycles s = Some s' ->
  soundDisabled s = false ->
  chanOnBit i s = true ->
  truthy (at_chanUseLen i s) = true ->
  isub (at_chanLenCounter i s) cycles <= 0 ->
  (i = 0 -> forall c x, sweepPass fuel cycles false s = Some (c, x) ->
            chanOnBit 0 x = true) ->
  chanOnBit i s' = false /\
  at_chanLenCounter i s' = isub (at_chanLenCounter i s) cycles /\
  deactivations i s' = S (deactivations i s).
Proof.
  intros Hi H Hd Hon Hlen Hexp H0.
  unfold updateSound in H. rewrite Hd in H.
  apply bind_Some in H. destruct H as ([c1 s1] & E1 & H).
  apply bind_Some in H. destruct H as ([c2 s2] & E2 & E3).
  assert (K1 : keepR i s s1).
  { apply (sweepPass_keepR_or_on i fuel cycles s c1 s1 Hi); [|exact E1].
    intros Ei. exact (H0 Ei c1 s1 E1). }
  pose proof (envelopePass_keepR i _ _ _ _ _ _ E2) as K2.
  destruct (keepR_trans _ _ _ _ K1 K2) as (A1 & A2 & A3 & A4 & A5).
  destruct (lengthPass_expire i cycles c2 s2 Hi) as (X1 & X2 & X3 & X4 & X5);
    try congruence.
  destruct (lengthPass cycles (c2, s2)) as [c3 s3]. cbn [fst snd] in *.
  destruct (notifyChanged_keepR i c3 s3) as (_ & N).
  destruct (N s' E3) as (N1 & N2 & N3 & N4 & N5).
  repeat split; congruence.
Qed.

Lemma updateSound_quiet i fuel cycles s s' :
  0 <= i < 4 ->
  updateSound fuel cycles s = Some s' ->
  chanOnBit i s = false ->
  keepR i s s'.
Proof.
  intros Hi H Hoff. unfold updateSound in H.
  destruct (soundDisabled s); [injection H as <-; apply keepR_refl|].
  apply bind_Some in H. destruct H as ([c1 s1] & E1 & H).
  apply bind_Some in H. destruct H as ([c2 s2] & E2 & E3).
  assert (K1 : keepR i s s1).
  { apply (sweepPass_keepR_or_skip i fuel cycles s c1 s1 Hi); [|exact E1].
    intros Ei. rewrite Ei in Hoff. rewrite Hoff. reflexivity. }
  pose proof (envelopePass_keepR i _ _ _ _ _ _ E2) as K2.
  pose proof (keepR_trans _ _ _ _ K1 K2) as K12.
  assert (O2 : chanOnBit i s2 = false)
    by (destruct K12 as (_ & -> & _); exact Hoff).
  pose proof (lengthPass_quiet i cycles c2 s2 Hi O2) as K3.
  destruct (lengthPass cycles (c2, s2)) as [c3 s3]. cbn [snd] in K3.
  destruct (notifyChanged_keepR i c3 s3) as (_ & N).
  exact (keepR_trans _ _ _ _ (keepR_trans _ _ _ _ K12 K3) (N s' E3)).
Qed.

(** Between two trigger writes a channel that is off stays off and is not
    signalled; advance calls do not touch its length counter. *)
Lemma run_quiet i (calls : list Call) : forall s s',
  0 <= i < 4 ->
  Forall noTrigger calls ->
  run calls s = Some s' ->
  chanOnBit i s = false ->
  chanOnBit i s' = false /\
  deactivations i s' = deactivations i s /\
  (Forall isAdvance calls -> at_chanLenCounter i s' = at_chanLenCounter i s).
Proof.
  induction calls as [|c calls IH]; intros s s' Hi Hc; cbn [run].
  - intros E Hoff. injection E as <-. auto.
  - intros E Hoff. apply bind_Some in E. destruct E as (x & E1 & E2).
    inversion Hc as [|c0 l0 Hc1 Hc2]; subst.
    assert (Hx : chanOnBit i x = false /\ deactivations i x = deactivations i s /\
                 (isAdvance c -> at_chanLenCounter i x = at_chanLenCounter i s)).
    { destruct c as [r v|fuel cycles]; cbn [call noTrigger isAdvance] in *.
      - split; [|split; [|contradiction]].
        + apply (noRestart_bit i s x); [lia| |exact Hoff].
          apply (handleSoundRegister_noRestart r v s Hc1), E1.
        + destruct (handleSoundRegister_frame r v s) as (_ & F).
          destruct (F x E1) as (Fg & _). unfold deactivations. rewrite Fg.
          reflexivity.
      - destruct (updateSound_quiet i fuel cycles s x Hi E1 Hoff)
          as (_ & K2 & _ & K4 & K5).
        split; [congruence|]. split; [exact K5|]. intros _. exact K4. }
    destruct Hx as (X1 & X2 & X3).
    destruct (IH x s' Hi Hc2 E2 X1) as (Y1 & Y2 & Y3).
    split; [exact Y1|]. split; [congruence|].
    intros Ha. inversion Ha as [|c0 l0 Ha1 Ha2]; subst.
    rewrite (Y3 Ha2). apply X3, Ha1.
Qed.

(** ** The loops of [updateSound] end *)

Lemma sweepFire_counter (s : State) :
  chan1SweepCounter (eng (sweepFire s))
  = iadd (chan1SweepCounter (eng s))
         (iadd (sweepPeriod s) (chan1SweepCounter (eng s))) /\
  chan1SweepTime (eng (sweepFire s)) = chan1SweepTime (eng s).
Proof.
  cbv beta zeta delta [sweepFire refreshSoundFreq sweepPeriod].
  unfold_helpers. split_state; split; reflexivity.
Qed.

(** A firing takes the distance of the counter to [- period] to its
    double. *)
Lemma sweepLoop_returns fuel : forall c s,
  0 < sweepPeriod s < 2 ^ 30 ->
  - sweepPeriod s < chan1SweepCounter (eng s) ->
  sweepPeriod s
  < 2 ^ Z.of_nat fuel * (chan1SweepCounter (eng s) + sweepPeriod s) ->
  exists r, sweepLoop fuel c s = Some r.
Proof.
  induction fuel as [|fuel IH]; intros c s HK Hlo Hb; cbn [sweepLoop].
  - destruct (Z.leb_spec (chan1SweepCounter (eng s)) 0) as [L|L]; [|eauto].
    change (2 ^ Z.of_nat 0) with 1 in Hb. lia.
  - destruct (Z.leb_spec (chan1SweepCounter (eng s)) 0) as [L|L]; [|eauto].
    destruct (sweepFire_counter s) as (Ec & Et).
    assert (EK : sweepPeriod (sweepFire s) = sweepPeriod s)
      by (unfold sweepPeriod; rewrite Et; reflexivity).
    change (2 ^ 30) with 1073741824 in HK.
    assert (Ec' : chan1SweepCounter (eng (sweepFire s))
                  = 2 * chan1SweepCounter (eng s) + sweepPeriod s).
    { rewrite Ec. unfold iadd.
      rewrite (int32_id (sweepPeriod s + _)) by lia.
      rewrite int32_id by lia. lia. }
    apply IH; rewrite ?EK, ?Ec'.
    + exact HK.
    + lia.
    + rewrite Nat2Z.inj_succ, Z.pow_succ_r in Hb by lia.
      replace (2 * chan1SweepCounter (eng s) + sweepPeriod s + sweepPeriod s)
        with (2 * (chan1SweepCounter (eng s) + sweepPeriod s)) by lia.
      rewrite Z.mul_assoc, (Z.mul_comm (2 ^ Z.of_nat fuel) 2). exact Hb.
Qed.

Lemma sweepPass_returns fuel cycles c s :
  sweepBudget fuel cycles s -> exists r, sweepPass fuel cycles c s = Some r.
Proof.
  intros Hb. unfold sweepPass.
  destruct (bitset _ _); cbn [andb]; [|eauto].
  destruct (truthy (chan1SweepTime (eng s))) eqn:Ht; [|eauto].
  destruct (Hb Ht) as (HK & Hlo & Hf). cbv zeta.
  destruct (sweepLoop_returns fuel c (sweepStart cycles s) HK Hlo Hf) as (r & E).
  unfold sweepStart in E. rewrite E. cbn [bind]. eauto.
Qed.

Lemma deliveryR_OK : RelOK deliveryR best_effort.
Proof.
  constructor.
  - unfold deliveryR. tauto.
  - unfold deliveryR. intros s1 s2 s3 (A1 & A2) (B1 & B2). split; congruence.
  - unfold deliveryR, best_effort. intros s s' (A1 & A2) (B1 & B2).
    split; congruence.
  - intros s s' H. destruct (mode_frame_OK) as [_ _ _ Hs _].
    destruct (Hs s s' H) as (A1 & A2 & _). split; assumption.
  - intros s (Hm & Hh). rewrite (synchronizeSound_best_effort s Hm Hh).
    discriminate.
Qed.

Ltac delivery_step :=
  unfold_helpers; split_state;
  unfold deliveryR; rsimpl_all;
  repeat split; try reflexivity; try congruence.

Lemma envFire_deliveryR i s : Ro deliveryR best_effort s (envFire i s).
Proof.
  cbv beta delta [envFire].
  rel_exec deliveryR_OK delivery_step.
Qed.

Lemma notifyChanged_deliveryR c s :
  Ro deliveryR best_effort s (notifyChanged (c, s)).
Proof.
  cbv beta iota delta [notifyChanged].
  rel_exec deliveryR_OK ltac:(advance_step delivery_step).
Qed.

Lemma get4_set4_other {A} (i j : Z) (v : A) (a : Arr4 A) :
  0 <= j < 4 -> j <> i -> get4 j (set4 i v a) = get4 j a.
Proof.
  intros Hj N. unfold get4, set4.
  destruct i as [|[[|[]|]|[|[]|]|]|], j as [|[[|[]|]|[|[]|]|]|];
    try reflexivity; try contradiction; lia.
Qed.

(** What a firing of the envelope of channel [i] does to the timers. *)
Lemma envFire_timer i s s' :
  0 <= i < 4 ->
  envFire i s = Some s' ->
  chanEnvCounter (eng s')
  = set4 i (iadd (at_chanEnvCounter i s) (envPeriod i s)) (chanEnvCounter (eng s)) /\
  chanEnvSweep (eng s') = chanEnvSweep (eng s).
Proof.
  intros Hi E. cbv beta zeta delta [envFire] in E.
  apply refreshSoundVolume_eng in E. rewrite E. clear E.
  unfold envPeriod.
  by_channel i Hi.
  all: split_state; split; reflexivity.
Qed.

Lemma envFire_envOtherR i s s' :
  0 <= i < 4 -> envFire i s = Some s' -> envOtherR i s s'.
Proof.
  intros Hi E. destruct (envFire_timer i s s' Hi E) as (Ec & Es).
  split; [apply (envFire_deliveryR i s), E|]. split; [exact Es|].
  intros j Hj N. unfold at_chanEnvCounter. rewrite Ec.
  apply get4_set4_other; assumption.
Qed.

Lemma envLoop_returns fuel i :
  0 <= i < 4 ->
  forall c s,
    best_effort s ->
    0 < envPeriod i s ->
    -2147483648 <= at_chanEnvCounter i s ->
    - at_chanEnvCounter i s < envPeriod i s * Z.of_nat fuel ->
    exists r, envLoop fuel i c s = Some r.
Proof.
  intros Hi. induction fuel as [|fuel IH]; intros c s HB Hp Hlo Hb; cbn [envLoop].
  - destruct (Z.leb_spec (at_chanEnvCounter i s) 0) as [L|L]; [|eauto]. lia.
  - destruct (Z.leb_spec (at_chanEnvCounter i s) 0) as [L|L]; [|eauto].
    destruct (envFire_deliveryR i s) as (Hret & Hfr).
    destruct (envFire i s) as [s1|] eqn:E; [|exfalso; apply (Hret HB); reflexivity].
    cbn [bind].
    destruct (envFire_timer i s s1 Hi E) as (Ec & Es).
    assert (Ep : envPeriod i s1 = envPeriod i s)
      by (unfold envPeriod, at_chanEnvSweep; rewrite Es; reflexivity).
    assert (Ec' : at_chanEnvCounter i s1 = at_chanEnvCounter i s + envPeriod i s).
    { unfold at_chanEnvCounter at 1. rewrite Ec, get4_set4_same by exact Hi.
      unfold iadd. apply int32_id.
      pose proof (int32_range (Z.quot (imul (at_chanEnvSweep i s) clockSpeed) 64)) as Hr.
      fold (idiv (imul (at_chanEnvSweep i s) clockSpeed) 64) in Hr.
      fold (envPeriod i s) in Hr. lia. }
    apply IH; rewrite ?Ep, ?Ec'.
    + exact (R_T _ _ deliveryR_OK s s1 (Hfr s1 eq_refl) HB).
    + exact Hp.
    + lia.
    + lia.
Qed.

Lemma envStep_returns fuel cycles i c s :
  0 <= i < 4 ->
  best_effort s ->
  envBudget fuel cycles i s ->
  exists r, envStep fuel cycles i (c, s) = Some r.
Proof.
  intros Hi HB Hb. unfold envStep.
  destruct (negb (i =? 2) && _); [|eauto].
  destruct (truthy (at_chanEnvSweep i s)) eqn:Ht; [|eauto].
  destruct (Hb Ht) as (Hp & Hf). cbv zeta.
  set (s0 := asg_chanEnvCounter i (isub (at_chanEnvCounter i s) cycles) s).
  assert (Ec : at_chanEnvCounter i s0 = isub (at_chanEnvCounter i s) cycles)
    by (unfold s0, at_chanEnvCounter, asg_chanEnvCounter; rsimpl;
        apply get4_set4_same, Hi).
  destruct (envLoop_returns fuel i Hi c s0) as (r & E).
  - exact HB.
  - exact Hp.
  - rewrite Ec. apply int32_range.
  - rewrite Ec. exact Hf.
  - rewrite E. cbn [bind]. eauto.
Qed.

Ltac timers_step :=
  unfold_helpers; split_state;
  unfold timersR, deliveryR; rsimpl_all;
  repeat split; try reflexivity; try congruence.

Lemma sweepPass_timersR fuel cycles c s c' s' :
  sweepPass fuel cycles c s = Some (c', s') -> timersR s s'.
Proof.
  apply (sweepPass_R timersR).
  - unfold timersR, deliveryR. tauto.
  - unfold timersR, deliveryR.
    intros s1 s2 s3 ((A1 & A2) & A3 & A4) ((B1 & B2) & B3 & B4).
    repeat split; congruence.
  - intros v x. timers_step.
  - intros v x. timers_step.
  - intros x. advance_step timers_step.
Qed.

Lemma envOtherR_refl i s : envOtherR i s s.
Proof. unfold envOtherR, deliveryR. tauto. Qed.

Lemma envOtherR_trans i s1 s2 s3 :
  envOtherR i s1 s2 -> envOtherR i s2 s3 -> envOtherR i s1 s3.
Proof.
  unfold envOtherR, deliveryR.
  intros ((A1 & A2) & A3 & A4) ((B1 & B2) & B3 & B4).
  split; [split; congruence|]. split; [congruence|].
  intros j Hj N. rewrite (B4 j Hj N). apply A4; assumption.
Qed.

Lemma envStep_envOtherR fuel cycles i c s c' s' :
  0 <= i < 4 ->
  envStep fuel cycles i (c, s) = Some (c', s') -> envOtherR i s s'.
Proof.
  intros Hi. apply (envStep_R (envOtherR i)).
  - apply envOtherR_refl.
  - apply envOtherR_trans.
  - intros v x. unfold setSoundEventCycles. destruct (_ >? _);
      [|apply envOtherR_refl].
    unfold envOtherR, deliveryR. rsimpl. auto.
  - intros v x. unfold envOtherR, deliveryR, at_chanEnvCounter. rsimpl.
    split; [auto|]. split; [reflexivity|].
    intros j Hj N. apply get4_set4_other; assumption.
  - intros _ x x'. apply envFire_envOtherR, Hi.
Qed.

Lemma envBudget_transfer fuel cycles i s s' :
  chanEnvSweep (eng s') = chanEnvSweep (eng s) ->
  at_chanEnvCounter i s' = at_chanEnvCounter i s ->
  envBudget fuel cycles i s -> envBudget fuel cycles i s'.
Proof.
  unfold envBudget, envPeriod, at_chanEnvSweep. intros Es Ec.
  rewrite Es, Ec. tauto.
Qed.

Lemma lengthPass_deliveryR cycles c s :
  deliveryR s (snd (lengthPass cycles (c, s))).
Proof.
  apply (lengthPass_R deliveryR).
  - apply (R_trans _ _ deliveryR_OK).
  - intros cy i c0 x _. advance_step delivery_step.
Qed.

(** In best-effort mode [updateSound] returns when the iteration budget
    covers its loops. *)
Lemma updateSound_returns fuel cycles s :
  best_effort s ->
  sweepBudget fuel cycles s ->
  envBudget fuel cycles 0 s ->
  envBudget fuel cycles 1 s ->
  envBudget fuel cycles 3 s ->
  exists s', updateSound fuel cycles s = Some s'.
Proof.
  intros HB Hs H0 H1 H3. unfold updateSound.
  destruct (soundDisabled s); [eauto|].
  destruct (sweepPass_returns fuel cycles false s Hs) as ([c1 s1] & E1).
  rewrite E1. cbn [bind].
  destruct (sweepPass_timersR _ _ _ _ _ _ E1) as (D1 & S1 & C1).
  pose proof (R_T _ _ deliveryR_OK _ _ D1 HB) as HB1.
  unfold envelopePass.
  destruct (envStep_returns fuel cycles 0 c1 s1 ltac:(lia) HB1) as ([c2 s2] & E2).
  { apply (envBudget_transfer _ _ _ s); [exact S1| |exact H0].
    unfold at_chanEnvCounter. rewrite C1. reflexivity. }
  rewrite E2. cbn [bind].
  destruct (envStep_envOtherR _ _ 0 _ _ _ _ ltac:(lia) E2) as (D2 & S2 & C2).
  pose proof (R_T _ _ deliveryR_OK _ _ D2 HB1) as HB2.
  destruct (envStep_returns fuel cycles 1 c2 s2 ltac:(lia) HB2) as ([c3 s3] & E3).
  { apply (envBudget_transfer _ _ _ s); [congruence| |exact H1].
    rewrite (C2 1) by lia. unfold at_chanEnvCounter. rewrite C1. reflexivity. }
  rewrite E3. cbn [bind].
  destruct (envStep_envOtherR _ _ 1 _ _ _ _ ltac:(lia) E3) as (D3 & S3 & C3).
  pose proof (R_T _ _ deliveryR_OK _ _ D3 HB2) as HB3.
  change (envStep fuel cycles 2 (c3, s3)) with (Some (c3, s3)). cbn [bind].
  destruct (envStep_returns fuel cycles 3 c3 s3 ltac:(lia) HB3) as ([c4 s4] & E4).
  { apply (envBudget_transfer _ _ _ s); [congruence| |exact H3].
    rewrite (C3 3), (C2 3) by lia. unfold at_chanEnvCounter. rewrite C1.
    reflexivity. }
  rewrite E4. cbn [bind].
  destruct (envStep_envOtherR _ _ 3 _ _ _ _ ltac:(lia) E4) as (D4 & _).
  pose proof (R_T _ _ deliveryR_OK _ _ D4 HB3) as HB4.
  pose proof (lengthPass_deliveryR cycles c4 s4) as D5.
  destruct (lengthPass cycles (c4, s4)) as [c5 s5]. cbn [snd] in D5.
  pose proof (R_T _ _ deliveryR_OK _ _ D5 HB4) as HB5.
  destruct (notifyChanged_deliveryR c5 s5) as (Hret & _).
  destruct (notifyChanged (c5, s5)) as [s'|]; [eauto|].
  exfalso. apply (Hret HB5). reflexivity.
Qed.

(** ** The timing engine *)

(** C3. While the on-bit of channel 0 is set and the sweep time is not
    zero, [updateSound] runs the sweep loop; each firing replaces the
    frequency by [freq + (freq >> amount) * dir]; a result above 0x7FF
    clears the on-bit and signals [CHAN_1] to the CPU model, any other
    result is pushed to [chanRealFreq[0]] of the shared block.  An overflow
    at any firing of a call leaves the on-bit clear when the call returns,
    and no later call other than a trigger write sets it again.  The sweep
    pass returns whenever the iteration budget covers its loop. *)
Theorem sweep_overflow :
  (forall s : State,
     at_chanFreq 0 (sweepFire s) = sweepNext s /\
     (sweepNext s > 0x7FF ->
      chanOnBit 0 (sweepFire s) = false /\
      chanOn (sharedPtr (sweepFire s))
      = Z.land (chanOn (sharedPtr s)) (Z.lnot CHAN_1) /\
      clearedChannels (gameboy (sweepFire s))
      = clearedChannels (gameboy s) ++ [CHAN_1]) /\
     (sweepNext s <= 0x7FF ->
      get4 0 (chanRealFreq (sharedPtr (sweepFire s)))
      = imul (idiv 131072 (isub 2048 (sweepNext s))) 8 /\
      chanOn (sharedPtr (sweepFire s)) = chanOn (sharedPtr s) /\
      clearedChannels (gameboy (sweepFire s)) = clearedChannels (gameboy s))) /\
  (forall fuel cycles s s',
     updateSound fuel cycles s = Some s' ->
     soundDisabled s = false ->
     chanOnBit 0 s = true ->
     truthy (chan1SweepTime (eng s)) = true ->
     exists n c,
       (n <= fuel)%nat /\
       sweepPass fuel cycles false s = Some (c, sweepEnd (firing n cycles s)) /\
       (forall k, (k < n)%nat ->
          chan1SweepCounter (eng (firing k cycles s)) <= 0) /\
       0 < chan1SweepCounter (eng (firing n cycles s)) /\
       at_chanFreq 0 s' = at_chanFreq 0 (firing n cycles s) /\
       get4 0 (chanRealFreq (sharedPtr s'))
       = get4 0 (chanRealFreq (sharedPtr (firing n cycles s))) /\
       (forall k, (k < n)%nat ->
          sweepNext (firing k cycles s) > 0x7FF -> chanOnBit 0 s' = false)) /\
  (forall fuel cycles s s',
     updateSound fuel cycles s = Some s' ->
     chanOnBit 0 s && truthy (chan1SweepTime (eng s)) = false ->
     at_chanFreq 0 s' = at_chanFreq 0 s /\
     get4 0 (chanRealFreq (sharedPtr s')) = get4 0 (chanRealFreq (sharedPtr s))) /\
  (forall calls s s',
     Forall noTrigger calls ->
     run calls s = Some s' ->
     chanOnBit 0 s = false -> chanOnBit 0 s' = false) /\
  (forall fuel cycles c s,
     sweepBudget fuel cycles s ->
     exists r, sweepPass fuel cycles c s = Some r).
Proof.
  split; [exact sweepFire_spec|]. split; [|split; [|split]].
  - intros fuel cycles s s' H Hd Hon Ht.
    unfold updateSound in H. rewrite Hd in H.
    apply bind_Some in H. destruct H as ([c1 s1] & E1 & H).
    apply bind_Some in H. destruct H as (cs & E2 & E3).
    destruct (sweepPass_firings _ _ _ _ _ _ Hon Ht E1) as (n & Hn & Hs & Hk & Hc).
    subst s1. exists n, c1.
    split; [exact Hn|]. split; [exact E1|]. split; [exact Hk|]. split; [exact Hc|].
    pose proof (R_trans _ _ freqR_OK _ _ _ (sweepEnd_freqR (firing n cycles s))
                  (laterPasses_freqR _ _ _ _ _ _ E2 E3)) as (_ & F1 & F2).
    split; [exact F1|]. split; [exact F2|].
    intros k Hlt Hov.
    apply (noRestart_bit 0 (firing (S k) cycles s) s'); [lia| |].
    + apply (R_trans _ _ noRestart_OK _ (firing n cycles s));
        [apply firing_noRestart; lia|].
      apply (R_trans _ _ noRestart_OK _ _ _ (sweepEnd_noRestart (firing n cycles s))).
      exact (laterPasses_noRestart _ _ _ _ _ _ E2 E3).
    + change (firing (S k) cycles s) with (sweepFire (firing k cycles s)).
      destruct (sweepFire_spec (firing k cycles s)) as (_ & Ho & _).
      apply Ho, Hov.
  - intros fuel cycles s s' H Hoff.
    unfold updateSound in H. destruct (soundDisabled s).
    + injection H as <-. split; reflexivity.
    + rewrite (sweepPass_skip _ _ _ _ Hoff) in H. cbn [bind] in H.
      apply bind_Some in H. destruct H as (cs & E2 & E3).
      destruct (laterPasses_freqR _ _ _ _ _ _ E2 E3) as (_ & F1 & F2).
      split; assumption.
  - intros calls s s' Hc H. apply noRestart_bit; [lia|].
    exact (run_noRestart calls s s' Hc H).
  - intros fuel cycles c s. apply sweepPass_returns.
Qed.


(** C8. Every firing of the envelope of a channel leaves that channel's
    volume clamped to [0, 15], whatever the volume, the direction and the
    period were; [init] sets the three volumes to 0, and no register write
    and no advance call takes the volume of channel 0, 1 or 3 out of
    [0, 15].  In best-effort mode an advance call returns whenever the
    iteration budget covers its loops. *)
Theorem envelope_volume_range :
  (forall i s s',
     0 <= i < 4 ->
     envFire i s = Some s' ->
     at_chanVol i s' = clampVol (iadd (at_chanVol i s) (at_chanEnvDir i s)) /\
     0 <= at_chanVol i s' <= 15) /\
  (forall s s', init s = Some s' -> vol_ok s') /\
  (forall fuel cycles s s',
     vol_ok s -> updateSound fuel cycles s = Some s' -> vol_ok s') /\
  (forall calls s s', vol_ok s -> run calls s = Some s' -> vol_ok s') /\
  (forall fuel cycles s,
     best_effort s ->
     sweepBudget fuel cycles s ->
     envBudget fuel cycles 0 s ->
     envBudget fuel cycles 1 s ->
     envBudget fuel cycles 3 s ->
     exists s', updateSound fuel cycles s = Some s' /\ (vol_ok s -> vol_ok s')).
Proof.
  split; [|split; [|split; [|split]]].
  - intros i s s' Hi E.
    assert (Hv : at_chanVol i s'
                 = clampVol (iadd (at_chanVol i s) (at_chanEnvDir i s))).
    { unfold at_chanVol at 1. rewrite (envFire_vol i s s' Hi E).
      apply get4_set4_same, Hi. }
    split; [exact Hv|]. rewrite Hv. apply clampVol_range.
  - exact init_vol_ok.
  - intros fuel cycles s s' Hv E. exact (updateSound_volR _ _ _ _ E Hv).
  - intros calls s s' Hv E. exact (run_volR calls s s' E Hv).
  - intros fuel cycles s HB Hs H0 H1 H3.
    destruct (updateSound_returns fuel cycles s HB Hs H0 H1 H3) as (s' & E).
    exists s'. split; [exact E|]. exact (updateSound_volR _ _ _ _ E).
Qed.

(** * Further properties of the engine *)

(** ** A relation kept by every register write is kept by the resync *)

Section RefreshRel.
Variables (R : State -> State -> Prop) (T : State -> Prop).
Hypothesis OK : RelOK R T.
Hypothesis R_write : forall r v s, Ro R T s (handleSoundRegister r v s).
Hypothesis R_unmute : forall s, R s (unmute s).
Hypothesis R_ptr : forall s, R s (upd_sharedPtr (set_sampleDataPtr true) s).
Hypothesis R_on : forall s, R s (asgp_chanOn 0 s).

Lemma refreshLoop_Ro (n : nat) : forall i s, Ro R T s (refreshLoop n i s).
Proof.
  induction n as [|n IH]; intros i s; cbn [refreshLoop].
  - apply (Ro_Some _ _). apply (R_refl _ _ OK).
  - apply (Ro_bind _ _ OK); [|intros x; apply IH].
    destruct (isTriggerReg i); apply R_write.
Qed.

Lemma retrigger_Ro s : Ro R T s (retrigger s).
Proof.
  unfold retrigger.
  repeat (apply (Ro_bind _ _ OK); [|intros ?]).
  all: destruct (truthy _);
    [apply R_write | apply (Ro_Some _ _); apply (R_refl _ _ OK)].
Qed.

Lemma refresh_Ro s : Ro R T s (refresh s).
Proof.
  cbv beta delta [refresh].
  rel_exec OK ltac:(first [apply R_unmute | apply R_ptr | apply R_on
                          | apply (R_refl _ _ OK)]).
  - apply R_write.
  - apply refreshLoop_Ro.
  - apply retrigger_Ro.
Qed.

End RefreshRel.

(** ** The next-event bound *)

Lemma eventR_OK : RelOK eventR never.
Proof.
  apply RelOK_never.
  - unfold eventR. intros s. lia.
  - unfold eventR. intros s1 s2 s3 A B. lia.
  - intros s s' H. destruct (synchronizeSound_keeps s s' H) as (He & _).
    unfold eventR. rewrite He. lia.
Qed.

Ltac event_step :=
  unfold_helpers; unfold unmute; split_state;
  unfold eventR; rsimpl_all;
  repeat match goal with
         | H : (_ >? _) = true |- _ => apply Z.gtb_lt in H
         end;
  lia.

Lemma handleSoundRegister_eventR ioReg val s :
  Ro eventR never s (handleSoundRegister ioReg val s).
Proof.
  cbv beta delta [handleSoundRegister].
  rel_exec eventR_OK event_step.
  by_register (u8 ioReg).
  all: rel_exec eventR_OK event_step.
Qed.

Lemma envFire_eventR i s : Ro eventR never s (envFire i s).
Proof.
  cbv beta delta [envFire].
  rel_exec eventR_OK event_step.
Qed.

Lemma notifyChanged_eventR c s : Ro eventR never s (notifyChanged (c, s)).
Proof.
  cbv beta iota delta [notifyChanged].
  rel_exec eventR_OK ltac:(advance_step event_step).
Qed.

Lemma updateSound_eventR fuel cycles s s' :
  updateSound fuel cycles s = Some s' -> eventR s s'.
Proof.
  apply (updateSound_R eventR).
  - apply (R_refl _ _ eventR_OK).
  - apply (R_trans _ _ eventR_OK).
  - intros v x. event_step.
  - intros i v x. event_step.
  - intros v x. event_step.
  - intros x. advance_step event_step.
  - intros i x x' _ _ E. apply (envFire_eventR i x), E.
  - intros cy i c x _. advance_step event_step.
  - intros c x x' E. apply (notifyChanged_eventR c x), E.
Qed.

Lemma run_eventR (calls : list Call) : forall s s',
  run calls s = Some s' -> eventR s s'.
Proof.
  induction calls as [|c calls IH]; intros s s'; cbn [run].
  - intros E. injection E as <-. apply (R_refl _ _ eventR_OK).
  - intros E. apply bind_Some in E. destruct E as (x & E1 & E2).
    apply (R_trans _ _ eventR_OK s x s'); [|apply IH; assumption].
    destruct c as [r v|fuel cycles]; cbn [call] in *.
    + apply (handleSoundRegister_eventR r v s), E1.
    + apply (updateSound_eventR fuel cycles), E1.
Qed.

Lemma refresh_eventR s : Ro eventR never s (refresh s).
Proof.
  apply (refresh_Ro _ _ eventR_OK).
  - apply handleSoundRegister_eventR.
  - intros x. event_step.
  - intros x. event_step.
  - intros x. event_step.
Qed.

(** X1. [setSoundEventCycles] replaces [cyclesToSoundEvent] by the minimum
    of its value and the argument.  Nothing in the engine ever raises it:
    after any sequence of register writes and advance calls, after
    [refresh] and after [init] it is at most what it was (resetting it is
    left to the caller). *)
Theorem soundEvent_only_lowered :
  (forall c s,
     cyclesToSoundEvent (eng (setSoundEventCycles c s))
     = Z.min (cyclesToSoundEvent (eng s)) c) /\
  (forall calls s s',
     run calls s = Some s' ->
     cyclesToSoundEvent (eng s') <= cyclesToSoundEvent (eng s)) /\
  (forall s s',
     refresh s = Some s' ->
     cyclesToSoundEvent (eng s') <= cyclesToSoundEvent (eng s)) /\
  (forall s s',
     init s = Some s' ->
     cyclesToSoundEvent (eng s') <= cyclesToSoundEvent (eng s)).
Proof.
  split; [|split; [|split]].
  - intros c s. unfold setSoundEventCycles.
    destruct (Z.gtb_spec (cyclesToSoundEvent (eng s)) c); rsimpl; lia.
  - intros calls s s' E. exact (run_eventR calls s s' E).
  - intros s s' E. exact (proj2 (refresh_eventR s) s' E).
  - intros s s'. cbv beta zeta delta [init]. intros E.
    apply (proj2 (refresh_eventR _)) in E. exact E.
Qed.

(** ** Writes without effect *)

(** X2. A write to a register that has no [case] in [handleSoundRegister]
    (everything below 0x10 or above 0x3F, and 0x15, 0x1F, 0x27..0x2F)
    returns at once and changes nothing; so does a write to 0x1A with
    bit 7 set.  The register number is taken modulo 256, as the parameter
    is a [u8]. *)
Theorem handleSoundRegister_ignored (ioReg val : Z) (s : State) :
  (hasCase (u8 ioReg) = false -> handleSoundRegister ioReg val s = Some s) /\
  (u8 ioReg = 0x1A -> Z.land (u8 val) 0x80 <> 0 ->
   handleSoundRegister ioReg val s = Some s) /\
  handleSoundRegister (ioReg + 256) val s = handleSoundRegister ioReg val s.
Proof.
  split; [|split].
  - cbv beta zeta delta [handleSoundRegister].
    by_register (u8 ioReg); intros H; try reflexivity;
      vm_compute in H; discriminate H.
  - intros Hr Hv. cbv beta zeta delta [handleSoundRegister]. rewrite Hr.
    apply Z.eqb_neq in Hv. rewrite Hv. reflexivity.
  - assert (E : u8 (ioReg + 256) = u8 ioReg).
    { unfold u8. change 0xFF with (Z.ones 8). rewrite !Z.land_ones by lia.
      change (2 ^ 8) with 256. replace (ioReg + 256) with (ioReg + 1 * 256) by lia.
      apply Z.mod_add. lia. }
    cbv beta zeta delta [handleSoundRegister]. rewrite E. reflexivity.
Qed.

(** ** Wave RAM *)

Lemma length_list_set (l : list Z) : forall n v,
  List.length (list_set l n v) = List.length l.
Proof.
  induction l as [|h t IH]; intros n v; [reflexivity|].
  destruct n as [|n]; cbn [list_set List.length]; [reflexivity|].
  rewrite IH. reflexivity.
Qed.

Lemma nth_list_set_same (l : list Z) : forall n v d,
  (n < List.length l)%nat -> nth n (list_set l n v) d = v.
Proof.
  induction l as [|h t IH]; intros n v d H; cbn [List.length] in H; [lia|].
  destruct n as [|n]; cbn [list_set nth]; [reflexivity|].
  apply IH. lia.
Qed.

Lemma nth_list_set_other (l : list Z) : forall n m v d,
  m <> n -> nth m (list_set l n v) d = nth m l d.
Proof.
  induction l as [|h t IH]; intros n m v d H; [reflexivity|].
  destruct n as [|n], m as [|m]; cbn [list_set nth]; try reflexivity.
  - contradiction.
  - apply IH. lia.
Qed.

(** X3. A write to a wave-RAM register 0x30+k (k < 16) does not use the
    written value: it re-reads the byte from the CPU model and stores the
    PCM levels of its high and low nibble at positions 2k and 2k+1 of
    [sampleData].  The buffer keeps its length, its other bytes and
    everything outside the buffer (shared blocks, FIFO, log) are
    unchanged, and no message is sent. *)
Theorem wave_write (k val : Z) (s : State) :
  0 <= k < 16 ->
  handleSoundRegister (0x30 + k) val s = Some (updateSoundSample k s) /\
  sharedData (updateSoundSample k s) = sharedData s /\
  dummySharedData (updateSoundSample k s) = dummySharedData s /\
  gameboy (updateSoundSample k s) = gameboy s /\
  fifo (updateSoundSample k s) = fifo s /\
  printLog (updateSoundSample k s) = printLog s /\
  eng (updateSoundSample k s)
  = set_sampleData (sampleData (eng (updateSoundSample k s))) (eng s) /\
  List.length (sampleData (eng (updateSoundSample k s)))
  = List.length (sampleData (eng s)) /\
  (List.length (sampleData (eng s)) = 32%nat ->
   nth (Z.to_nat (2 * k)) (sampleData (eng (updateSoundSample k s))) 0
   = u8 (nth (Z.to_nat (Z.shiftr (readIO s (0x30 + k)) 4)) (pcmVals (eng s)) 0) /\
   nth (Z.to_nat (2 * k + 1)) (sampleData (eng (updateSoundSample k s))) 0
   = u8 (nth (Z.to_nat (Z.land (readIO s (0x30 + k)) 0xf)) (pcmVals (eng s)) 0) /\
   forall j, j <> Z.to_nat (2 * k) -> j <> Z.to_nat (2 * k + 1) ->
     nth j (sampleData (eng (updateSoundSample k s))) 0
     = nth j (sampleData (eng s)) 0).
Proof.
  intros Hk. split.
  { assert (C : k = 0 \/ k = 1 \/ k = 2 \/ k = 3 \/ k = 4 \/ k = 5 \/ k = 6
                \/ k = 7 \/ k = 8 \/ k = 9 \/ k = 10 \/ k = 11 \/ k = 12
                \/ k = 13 \/ k = 14 \/ k = 15) by lia.
    repeat (destruct C as [->|C]); [..|subst k]; reflexivity. }
  unfold updateSoundSample. cbv zeta. rsimpl.
  replace (k * 2) with (2 * k) by lia.
  repeat (split; [reflexivity|]).
  split; [rewrite !length_list_set; reflexivity|].
  intros Hlen. split; [|split].
  - rewrite nth_list_set_other by lia.
    apply nth_list_set_same. lia.
  - apply nth_list_set_same. rewrite length_list_set. lia.
  - intros j H1 H2. rewrite !nth_list_set_other by assumption. reflexivity.
Qed.

(** ** Output selection *)

Lemma refreshSoundPan_eq (i : Z) (s : State) :
  refreshSoundPan i s = asgp_chanPan i (panOf (chanOutput (sharedPtr s)) i) s.
Proof.
  unfold refreshSoundPan, panOf.
  destruct (bitset _ (Z.shiftl 1 i)), (bitset _ (Z.shiftl 1 (i + 4)));
    reflexivity.
Qed.

Lemma panOf_values (v i : Z) :
  panOf v i = 64 \/ panOf v i = 127 \/ panOf v i = 0 \/ panOf v i = 128.
Proof.
  unfold panOf.
  destruct (bitset _ (Z.shiftl 1 i)), (bitset _ (Z.shiftl 1 (i + 4)));
    cbn [andb]; auto.
Qed.

(** Writes through [sharedPtr]. *)
Lemma sharedPtr_upd (f : SharedData -> SharedData) (s : State) :
  sharedPtr (upd_sharedPtr f s) = f (sharedPtr s).
Proof.
  unfold upd_sharedPtr, sharedPtr.
  destruct (muted (eng s)) eqn:Hm; rsimpl; rewrite Hm; reflexivity.
Qed.

Lemma upd_sharedPtr_frame (f : SharedData -> SharedData) (s : State) :
  eng (upd_sharedPtr f s) = eng s /\
  gameboy (upd_sharedPtr f s) = gameboy s /\
  fifo (upd_sharedPtr f s) = fifo s /\
  printLog (upd_sharedPtr f s) = printLog s /\
  arm7 (upd_sharedPtr f s) = arm7 s /\
  soundDisabled (upd_sharedPtr f s) = soundDisabled s /\
  g_hyperSound (upd_sharedPtr f s) = g_hyperSound s.
Proof.
  unfold upd_sharedPtr. destruct (muted (eng s)); rsimpl; repeat split.
Qed.

(** A write through [sharedPtr] of a field other than the FIFO counters
    and the mode flag. *)
Lemma upd_sharedPtr_counters (f : SharedData -> SharedData) (s : State) :
  (forall d, fifosSent (f d) = fifosSent d) ->
  (forall d, fifosReceived (f d) = fifosReceived d) ->
  (forall d, hyperSound (f d) = hyperSound d) ->
  fifosSent (sharedData (upd_sharedPtr f s)) = fifosSent (sharedData s) /\
  fifosReceived (sharedData (upd_sharedPtr f s)) = fifosReceived (sharedData s) /\
  hyperSound (sharedData (upd_sharedPtr f s)) = hyperSound (sharedData s).
Proof.
  intros H1 H2 H3. unfold upd_sharedPtr.
  destruct (muted (eng s)); rsimpl; auto.
Qed.

(** What a write through [sharedPtr] of a field other than the FIFO
    counters and the mode flag leaves alone. *)
Lemma upd_sharedPtr_keeps (f : SharedData -> SharedData) (s : State) :
  (forall d, fifosSent (f d) = fifosSent d) ->
  (forall d, fifosReceived (f d) = fifosReceived d) ->
  (forall d, hyperSound (f d) = hyperSound d) ->
  sharedPtr (upd_sharedPtr f s) = f (sharedPtr s) /\
  eng (upd_sharedPtr f s) = eng s /\
  gameboy (upd_sharedPtr f s) = gameboy s /\
  fifo (upd_sharedPtr f s) = fifo s /\
  fifosSent (sharedData (upd_sharedPtr f s)) = fifosSent (sharedData s) /\
  fifosReceived (sharedData (upd_sharedPtr f s)) = fifosReceived (sharedData s) /\
  hyperSound (sharedData (upd_sharedPtr f s)) = hyperSound (sharedData s).
Proof.
  intros H1 H2 H3.
  destruct (upd_sharedPtr_frame f s) as (A1 & A2 & A3 & _).
  destruct (upd_sharedPtr_counters f s H1 H2 H3) as (B1 & B2 & B3).
  split; [apply sharedPtr_upd|]. auto 10.
Qed.

Lemma refreshSoundPan_keeps (i : Z) (s : State) :
  sharedPtr (refreshSoundPan i s)
  = set_chanPan (set4 i (panOf (chanOutput (sharedPtr s)) i) (chanPan (sharedPtr s)))
      (sharedPtr s) /\
  eng (refreshSoundPan i s) = eng s /\
  gameboy (refreshSoundPan i s) = gameboy s /\
  fifo (refreshSoundPan i s) = fifo s /\
  fifosSent (sharedData (refreshSoundPan i s)) = fifosSent (sharedData s) /\
  fifosReceived (sharedData (refreshSoundPan i s)) = fifosReceived (sharedData s) /\
  hyperSound (sharedData (refreshSoundPan i s)) = hyperSound (sharedData s).
Proof.
  rewrite refreshSoundPan_eq. unfold asgp_chanPan.
  apply (upd_sharedPtr_keeps
           (fun d => set_chanPan (set4 i (panOf (chanOutput (sharedPtr s)) i)
                                    (chanPan d)) d) s); reflexivity.
Qed.

(** The state in which a write to 0x25 sends its two messages. *)
Lemma handle_0x25 (val : Z) (s : State) :
  exists s1,
    handleSoundRegister 0x25 val s
    = (x <- sendUpdateMessage (-1) s1 ;; sendGlobalVolumeMessage x) /\
    eng s1 = eng s /\
    gameboy s1 = gameboy s /\
    fifo s1 = fifo s /\
    fifosSent (sharedData s1) = fifosSent (sharedData s) /\
    fifosReceived (sharedData s1) = fifosReceived (sharedData s) /\
    hyperSound (sharedData s1) = hyperSound (sharedData s) /\
    chanOutput (sharedPtr s1) = u8 val /\
    forall i, 0 <= i < 4 ->
      get4 i (chanPan (sharedPtr s1)) = panOf (u8 val) i.
Proof.
  cbv beta zeta delta [handleSoundRegister]. change (u8 0x25) with 0x25.
  cbv iota.
  eexists. split; [reflexivity|].
  destruct (upd_sharedPtr_keeps (set_chanOutput (u8 val)) s)
    as (P0 & E0 & G0 & F0 & S0 & R0 & H0); try reflexivity.
  fold (asgp_chanOutput (u8 val) s) in *.
  set (x0 := asgp_chanOutput (u8 val) s) in *.
  destruct (refreshSoundPan_keeps 0 x0) as (P1 & E1 & G1 & F1 & S1 & R1 & H1).
  set (x1 := refreshSoundPan 0 x0) in *.
  destruct (refreshSoundPan_keeps 1 x1) as (P2 & E2 & G2 & F2 & S2 & R2 & H2).
  set (x2 := refreshSoundPan 1 x1) in *.
  destruct (refreshSoundPan_keeps 2 x2) as (P3 & E3 & G3 & F3 & S3 & R3 & H3).
  set (x3 := refreshSoundPan 2 x2) in *.
  destruct (refreshSoundPan_keeps 3 x3) as (P4 & E4 & G4 & F4 & S4 & R4 & H4).
  set (x4 := refreshSoundPan 3 x3) in *.
  clearbody x0 x1 x2 x3 x4.
  repeat (split; [congruence|]).
  assert (O1 : chanOutput (sharedPtr x1) = u8 val) by (rewrite P1, P0; reflexivity).
  assert (O2 : chanOutput (sharedPtr x2) = u8 val) by (rewrite P2; exact O1).
  assert (O3 : chanOutput (sharedPtr x3) = u8 val) by (rewrite P3; exact O2).
  split; [rewrite P4; exact O3|].
  intros i Hi. rewrite P4, O3. rsimpl. rewrite P3, O2. rsimpl.
  rewrite P2, O1. rsimpl. rewrite P1, P0. rsimpl.
  assert (C : i = 0 \/ i = 1 \/ i = 2 \/ i = 3) by lia.
  destruct C as [-> | [-> | [-> | ->]]]; reflexivity.
Qed.

Lemma sharedPtr_asgp_message (m : Z) (s : State) :
  sharedPtr (asgp_message m s) = set_message m (sharedPtr s) /\
  eng (asgp_message m s) = eng s /\
  gameboy (asgp_message m s) = gameboy s.
Proof.
  unfold asgp_message, upd_sharedPtr, sharedPtr.
  destruct (muted (eng s)) eqn:Hm; rsimpl; rewrite Hm; auto.
Qed.

(** What a message call leaves in the block behind [sharedPtr]. *)
Lemma send_message_keeps (m : Z) (s s' : State) :
  synchronizeSound (asgp_message m s) = Some s' ->
  eng s' = eng s /\
  gameboy s' = gameboy s /\
  protoErase (sharedPtr s') = protoErase (set_message m (sharedPtr s)).
Proof.
  intros H. destruct (synchronizeSound_keeps _ _ H) as (He & Hg & Hp).
  destruct (sharedPtr_asgp_message m s) as (Ep & Ee & Eg).
  rewrite He, Hg, Hp, Ep. auto.
Qed.

(** In best-effort mode and below the threshold a message call appends the
    message to the FIFO. *)
Lemma send_message_best_effort (m : Z) (s : State) :
  best_effort s ->
  outstanding s < MAX_FIFOS_WAITING ->
  synchronizeSound (asgp_message m s)
  = Some (fifoSendValue32 (u32 m)
            (upd_sharedData (fun d => set_fifosSent (iadd (fifosSent d) 1) d)
               (upd_sharedData (set_message m) s))).
Proof.
  intros (Hm & Hh) Ho.
  assert (E : asgp_message m s = upd_sharedData (set_message m) s)
    by (unfold asgp_message, upd_sharedPtr; rewrite Hm; reflexivity).
  rewrite E.
  rewrite synchronizeSound_best_effort by (rsimpl; assumption).
  rewrite FIFO_SEND_accept by exact Ho. rsimpl. reflexivity.
Qed.

(** X4. A write to the output-selection register 0x25 stores the byte in
    [chanOutput] and derives the pan of each of the four channels from
    its bits [i] and [i+4]: 64 for both, 127 for bit [i] alone, 0 for bit
    [i+4] alone, 128 for neither.  It leaves the engine's own fields
    alone and ends with the master-volume message in the message slot;
    in best-effort mode with room for two values it appends the global
    Update and the master-volume message to the FIFO, in this order. *)
Theorem pan_write (val : Z) (s : State) :
  (forall s',
     handleSoundRegister 0x25 val s = Some s' ->
     eng s' = eng s /\
     chanOutput (sharedPtr s') = u8 val /\
     (forall i, 0 <= i < 4 ->
        get4 i (chanPan (sharedPtr s')) = panOf (u8 val) i /\
        (get4 i (chanPan (sharedPtr s')) = 64 \/
         get4 i (chanPan (sharedPtr s')) = 127 \/
         get4 i (chanPan (sharedPtr s')) = 0 \/
         get4 i (chanPan (sharedPtr s')) = 128)) /\
     message (sharedPtr s') = ishl GBSND_MASTER_VOLUME_COMMAND 20) /\
  (best_effort s ->
   0 <= fifosReceived (sharedData s) <= fifosSent (sharedData s) ->
   fifosSent (sharedData s) + 2 < 2147483648 ->
   fifosSent (sharedData s) - fifosReceived (sharedData s) + 2 <= MAX_FIFOS_WAITING ->
   exists s',
     handleSoundRegister 0x25 val s = Some s' /\
     fifo s' = fifo s ++ [u32 (updateMessage 4);
                          u32 (ishl GBSND_MASTER_VOLUME_COMMAND 20)]).
Proof.
  destruct (handle_0x25 val s)
    as (s1 & E & He & Hg & Hf & Hs1 & Hr1 & Hh & Hout & Hpan).
  rewrite E. split.
  - intros s' H. apply bind_Some in H. destruct H as (x & H1 & H2).
    cbv beta zeta delta [sendUpdateMessage] in H1. change (-1 =? -1) with true in H1.
    cbv iota in H1.
    unfold sendGlobalVolumeMessage in H2.
    destruct (send_message_keeps _ _ _ H1) as (A1 & _ & A3).
    destruct (send_message_keeps _ _ _ H2) as (B1 & _ & B3).
    assert (Eo : chanOutput (sharedPtr s') = chanOutput (sharedPtr s1)).
    { transitivity (chanOutput (sharedPtr x));
        [exact (f_equal chanOutput B3)|exact (f_equal chanOutput A3)]. }
    assert (Ep : chanPan (sharedPtr s') = chanPan (sharedPtr s1)).
    { transitivity (chanPan (sharedPtr x));
        [exact (f_equal chanPan B3)|exact (f_equal chanPan A3)]. }
    split; [congruence|]. split; [congruence|]. split.
    + intros i Hi. rewrite Ep, (Hpan i Hi). split; [reflexivity|].
      apply panOf_values.
    + exact (f_equal message B3).
  - intros (Hm & Hb) Hr Hs Hroom. unfold MAX_FIFOS_WAITING in *.
    assert (Hm1 : muted (eng s1) = false) by congruence.
    assert (B1 : best_effort s1) by (split; congruence).
    assert (O1 : outstanding s1 < 60).
    { unfold outstanding, isub. rewrite Hs1, Hr1, int32_id by lia. lia. }
    cbv beta zeta delta [sendUpdateMessage]. change (-1 =? -1) with true.
    cbv iota.
    rewrite (send_message_best_effort _ s1 B1) by exact O1.
    cbn [bind]. unfold sendGlobalVolumeMessage.
    set (s2 := fifoSendValue32 _ _).
    assert (B2 : best_effort s2).
    { destruct B1 as (X1 & X2). split; [exact X1|exact X2]. }
    assert (O2 : outstanding s2 < 60).
    { unfold outstanding. subst s2. rsimpl. unfold iadd, isub.
      rewrite Hs1, Hr1, (int32_id (_ + 1)) by lia.
      rewrite int32_id by lia. lia. }
    rewrite (send_message_best_effort _ s2 B2) by exact O2.
    eexists. split; [reflexivity|].
    subst s2. rsimpl. rewrite Hf, <- app_assoc. reflexivity.
Qed.

(** ** Frequency registers *)

Ltac freq_tac r :=
  let v := fresh "v" in
  let Hval := fresh "Hval" in
  start_write r v Hval;
  post_exec;
  unfold Post; eexists; (split; [reflexivity|]);
  unfold freqPushed, squareFreq; rewrite <- ?Hval;
  repeat split; eval_fields; try reflexivity.

Lemma freq_low_ch0 val s :
  Post (fun o => exists s1, o = synchronizeSound s1 /\
          freqPushed 0 (Z.lor (Z.land (at_chanFreq 0 s) 0x700) (u8 val)) s1)
       (handleSoundRegister 0x13 val s).
Proof. destruct (muted (eng s)) eqn:Hm; freq_tac 0x13. Qed.

Lemma freq_low_ch1 val s :
  Post (fun o => exists s1, o = synchronizeSound s1 /\
          freqPushed 1 (Z.lor (Z.land (at_chanFreq 1 s) 0x700) (u8 val)) s1)
       (handleSoundRegister 0x18 val s).
Proof. destruct (muted (eng s)) eqn:Hm; freq_tac 0x18. Qed.

Lemma freq_high_ch0 val s :
  Post (fun o => exists s1, o = synchronizeSound s1 /\
          freqPushed 0 (Z.lor (Z.land (at_chanFreq 0 s) 0xFF)
                              (Z.shiftl (Z.land (u8 val) 7) 8)) s1)
       (handleSoundRegister 0x14 val s).
Proof. destruct (muted (eng s)) eqn:Hm; freq_tac 0x14. Qed.

Lemma freq_high_ch1 val s :
  Post (fun o => exists s1, o = synchronizeSound s1 /\
          freqPushed 1 (Z.lor (Z.land (at_chanFreq 1 s) 0xFF)
                              (Z.shiftl (Z.land (u8 val) 7) 8)) s1)
       (handleSoundRegister 0x19 val s).
Proof. destruct (muted (eng s)) eqn:Hm; freq_tac 0x19. Qed.

Lemma land_mask_bound (a m : Z) : 0 <= m -> 0 <= Z.land a m <= m.
Proof.
  intros Hm. split; [apply Z.land_nonneg; auto|].
  pose proof (Z.lor_ldiff_and m a) as E.
  pose proof (Z.add_lor_land (Z.ldiff m a) (Z.land m a)) as A.
  assert (D : Z.land (Z.ldiff m a) (Z.land m a) = 0).
  { apply Z.bits_inj'. intros n Hn.
    rewrite !Z.land_spec, Z.ldiff_spec, Z.bits_0.
    destruct (Z.testbit m n), (Z.testbit a n); reflexivity. }
  assert (N : 0 <= Z.ldiff m a) by (apply Z.ldiff_nonneg; auto).
  rewrite E, D in A. rewrite (Z.land_comm a m). lia.
Qed.

Lemma lor_below (n a b : Z) :
  0 <= n -> 0 <= a < 2 ^ n -> 0 <= b < 2 ^ n -> 0 <= Z.lor a b < 2 ^ n.
Proof.
  intros Hn Ha Hb. split; [apply Z.lor_nonneg; lia|].
  destruct (Z.eq_dec a 0) as [->|Na]; [rewrite Z.lor_0_l; lia|].
  destruct (Z.eq_dec b 0) as [->|Nb]; [rewrite Z.lor_0_r; lia|].
  assert (P : 0 < Z.lor a b).
  { assert (0 <= Z.lor a b) by (apply Z.lor_nonneg; lia).
    assert (Z.lor a b <> 0) by (intros E; apply Z.lor_eq_0_l in E; contradiction).
    lia. }
  apply Z.log2_lt_pow2; [exact P|].
  rewrite Z.log2_lor by lia.
  apply Z.max_lub_lt; apply Z.log2_lt_pow2; lia.
Qed.

Lemma u8_land_id (x : Z) : Z.land (u8 x) 0xFF = u8 x.
Proof.
  unfold u8. rewrite <- Z.land_assoc. reflexivity.
Qed.

(** The two register writes assemble an 11-bit value. *)
Lemma freq_low_range (a v : Z) :
  0 <= v < 256 -> 0 <= Z.lor (Z.land a 0x700) v <= 0x7FF.
Proof.
  intros Hv. pose proof (land_mask_bound a 0x700 ltac:(lia)) as L.
  pose proof (lor_below 11 (Z.land a 0x700) v ltac:(lia)) as B.
  change (2 ^ 11) with 2048 in B. lia.
Qed.

Lemma freq_high_range (a v : Z) :
  0 <= Z.lor (Z.land a 0xFF) (Z.shiftl (Z.land v 7) 8) <= 0x7FF.
Proof.
  pose proof (land_mask_bound a 0xFF ltac:(lia)) as L.
  pose proof (land_mask_bound v 7 ltac:(lia)) as M.
  rewrite Z.shiftl_mul_pow2 by lia. change (2 ^ 8) with 256.
  pose proof (lor_below 11 (Z.land a 0xFF) (Z.land v 7 * 256) ltac:(lia)) as B.
  change (2 ^ 11) with 2048 in B. lia.
Qed.

Lemma freq_low_then_high (a lo hi : Z) :
  Z.lor (Z.land (Z.lor (Z.land a 0x700) (u8 lo)) 0xFF)
        (Z.shiftl (Z.land hi 7) 8)
  = Z.lor (u8 lo) (Z.shiftl (Z.land hi 7) 8).
Proof.
  rewrite Z.land_lor_distr_l, <- Z.land_assoc.
  change (Z.land 0x700 0xFF) with 0.
  rewrite Z.land_0_r, Z.lor_0_l, u8_land_id. reflexivity.
Qed.

Lemma freq_high_then_low (a lo hi : Z) :
  Z.lor (Z.land (Z.lor (Z.land a 0xFF) (Z.shiftl (Z.land hi 7) 8)) 0x700) lo
  = Z.lor lo (Z.shiftl (Z.land hi 7) 8).
Proof.
  rewrite Z.land_lor_distr_l, <- Z.land_assoc.
  change (Z.land 0xFF 0x700) with 0.
  rewrite Z.land_0_r, Z.lor_0_l.
  rewrite Z.shiftl_land. change (Z.shiftl 7 8) with 0x700.
  rewrite <- Z.land_assoc. change (Z.land 0x700 0x700) with 0x700.
  apply Z.lor_comm.
Qed.

Lemma squareFreq_bound (f : Z) :
  0 <= f <= 0x7FF ->
  1 <= isub 2048 f <= 2048 /\ 512 <= squareFreq f <= 1048576.
Proof.
  intros Hf. unfold squareFreq, imul, idiv, isub.
  rewrite (int32_id (2048 - f)) by lia.
  rewrite Z.quot_div_nonneg by lia.
  assert (L : 64 <= 131072 / (2048 - f)).
  { apply Z.div_le_lower_bound; lia. }
  assert (U : 131072 / (2048 - f) <= 131072).
  { apply Z.div_le_upper_bound; lia. }
  rewrite (int32_id (131072 / _)) by lia.
  rewrite int32_id by lia. lia.
Qed.

Lemma freqPushed_sync ch f s1 s' :
  freqPushed ch f s1 -> synchronizeSound s1 = Some s' -> freqPushed ch f s'.
Proof.
  intros (A & B) H. destruct (synchronizeSound_keeps s1 s' H) as (He & _ & Hp).
  split.
  - unfold at_chanFreq. rewrite He. exact A.
  - rewrite <- B. exact (f_equal (fun d => get4 ch (chanRealFreq d)) Hp).
Qed.

Lemma freq_write_low ch val s s' :
  ch = 0 \/ ch = 1 ->
  handleSoundRegister (freqLowReg ch) val s = Some s' ->
  freqPushed ch (Z.lor (Z.land (at_chanFreq ch s) 0x700) (u8 val)) s'.
Proof.
  intros [-> | ->] H; cbn [freqLowReg] in H.
  - destruct (freq_low_ch0 val s) as (s1 & E & P). rewrite E in H.
    exact (freqPushed_sync _ _ _ _ P H).
  - destruct (freq_low_ch1 val s) as (s1 & E & P). rewrite E in H.
    exact (freqPushed_sync _ _ _ _ P H).
Qed.

Lemma freq_write_high ch val s s' :
  ch = 0 \/ ch = 1 ->
  handleSoundRegister (trigReg ch) val s = Some s' ->
  freqPushed ch (Z.lor (Z.land (at_chanFreq ch s) 0xFF)
                       (Z.shiftl (Z.land (u8 val) 7) 8)) s'.
Proof.
  intros [-> | ->] H; cbn [trigReg] in H.
  - destruct (freq_high_ch0 val s) as (s1 & E & P). rewrite E in H.
    exact (freqPushed_sync _ _ _ _ P H).
  - destruct (freq_high_ch1 val s) as (s1 & E & P). rewrite E in H.
    exact (freqPushed_sync _ _ _ _ P H).
Qed.

(** X5. For the two square channels: a write to the frequency-low register
    replaces the low 8 bits of the local frequency and keeps bits 8..10, a
    write to the frequency-high register replaces bits 8..10 by the low
    three bits of the value and keeps the low 8 bits; either way the
    frequency is then within [0, 0x7FF] whatever it was before (a swept
    frequency above 0x7FF included), so that the divisor [2048 - freq] of
    [refreshSoundFreq] is at least 1, and the pushed frequency
    [131072 / (2048 - freq) * 8] lies in [512, 1048576].  The two writes
    in either order leave the frequency [lo | ((hi & 7) << 8)]. *)
Theorem square_frequency_write (ch : Z) :
  ch = 0 \/ ch = 1 ->
  (forall val s s',
     handleSoundRegister (freqLowReg ch) val s = Some s' ->
     let f := Z.lor (Z.land (at_chanFreq ch s) 0x700) (u8 val) in
     at_chanFreq ch s' = f /\
     get4 ch (chanRealFreq (sharedPtr s')) = squareFreq f /\
     0 <= f <= 0x7FF /\
     1 <= isub 2048 f <= 2048 /\
     512 <= squareFreq f <= 1048576) /\
  (forall val s s',
     handleSoundRegister (trigReg ch) val s = Some s' ->
     let f := Z.lor (Z.land (at_chanFreq ch s) 0xFF)
                    (Z.shiftl (Z.land (u8 val) 7) 8) in
     at_chanFreq ch s' = f /\
     get4 ch (chanRealFreq (sharedPtr s')) = squareFreq f /\
     0 <= f <= 0x7FF /\
     1 <= isub 2048 f <= 2048 /\
     512 <= squareFreq f <= 1048576) /\
  (forall lo hi s s',
     run [Write (freqLowReg ch) lo; Write (trigReg ch) hi] s = Some s' \/
     run [Write (trigReg ch) hi; Write (freqLowReg ch) lo] s = Some s' ->
     at_chanFreq ch s' = Z.lor (u8 lo) (Z.shiftl (Z.land (u8 hi) 7) 8)).
Proof.
  intros Hch. split; [|split].
  - intros val s s' H f. destruct (freq_write_low ch val s s' Hch H) as (A & B).
    pose proof (freq_low_range (at_chanFreq ch s) (u8 val) (u8_range val)) as R.
    fold f in A, B, R. destruct (squareFreq_bound f R) as (D & Q).
    auto.
  - intros val s s' H f. destruct (freq_write_high ch val s s' Hch H) as (A & B).
    pose proof (freq_high_range (at_chanFreq ch s) (u8 val)) as R.
    fold f in A, B, R. destruct (squareFreq_bound f R) as (D & Q).
    auto.
  - intros lo hi s s' [H | H]; cbn [run call] in H.
    + apply bind_Some in H. destruct H as (x & H1 & H2).
      apply bind_Some in H2. destruct H2 as (y & H2 & H3). injection H3 as <-.
      destruct (freq_write_low ch lo s x Hch H1) as (A & _).
      destruct (freq_write_high ch hi x y Hch H2) as (B & _).
      rewrite B, A. apply freq_low_then_high.
    + apply bind_Some in H. destruct H as (x & H1 & H2).
      apply bind_Some in H2. destruct H2 as (y & H2 & H3). injection H3 as <-.
      destruct (freq_write_high ch hi s x Hch H1) as (A & _).
      destruct (freq_write_low ch lo x y Hch H2) as (B & _).
      rewrite B, A. apply freq_high_then_low.
Qed.

Lemma noise_write_post val s :
  Post (fun o => exists s1, o = synchronizeSound s1 /\
          at_chanFreq 3 s1 = Z.shiftr (u8 val) 4 /\
          chan4FreqRatio (eng s1) = noiseRatio (u8 val) /\
          lfsr7Bit (sharedPtr s1) = Z.land (u8 val) 0x8 /\
          get4 3 (chanRealFreq (sharedPtr s1)) = noiseFreq (u8 val))
       (handleSoundRegister 0x22 val s).
Proof.
  destruct (muted (eng s)) eqn:Hm.
  all: start_write 0x22 v Hval; post_exec.
  all: unfold Post; eexists; (split; [reflexivity|]).
  all: unfold noiseFreq, noiseRatio; rewrite <- ?Hval.
  all: repeat split; eval_fields; try reflexivity.
  all: match goal with H : (Z.land _ 7 =? 0) = _ |- _ => rewrite H end.
  all: reflexivity.
Qed.

Lemma noiseFreq_bound (v : Z) :
  0 <= v < 256 -> 1 <= noiseFreq v <= 524288.
Proof.
  intros Hv. unfold noiseFreq, ishr, iadd.
  pose proof (shiftr4_range v Hv) as Hs.
  rewrite (int32_id (Z.shiftr v 4 + 1)) by lia.
  set (n := Z.shiftr v 4 + 1) in *.
  assert (Hr : 74898 <= int32 (ratio_quot 524288 (noiseRatio v)) <= 1048576).
  { unfold noiseRatio.
    pose proof (land_mask_bound v 7 ltac:(lia)) as M.
    destruct (Z.eqb_spec (Z.land v 7) 0) as [E|E]; cbn [ratio_quot].
    - rewrite int32_id; lia.
    - assert (C : Z.land v 7 = 1 \/ Z.land v 7 = 2 \/ Z.land v 7 = 3 \/
                  Z.land v 7 = 4 \/ Z.land v 7 = 5 \/ Z.land v 7 = 6 \/
                  Z.land v 7 = 7) by lia.
      destruct C as [-> | [-> | [-> | [-> | [-> | [-> | ->]]]]]];
        vm_compute; split; discriminate. }
  rewrite Z.shiftr_div_pow2 by lia.
  assert (P : 2 <= 2 ^ n <= 65536).
  { split.
    - change 2 with (2 ^ 1) at 1. apply Z.pow_le_mono_r; lia.
    - change 65536 with (2 ^ 16). apply Z.pow_le_mono_r; lia. }
  split.
  - apply Z.div_le_lower_bound; lia.
  - apply Z.div_le_upper_bound; lia.
Qed.

(** X6. A write to the noise-frequency register 0x22 stores the shift
    [val >> 4], the divider ratio [val & 7] (0.5 for 0) and the counter
    width bit [val & 8], and pushes the frequency
    [(524288 / ratio) >> (shift + 1)]; whatever the value written, the
    pushed frequency lies in [1, 524288] (it is never 0). *)
Theorem noise_frequency_write (val : Z) (s s' : State) :
  handleSoundRegister 0x22 val s = Some s' ->
  at_chanFreq 3 s' = Z.shiftr (u8 val) 4 /\
  0 <= at_chanFreq 3 s' <= 15 /\
  chan4FreqRatio (eng s') = noiseRatio (u8 val) /\
  lfsr7Bit (sharedPtr s') = Z.land (u8 val) 0x8 /\
  get4 3 (chanRealFreq (sharedPtr s')) = noiseFreq (u8 val) /\
  1 <= get4 3 (chanRealFreq (sharedPtr s')) <= 524288.
Proof.
  intros H. destruct (noise_write_post val s) as (s1 & E & A & B & C & D).
  rewrite E in H. destruct (synchronizeSound_keeps s1 s' H) as (He & _ & Hp).
  assert (A' : at_chanFreq 3 s' = Z.shiftr (u8 val) 4)
    by (unfold at_chanFreq; rewrite He; exact A).
  assert (D' : get4 3 (chanRealFreq (sharedPtr s')) = noiseFreq (u8 val)).
  { rewrite <- D. exact (f_equal (fun d => get4 3 (chanRealFreq d)) Hp). }
  split; [exact A'|]. split; [rewrite A'; apply shiftr4_range, u8_range|].
  split; [rewrite He; exact B|].
  split; [rewrite <- C; exact (f_equal lfsr7Bit Hp)|].
  split; [exact D'|]. rewrite D'. apply noiseFreq_bound, u8_range.
Qed.

(** ** Master volume *)

Lemma asgp_volControl_same (v : Z) (s : State) :
  volControl (sharedPtr s) = v -> asgp_volControl v s = s.
Proof.
  destruct s as [e d dd g sd gh f pl a7].
  unfold asgp_volControl, upd_sharedPtr, sharedPtr.
  destruct (muted e) eqn:Hm; repeat (progress (rsimpl; rewrite ?Hm));
    intros <-.
  - destruct dd; reflexivity.
  - destruct d; reflexivity.
Qed.

Lemma handle_0x24 (val : Z) (s : State) :
  handleSoundRegister 0x24 val s
  = if negb (Z.land (volControl (sharedPtr s)) 0x7 =? Z.land (u8 val) 0x7)
    then synchronizeSound
           (asgp_message (ishl GBSND_MASTER_VOLUME_COMMAND 20)
              (asgp_volControl (u8 val) s))
    else Some (asgp_volControl (u8 val) s).
Proof. reflexivity. Qed.

Lemma volControl_asgp (v : Z) (s : State) :
  volControl (sharedPtr (asgp_volControl v s)) = v /\
  eng (asgp_volControl v s) = eng s /\
  fifo (asgp_volControl v s) = fifo s /\
  message (sharedPtr (asgp_volControl v s)) = message (sharedPtr s).
Proof.
  unfold asgp_volControl.
  rewrite sharedPtr_upd.
  destruct (upd_sharedPtr_frame (set_volControl v) s) as (A & _ & B & _).
  auto.
Qed.

(** X7. A write to the master-volume register 0x24 always stores the byte
    in [volControl]; it sends the master-volume message only when the low
    three bits differ from those stored before.  Hence the write is
    idempotent: repeating it at once returns the very same state, sending
    nothing. *)
Theorem master_volume_write (val : Z) (s : State) :
  (forall s',
     handleSoundRegister 0x24 val s = Some s' ->
     volControl (sharedPtr s') = u8 val /\
     eng s' = eng s /\
     handleSoundRegister 0x24 val s' = Some s') /\
  (Z.land (volControl (sharedPtr s)) 0x7 = Z.land (u8 val) 0x7 ->
   handleSoundRegister 0x24 val s = Some (asgp_volControl (u8 val) s) /\
   fifo (asgp_volControl (u8 val) s) = fifo s /\
   message (sharedPtr (asgp_volControl (u8 val) s)) = message (sharedPtr s)) /\
  (Z.land (volControl (sharedPtr s)) 0x7 <> Z.land (u8 val) 0x7 ->
   handleSoundRegister 0x24 val s
   = synchronizeSound
       (asgp_message (ishl GBSND_MASTER_VOLUME_COMMAND 20)
          (asgp_volControl (u8 val) s))).
Proof.
  destruct (volControl_asgp (u8 val) s) as (V & Ee & Ef & Em).
  split; [|split].
  - intros s' H.
    assert (F : volControl (sharedPtr s') = u8 val /\ eng s' = eng s).
    { rewrite handle_0x24 in H. destruct (negb _).
      - destruct (send_message_keeps _ _ _ H) as (A & _ & B).
        split; [|congruence].
        rewrite <- V. exact (f_equal volControl B).
      - injection H as <-. auto. }
    destruct F as (F1 & F2). split; [exact F1|]. split; [exact F2|].
    rewrite handle_0x24, F1, Z.eqb_refl. cbn [negb].
    rewrite (asgp_volControl_same _ s' F1). reflexivity.
  - intros E. rewrite handle_0x24, E, Z.eqb_refl. auto.
  - intros N. rewrite handle_0x24. apply Z.eqb_neq in N. rewrite N. reflexivity.
Qed.

(** ** Message traffic *)

Lemma trafficR_same (s s' : State) :
  fifo s' = fifo s ->
  fifosSent (sharedData s') = fifosSent (sharedData s) ->
  printLog s' = printLog s ->
  trafficR s s'.
Proof.
  intros A B C. exists [], []. rewrite A, B, C, !app_nil_r.
  repeat split. constructor.
Qed.

Lemma trafficR_refl (s : State) : trafficR s s.
Proof. apply trafficR_same; reflexivity. Qed.

Lemma trafficR_trans (s1 s2 s3 : State) :
  trafficR s1 s2 -> trafficR s2 s3 -> trafficR s1 s3.
Proof.
  intros (l1 & ll1 & A1 & A2 & A3 & A4) (l2 & ll2 & B1 & B2 & B3 & B4).
  exists (l1 ++ l2), (ll1 ++ ll2).
  rewrite B1, A1, B3, A3, B2, A2, <- !app_assoc.
  split; [reflexivity|]. split.
  - unfold sentAfter. rewrite length_app, Nat.add_comm, Nat.iter_add.
    reflexivity.
  - split; [reflexivity|]. apply Forall_app. auto.
Qed.

Lemma trafficR_FIFO_SEND (m : Z) (s : State) : trafficR s (FIFO_SEND m s).
Proof.
  unfold FIFO_SEND. destruct (_ <? _).
  - exists [u32 m], []. rsimpl. rewrite app_nil_r. repeat split. constructor.
  - exists [], [soundError]. rsimpl. rewrite app_nil_r. repeat split.
    constructor; [reflexivity|constructor].
Qed.

Lemma trafficR_observe (s : State) : trafficR s (observe s).
Proof.
  unfold observe. destruct (arm7 s) as [|e rest]; [apply trafficR_refl|].
  apply trafficR_same; destruct e; reflexivity.
Qed.

Lemma trafficR_upd_sharedPtr (f : SharedData -> SharedData) (s : State) :
  (forall d, fifosSent (f d) = fifosSent d) ->
  trafficR s (upd_sharedPtr f s).
Proof.
  intros H. unfold upd_sharedPtr.
  destruct (muted (eng s)); apply trafficR_same; rsimpl; auto.
Qed.

Lemma trafficR_spinWait (n : nat) : forall (s s' : State),
  spinWait n s = Some s' -> trafficR s s'.
Proof.
  induction n as [|n IH]; intros s s' H; [discriminate|].
  cbn [spinWait] in H.
  pose proof (trafficR_observe s) as F1.
  pose proof (trafficR_observe (observe s)) as F2.
  destruct (cycles (sharedPtr (observe s)) =? -1).
  - injection H as <-. exact F1.
  - destruct (scaleTransferReady (sharedPtr (observe (observe s)))).
    + injection H as <-.
      eapply trafficR_trans; [exact F1|].
      eapply trafficR_trans; [exact F2|].
      eapply trafficR_trans; [|apply trafficR_FIFO_SEND].
      apply trafficR_upd_sharedPtr. reflexivity.
    + eapply trafficR_trans; [exact F1|].
      eapply trafficR_trans; [exact F2|].
      apply IH, H.
Qed.

Lemma trafficR_sync (s s' : State) :
  synchronizeSound s = Some s' -> trafficR s s'.
Proof.
  unfold synchronizeSound. cbv zeta.
  destruct (muted (eng s)).
  - intros H. injection H as <-. apply trafficR_refl.
  - destruct (_ && _).
    + intros H. eapply trafficR_trans; [|eapply trafficR_spinWait, H].
      apply trafficR_upd_sharedPtr. reflexivity.
    + intros H. injection H as <-. apply trafficR_FIFO_SEND.
Qed.

Lemma trafficR_OK : RelOK trafficR never.
Proof.
  apply RelOK_never.
  - apply trafficR_refl.
  - apply trafficR_trans.
  - apply trafficR_sync.
Qed.

Ltac traffic_step :=
  first
    [ apply trafficR_FIFO_SEND
    | cbv beta iota delta [sweepFire lengthStep];
      unfold_helpers; unfold unmute; split_state;
      apply trafficR_same; rsimpl; reflexivity ].

Lemma handleSoundRegister_trafficR ioReg val s :
  Ro trafficR never s (handleSoundRegister ioReg val s).
Proof.
  cbv beta delta [handleSoundRegister].
  rel_exec trafficR_OK traffic_step.
  by_register (u8 ioReg).
  all: rel_exec trafficR_OK traffic_step.
Qed.

Lemma envFire_trafficR i s : Ro trafficR never s (envFire i s).
Proof.
  cbv beta delta [envFire].
  rel_exec trafficR_OK traffic_step.
Qed.

Lemma notifyChanged_trafficR c s : Ro trafficR never s (notifyChanged (c, s)).
Proof.
  cbv beta iota delta [notifyChanged].
  rel_exec trafficR_OK traffic_step.
Qed.

Lemma updateSound_trafficR fuel cycles s s' :
  updateSound fuel cycles s = Some s' -> trafficR s s'.
Proof.
  apply (updateSound_R trafficR).
  - apply trafficR_refl.
  - apply trafficR_trans.
  - intros v x. traffic_step.
  - intros i v x. traffic_step.
  - intros v x. traffic_step.
  - intros x. traffic_step.
  - intros i x x' _ _ E. apply (envFire_trafficR i x), E.
  - intros cy i c x _. traffic_step.
  - intros c x x' E. apply (notifyChanged_trafficR c x), E.
Qed.

Lemma run_trafficR (calls : list Call) : forall s s',
  run calls s = Some s' -> trafficR s s'.
Proof.
  induction calls as [|c calls IH]; intros s s'; cbn [run].
  - intros E. injection E as <-. apply trafficR_refl.
  - intros E. apply bind_Some in E. destruct E as (x & E1 & E2).
    apply (trafficR_trans s x s'); [|apply IH; assumption].
    destruct c as [r v|fuel cycles]; cbn [call] in *.
    + apply (handleSoundRegister_trafficR r v s), E1.
    + apply (updateSound_trafficR fuel cycles), E1.
Qed.

Lemma refresh_trafficR s : Ro trafficR never s (refresh s).
Proof.
  apply (refresh_Ro _ _ trafficR_OK).
  - apply handleSoundRegister_trafficR.
  - intros x. traffic_step.
  - intros x. traffic_step.
  - intros x. traffic_step.
Qed.

(** X8. Accounting of the FIFO.  Over any sequence of register writes and
    advance calls, over [refresh], [init] and [synchronizeSound], and for
    [muteSND] and [unmuteSND], the FIFO only grows at its end (nothing
    queued is dropped or reordered), [fifosSent] is incremented exactly
    once per value appended, and the log only grows, by "Sound error"
    lines. *)
Theorem fifo_accounting :
  (forall calls s s', run calls s = Some s' -> trafficR s s') /\
  (forall s s', refresh s = Some s' -> trafficR s s') /\
  (forall s s', init s = Some s' -> trafficR s s') /\
  (forall s s', synchronizeSound s = Some s' -> trafficR s s') /\
  (forall s, trafficR s (muteSND s) /\ trafficR s (unmuteSND s)).
Proof.
  split; [exact run_trafficR|].
  split; [intros s s' E; exact (proj2 (refresh_trafficR s) s' E)|].
  split.
  { intros s s'. cbv beta zeta delta [init]. intros E.
    apply (proj2 (refresh_trafficR _)) in E.
    eapply trafficR_trans; [|exact E].
    apply trafficR_same; reflexivity. }
  split; [exact trafficR_sync|].
  intros s. split.
  - exists [u32 (ishl GBSND_MUTE_COMMAND 20)], [].
    unfold muteSND. rsimpl. rewrite app_nil_r. repeat split. constructor.
  - exists [u32 (ishl GBSND_UNMUTE_COMMAND 20)], [].
    unfold unmuteSND. rsimpl. rewrite app_nil_r. repeat split. constructor.
Qed.

(** ** The mute state *)

Lemma mute_frame_refl s : mute_frame s s.
Proof. unfold mute_frame. tauto. Qed.

Lemma mute_frame_trans s1 s2 s3 :
  mute_frame s1 s2 -> mute_frame s2 s3 -> mute_frame s1 s3.
Proof.
  unfold mute_frame.
  intros (A1 & A2 & A3 & A4 & A5) (B1 & B2 & B3 & B4 & B5).
  split; [congruence|]. split; [congruence|]. split; [congruence|]. split.
  - intros E. destruct (A4 E) as (? & ? & ? & ?).
    destruct (B4 ltac:(congruence)) as (? & ? & ? & ?).
    repeat split; congruence.
  - intros E. rewrite B5, A5 by congruence. reflexivity.
Qed.

Lemma mute_frame_OK : RelOK mute_frame is_muted.
Proof.
  constructor.
  - apply mute_frame_refl.
  - apply mute_frame_trans.
  - unfold mute_frame, is_muted. intros s s' (H & _) E. congruence.
  - intros s s' H. destruct (write_frame_sync s s' H) as (_ & A & B & C & D & E).
    unfold mute_frame. auto.
  - intros s Hm. rewrite (synchronizeSound_muted s Hm). discriminate.
Qed.

Ltac mute_step :=
  cbv beta iota delta [sweepFire lengthStep FIFO_SEND];
  unfold_helpers; split_state;
  unfold mute_frame; rsimpl_all;
  repeat match goal with H : _ |- _ => progress cbn [andb orb negb] in H end;
  repeat split; intros; try reflexivity; try congruence.

Lemma handleSoundRegister_mute_frame ioReg val s :
  Ro mute_frame is_muted s (handleSoundRegister ioReg val s).
Proof.
  destruct (handleSoundRegister_frame ioReg val s) as (A & B). split; [exact A|].
  intros s' E. destruct (B s' E) as (_ & F2 & F3 & F4 & F5 & F6).
  unfold mute_frame. auto.
Qed.

Lemma envFire_mute_frame i s : Ro mute_frame is_muted s (envFire i s).
Proof.
  cbv beta delta [envFire].
  rel_exec mute_frame_OK mute_step.
Qed.

Lemma notifyChanged_mute_frame c s :
  Ro mute_frame is_muted s (notifyChanged (c, s)).
Proof.
  cbv beta iota delta [notifyChanged].
  rel_exec mute_frame_OK mute_step.
Qed.

Lemma updateSound_mute_frame fuel cycles s s' :
  updateSound fuel cycles s = Some s' -> mute_frame s s'.
Proof.
  apply (updateSound_R mute_frame).
  - apply mute_frame_refl.
  - apply mute_frame_trans.
  - intros v x. mute_step.
  - intros i v x. mute_step.
  - intros v x. mute_step.
  - intros x. mute_step.
  - intros i x x' _ _ E. apply (envFire_mute_frame i x), E.
  - intros cy i c x _. mute_step.
  - intros c x x' E. apply (notifyChanged_mute_frame c x), E.
Qed.

Lemma run_mute_frame (calls : list Call) : forall s s',
  run calls s = Some s' -> mute_frame s s'.
Proof.
  induction calls as [|c calls IH]; intros s s'; cbn [run].
  - intros E. injection E as <-. apply mute_frame_refl.
  - intros E. apply bind_Some in E. destruct E as (x & E1 & E2).
    apply (mute_frame_trans s x s'); [|apply IH; assumption].
    destruct c as [r v|fuel cycles]; cbn [call] in *.
    + apply (handleSoundRegister_mute_frame r v s), E1.
    + apply (updateSound_mute_frame fuel cycles), E1.
Qed.

(** X9. While the engine is muted, advancing the timers, whatever fires,
    sends nothing: over any sequence of advance calls and register writes
    the real shared block, the FIFO, the log and the ARM7 script stay as
    they were and the engine stays muted (all effects go to the dummy
    block and to the CPU model).  While it is not muted the dummy block
    is never written.  Neither mode changes the two global flags. *)
Theorem muted_run_is_silent (calls : list Call) (s s' : State) :
  run calls s = Some s' ->
  muted (eng s') = muted (eng s) /\
  soundDisabled s' = soundDisabled s /\
  g_hyperSound s' = g_hyperSound s /\
  (muted (eng s) = true ->
   sharedData s' = sharedData s /\ fifo s' = fifo s /\
   printLog s' = printLog s /\ arm7 s' = arm7 s) /\
  (muted (eng s) = false -> dummySharedData s' = dummySharedData s).
Proof.
  intros E. exact (run_mute_frame calls s s' E).
Qed.

(** ** Timers that are not running *)

(** The step of a channel whose length is not enabled. *)
Lemma lengthStep_nolen i cycles c s :
  truthy (at_chanUseLen i s) = false -> lengthStep cycles i (c, s) = (c, s).
Proof.
  cbv beta iota delta [lengthStep]. intros ->. rewrite andb_false_r.
  reflexivity.
Qed.

Lemma lengthStep_idle i j cycles p :
  0 <= i < 4 -> 0 <= j < 4 ->
  truthy (at_chanUseLen i (snd p)) = false ->
  keepR i (snd p) (snd (lengthStep cycles j p)).
Proof.
  intros Hi Hj Hoff. destruct p as [c s]. cbn [snd] in *.
  destruct (Z.eq_dec i j) as [<-|N].
  - rewrite (lengthStep_nolen i cycles c s Hoff). apply keepR_refl.
  - apply lengthStep_keepR; assumption.
Qed.

Lemma lengthPass_idle i cycles c s :
  0 <= i < 4 ->
  truthy (at_chanUseLen i s) = false ->
  keepR i s (snd (lengthPass cycles (c, s))).
Proof.
  intros Hi Hoff. unfold lengthPass.
  pose proof (lengthStep_idle i 0 cycles (c, s) Hi ltac:(lia) Hoff) as K0.
  cbn [snd] in K0.
  assert (O0 : truthy (at_chanUseLen i (snd (lengthStep cycles 0 (c, s)))) = false)
    by (destruct K0 as (_ & _ & -> & _); exact Hoff).
  pose proof (lengthStep_idle i 1 cycles _ Hi ltac:(lia) O0) as K1.
  assert (O1 : truthy (at_chanUseLen i
                 (snd (lengthStep cycles 1 (lengthStep cycles 0 (c, s))))) = false)
    by (destruct K1 as (_ & _ & -> & _); exact O0).
  pose proof (lengthStep_idle i 2 cycles _ Hi ltac:(lia) O1) as K2.
  assert (O2 : truthy (at_chanUseLen i
                 (snd (lengthStep cycles 2 (lengthStep cycles 1
                    (lengthStep cycles 0 (c, s)))))) = false)
    by (destruct K2 as (_ & _ & -> & _); exact O1).
  pose proof (lengthStep_idle i 3 cycles _ Hi ltac:(lia) O2) as K3.
  exact (keepR_trans _ _ _ _ (keepR_trans _ _ _ _ (keepR_trans _ _ _ _ K0 K1) K2) K3).
Qed.

Lemma updateSound_nolen i fuel cycles s s' :
  0 < i < 4 ->
  updateSound fuel cycles s = Some s' ->
  truthy (at_chanUseLen i s) = false ->
  keepR i s s'.
Proof.
  intros Hi H Hoff. unfold updateSound in H.
  destruct (soundDisabled s); [injection H as <-; apply keepR_refl|].
  apply bind_Some in H. destruct H as ([c1 s1] & E1 & H).
  apply bind_Some in H. destruct H as ([c2 s2] & E2 & E3).
  pose proof (sweepPass_keepR i _ _ _ _ _ _ Hi E1) as K1.
  pose proof (envelopePass_keepR i _ _ _ _ _ _ E2) as K2.
  pose proof (keepR_trans _ _ _ _ K1 K2) as K12.
  assert (O2 : truthy (at_chanUseLen i s2) = false)
    by (destruct K12 as (_ & _ & -> & _); exact Hoff).
  pose proof (lengthPass_idle i cycles c2 s2 ltac:(lia) O2) as K3.
  destruct (lengthPass cycles (c2, s2)) as [c3 s3]. cbn [snd] in K3.
  destruct (notifyChanged_keepR i c3 s3) as (_ & N).
  exact (keepR_trans _ _ _ _ (keepR_trans _ _ _ _ K12 K3) (N s' E3)).
Qed.

(** X10. A channel other than channel 0 whose length is not enabled is
    never switched off by advancing the timers: over any sequence of
    advance calls its on-bit, its length counter and its count of
    deactivation signals stay as they are (only the sweep of channel 0
    and an enabled length counter ever clear an on-bit). *)
Theorem length_disabled_stays_on (i : Z) (calls : list Call) : forall s s',
  0 < i < 4 ->
  Forall isAdvance calls ->
  truthy (at_chanUseLen i s) = false ->
  run calls s = Some s' ->
  chanOnBit i s' = chanOnBit i s /\
  at_chanLenCounter i s' = at_chanLenCounter i s /\
  deactivations i s' = deactivations i s /\
  truthy (at_chanUseLen i s') = false.
Proof.
  induction calls as [|c calls IH]; intros s s' Hi Ha Hoff; cbn [run].
  - intros E. injection E as <-. auto.
  - intros E. apply bind_Some in E. destruct E as (x & E1 & E2).
    inversion Ha as [|c0 l0 Ha1 Ha2]; subst.
    destruct c as [r v|fuel cycles]; cbn [call isAdvance] in *; [contradiction|].
    destruct (updateSound_nolen i fuel cycles s x Hi E1 Hoff)
      as (_ & K2 & K3 & K4 & K5).
    destruct (IH x s' Hi Ha2 ltac:(rewrite K3; exact Hoff) E2)
      as (Y1 & Y2 & Y3 & Y4).
    repeat split; congruence.
Qed.

(** ** The next-event bound covers the running timers *)

Lemma sweepTimerR_OK : RelOK sweepTimerR never.
Proof.
  apply RelOK_never.
  - unfold sweepTimerR. tauto.
  - unfold sweepTimerR. intros s1 s2 s3 (A1 & A2) (B1 & B2). split; congruence.
  - intros s s' H. destruct (synchronizeSound_keeps s s' H) as (He & _).
    unfold sweepTimerR. rewrite He. tauto.
Qed.

Lemma envTimerR_OK i : RelOK (envTimerR i) never.
Proof.
  apply RelOK_never.
  - unfold envTimerR. tauto.
  - unfold envTimerR. intros s1 s2 s3 (A1 & A2 & A3) (B1 & B2 & B3).
    repeat split; congruence.
  - intros s s' H. destruct (synchronizeSound_keeps s s' H) as (He & _).
    unfold envTimerR, at_chanEnvCounter, at_chanEnvSweep, at_chanVol.
    rewrite He. tauto.
Qed.

Ltac timer_step :=
  cbv beta iota delta [sweepFire lengthStep FIFO_SEND];
  unfold_helpers; split_state;
  unfold sweepTimerR, envTimerR; rsimpl_all;
  repeat split; try reflexivity; try congruence.

(** *** Single steps *)

Lemma lengthStep_eventR cycles j c x :
  eventR x (snd (lengthStep cycles j (c, x))).
Proof. advance_step event_step. Qed.

Lemma lengthStep_noRestart cycles j c x :
  noRestart x (snd (lengthStep cycles j (c, x))).
Proof. advance_step restart_step. Qed.

Lemma lengthStep_sweepTimerR cycles j c x :
  sweepTimerR x (snd (lengthStep cycles j (c, x))).
Proof. timer_step. Qed.

Lemma lengthStep_envTimerR i cycles j c x :
  0 <= i < 4 -> envTimerR i x (snd (lengthStep cycles j (c, x))).
Proof. intros Hi. by_channel i Hi; timer_step. Qed.

Lemma notifyChanged_sweepTimerR c s :
  Ro sweepTimerR never s (notifyChanged (c, s)).
Proof.
  cbv beta iota delta [notifyChanged].
  rel_exec sweepTimerR_OK timer_step.
Qed.

Lemma notifyChanged_envTimerR i c s :
  0 <= i < 4 -> Ro (envTimerR i) never s (notifyChanged (c, s)).
Proof.
  intros Hi. cbv beta iota delta [notifyChanged].
  by_channel i Hi; (match goal with |- Ro (envTimerR ?k) _ _ _ => rel_exec (envTimerR_OK k) timer_step end).
Qed.

Lemma envFire_sweepTimerR j s : Ro sweepTimerR never s (envFire j s).
Proof.
  cbv beta delta [envFire].
  rel_exec sweepTimerR_OK timer_step.
Qed.

Lemma envStep_eventR fuel cycles j c s c' s' :
  envStep fuel cycles j (c, s) = Some (c', s') -> eventR s s'.
Proof.
  apply (envStep_R eventR).
  - apply (R_refl _ _ eventR_OK).
  - apply (R_trans _ _ eventR_OK).
  - intros v x. event_step.
  - intros v x. event_step.
  - intros _ x x' E. apply (envFire_eventR j x), E.
Qed.

Lemma envStep_noRestart fuel cycles j c s c' s' :
  envStep fuel cycles j (c, s) = Some (c', s') -> noRestart s s'.
Proof.
  apply (envStep_R noRestart).
  - apply (R_refl _ _ noRestart_OK).
  - apply (R_trans _ _ noRestart_OK).
  - intros v x. restart_step.
  - intros v x. restart_step.
  - intros _ x x' E. apply (envFire_noRestart j x), E.
Qed.

Lemma envStep_sweepTimerR fuel cycles j c s c' s' :
  envStep fuel cycles j (c, s) = Some (c', s') -> sweepTimerR s s'.
Proof.
  apply (envStep_R sweepTimerR).
  - apply (R_refl _ _ sweepTimerR_OK).
  - apply (R_trans _ _ sweepTimerR_OK).
  - intros v x. timer_step.
  - intros v x. timer_step.
  - intros _ x x' E. apply (envFire_sweepTimerR j x), E.
Qed.

Lemma envFire_envTimerR i j s s' :
  0 <= i < 4 -> 0 <= j < 4 -> i <> j ->
  envFire j s = Some s' -> envTimerR i s s'.
Proof.
  intros Hi Hj N E.
  destruct (envFire_timer j s s' Hj E) as (Ec & Es).
  pose proof (envFire_vol j s s' Hj E) as Ev.
  unfold envTimerR, at_chanEnvCounter, at_chanEnvSweep, at_chanVol.
  rewrite Ec, Es, Ev, !get4_set4_other by assumption. auto.
Qed.

Lemma envStep_envTimerR i fuel cycles j c s c' s' :
  0 <= i < 4 -> 0 <= j < 4 -> i <> j ->
  envStep fuel cycles j (c, s) = Some (c', s') -> envTimerR i s s'.
Proof.
  intros Hi Hj N. apply (envStep_R (envTimerR i)).
  - apply (R_refl _ _ (envTimerR_OK i)).
  - apply (R_trans _ _ (envTimerR_OK i)).
  - intros v x. by_channel i Hi; timer_step.
  - intros v x. unfold envTimerR, at_chanEnvCounter, at_chanEnvSweep, at_chanVol.
    rsimpl. rewrite get4_set4_other by assumption. auto.
  - intros _ x x'. apply envFire_envTimerR; assumption.
Qed.

(** *** Each pass leaves its own timer covered *)

Lemma setSoundEventCycles_le v s :
  cyclesToSoundEvent (eng (setSoundEventCycles v s)) <= v.
Proof.
  unfold setSoundEventCycles.
  destruct (cyclesToSoundEvent (eng s) >? v) eqn:E; rsimpl; lia.
Qed.

Lemma setSoundEventCycles_chanOnBit i v s :
  chanOnBit i (setSoundEventCycles v s) = chanOnBit i s.
Proof.
  unfold setSoundEventCycles, chanOnBit.
  destruct (cyclesToSoundEvent (eng s) >? v); [|reflexivity].
  split_state; rsimpl; reflexivity.
Qed.

Lemma sweepLoop_exit fuel : forall c s c' s',
  sweepLoop fuel c s = Some (c', s') -> 0 < chan1SweepCounter (eng s').
Proof.
  induction fuel as [|k IH]; intros c s c' s' H; cbn [sweepLoop] in H;
    destruct (chan1SweepCounter (eng s) <=? 0) eqn:E;
    try discriminate H.
  - injection H as _ <-. lia.
  - exact (IH _ _ _ _ H).
  - injection H as _ <-. lia.
Qed.

Lemma sweepPass_scheduled fuel cycles c s c' s' :
  sweepPass fuel cycles c s = Some (c', s') -> sweepScheduled s'.
Proof.
  unfold sweepPass. intros H.
  destruct (bitset (chanOn (sharedPtr s)) CHAN_1 &&
            truthy (chan1SweepTime (eng s))) eqn:Hc.
  - apply bind_Some in H. destruct H as ([c1 x] & E & H).
    cbn [fst snd] in H. injection H as _ <-.
    pose proof (sweepLoop_exit _ _ _ _ _ E) as Hpos.
    intros Hon _. change (chanOnBit 0 x) with (bitset (chanOn (sharedPtr x)) CHAN_1).
    destruct (bitset (chanOn (sharedPtr x)) CHAN_1) eqn:Hb.
    + pose proof (setSoundEventCycles_le (chan1SweepCounter (eng x)) x) as L.
      revert L. unfold setSoundEventCycles.
      destruct (_ >? _); rsimpl; auto.
    + change (chanOnBit 0 x) with (bitset (chanOn (sharedPtr x)) CHAN_1) in Hon.
      congruence.
  - injection H as _ <-. intros Hon Ht.
    change (chanOnBit 0 s) with (bitset (chanOn (sharedPtr s)) CHAN_1) in Hon.
    rewrite Hon, Ht in Hc. discriminate Hc.
Qed.

Lemma envLoop_exit fuel i : forall c s c' s',
  envLoop fuel i c s = Some (c', s') -> 0 < at_chanEnvCounter i s'.
Proof.
  induction fuel as [|k IH]; intros c s c' s' H; cbn [envLoop] in H;
    destruct (at_chanEnvCounter i s <=? 0) eqn:E;
    try discriminate H.
  - injection H as _ <-. lia.
  - apply bind_Some in H. destruct H as (x & _ & H). exact (IH _ _ _ _ H).
  - injection H as _ <-. lia.
Qed.

Lemma envStep_scheduled fuel cycles i c s c' s' :
  i <> 2 ->
  envStep fuel cycles i (c, s) = Some (c', s') -> envScheduled i s'.
Proof.
  intros N. cbv beta iota delta [envStep]. intros H.
  destruct (negb (i =? 2) && bitset (chanOn (sharedPtr s)) (Z.shiftl 1 i)) eqn:Hc.
  - destruct (truthy (at_chanEnvSweep i s)) eqn:Ht.
    + apply bind_Some in H. destruct H as ([c1 x] & E & H).
      cbn [fst snd] in H. injection H as _ <-.
      pose proof (envLoop_exit _ _ _ _ _ _ E) as Hpos.
      destruct (negb (at_chanVol i x =? 0) && negb (at_chanVol i x =? 0xF)) eqn:Hv.
      * intros _ _ _ _.
        pose proof (setSoundEventCycles_le (at_chanEnvCounter i x) x) as L.
        revert L. unfold setSoundEventCycles.
        destruct (_ >? _); unfold at_chanEnvCounter in *; rsimpl; auto.
      * intros _ _ V0 V15. exfalso.
        apply andb_false_iff in Hv. rewrite !negb_false_iff, !Z.eqb_eq in Hv.
        tauto.
    + injection H as _ <-. intros _ Ht'. congruence.
  - injection H as _ <-. intros Hon _. unfold chanOnBit in Hon.
    rewrite Hon, andb_true_r in Hc.
    apply negb_false_iff, Z.eqb_eq in Hc. contradiction.
Qed.

Lemma lengthStep_scheduled cycles i c s :
  0 <= i < 4 -> lenScheduled i (snd (lengthStep cycles i (c, s))).
Proof.
  intros Hi Hon' Hlen'.
  destruct (chanOnBit i s) eqn:Hon;
    [destruct (truthy (at_chanUseLen i s)) eqn:Hlen|].
  - destruct (Z_le_gt_dec (isub (at_chanLenCounter i s) cycles) 0) as [L|G].
    + destruct (lengthStep_expire i cycles c s Hi Hon Hlen L) as (_ & _ & F & _).
      congruence.
    + clear Hon' Hlen'. unfold chanOnBit in Hon.
      cbv beta iota zeta delta [lengthStep]. rewrite Hon, Hlen. cbn [andb].
      assert (E : at_chanLenCounter i
                    (asg_chanLenCounter i (isub (at_chanLenCounter i s) cycles) s)
                  = isub (at_chanLenCounter i s) cycles)
        by (by_channel i Hi; unfold at_chanLenCounter; rsimpl; reflexivity).
      rewrite E. destruct (Z.leb_spec (isub (at_chanLenCounter i s) cycles) 0);
        [lia|]. cbn [snd].
      set (x := asg_chanLenCounter i _ s) in *.
      pose proof (setSoundEventCycles_le (isub (at_chanLenCounter i s) cycles) x)
        as Le.
      revert Le. unfold setSoundEventCycles.
      destruct (_ >? _); rewrite <- E; unfold at_chanLenCounter in *;
        rsimpl; lia.
  - rewrite lengthStep_nolen in Hlen' by exact Hlen. cbn [snd] in Hlen'.
    congruence.
  - revert Hon'. unfold chanOnBit in Hon.
    cbv beta iota zeta delta [lengthStep]. rewrite Hon. cbn [andb snd].
    unfold chanOnBit. congruence.
Qed.

(** *** A covered timer stays covered through the later passes *)

Lemma chanOnBit_noRestart i x x' :
  0 <= i -> noRestart x x' -> chanOnBit i x' = true -> chanOnBit i x = true.
Proof.
  intros Hi N H. destruct (chanOnBit i x) eqn:E; [reflexivity|].
  rewrite (noRestart_bit i x x' Hi N E) in H. discriminate.
Qed.

Lemma sweepScheduled_kept x x' :
  sweepTimerR x x' -> eventR x x' -> noRestart x x' ->
  sweepScheduled x -> sweepScheduled x'.
Proof.
  intros (Ec & Et) Ev N P Hon Ht. unfold eventR in Ev.
  rewrite Ec. rewrite Et in Ht.
  destruct (P (chanOnBit_noRestart 0 x x' ltac:(lia) N Hon) Ht). lia.
Qed.

Lemma envScheduled_kept i x x' :
  0 <= i ->
  envTimerR i x x' -> eventR x x' -> noRestart x x' ->
  envScheduled i x -> envScheduled i x'.
Proof.
  intros Hi (Ec & Es & Evol) Ev N P Hon Ht V0 V15. unfold eventR in Ev.
  rewrite Ec. rewrite Es in Ht. rewrite Evol in V0, V15.
  destruct (P (chanOnBit_noRestart i x x' Hi N Hon) Ht V0 V15). lia.
Qed.

Lemma lenScheduled_kept i x x' :
  keepR i x x' -> eventR x x' -> lenScheduled i x -> lenScheduled i x'.
Proof.
  intros (_ & Eb & Eu & Ec & _) Ev P Hon Ht. unfold eventR in Ev.
  rewrite Ec. rewrite Eb in Hon. rewrite Eu in Ht.
  destruct (P Hon Ht). lia.
Qed.

Lemma laterPasses_sweepScheduled fuel cycles c s cs s' :
  envelopePass fuel cycles (c, s) = Some cs ->
  notifyChanged (lengthPass cycles cs) = Some s' ->
  sweepScheduled s -> sweepScheduled s'.
Proof.
  intros E2 E3. apply sweepScheduled_kept.
  - revert E2 E3. apply (laterPasses_R sweepTimerR).
    + apply (R_refl _ _ sweepTimerR_OK).
    + apply (R_trans _ _ sweepTimerR_OK).
    + intros i v x. timer_step.
    + intros v x. timer_step.
    + intros i x x' _ _ E. apply (envFire_sweepTimerR i x), E.
    + intros cy i c0 x _. apply lengthStep_sweepTimerR.
    + intros c0 x x' E. apply (notifyChanged_sweepTimerR c0 x), E.
  - revert E2 E3. apply (laterPasses_R eventR).
    + apply (R_refl _ _ eventR_OK).
    + apply (R_trans _ _ eventR_OK).
    + intros i v x. event_step.
    + intros v x. event_step.
    + intros i x x' _ _ E. apply (envFire_eventR i x), E.
    + intros cy i c0 x _. apply lengthStep_eventR.
    + intros c0 x x' E. apply (notifyChanged_eventR c0 x), E.
  - exact (laterPasses_noRestart _ _ _ _ _ _ E2 E3).
Qed.

Lemma envStep_envScheduled i fuel cycles j c x c' x' :
  0 <= i < 4 -> 0 <= j < 4 -> i <> j ->
  envStep fuel cycles j (c, x) = Some (c', x') ->
  envScheduled i x -> envScheduled i x'.
Proof.
  intros Hi Hj N E. apply envScheduled_kept.
  - lia.
  - exact (envStep_envTimerR i _ _ _ _ _ _ _ Hi Hj N E).
  - exact (envStep_eventR _ _ _ _ _ _ _ E).
  - exact (envStep_noRestart _ _ _ _ _ _ _ E).
Qed.

Lemma lengthStep_envScheduled i cycles j p :
  0 <= i < 4 ->
  envScheduled i (snd p) -> envScheduled i (snd (lengthStep cycles j p)).
Proof.
  intros Hi. destruct p as [c x]. cbn [snd]. apply envScheduled_kept.
  - lia.
  - apply lengthStep_envTimerR, Hi.
  - apply lengthStep_eventR.
  - apply lengthStep_noRestart.
Qed.

Lemma lengthPass_envScheduled i cycles p :
  0 <= i < 4 ->
  envScheduled i (snd p) -> envScheduled i (snd (lengthPass cycles p)).
Proof.
  intros Hi P. unfold lengthPass.
  repeat apply lengthStep_envScheduled; assumption.
Qed.

Lemma notifyChanged_envScheduled i p s' :
  0 <= i < 4 ->
  notifyChanged p = Some s' -> envScheduled i (snd p) -> envScheduled i s'.
Proof.
  intros Hi E. destruct p as [c x]. cbn [snd]. apply envScheduled_kept.
  - lia.
  - apply (notifyChanged_envTimerR i c x Hi), E.
  - apply (notifyChanged_eventR c x), E.
  - apply (notifyChanged_noRestart c x), E.
Qed.

Lemma lengthStep_lenScheduled i cycles j p :
  0 <= i < 4 -> 0 <= j < 4 -> i <> j ->
  lenScheduled i (snd p) -> lenScheduled i (snd (lengthStep cycles j p)).
Proof.
  intros Hi Hj N. destruct p as [c x]. cbn [snd]. apply lenScheduled_kept.
  - apply lengthStep_keepR; assumption.
  - apply lengthStep_eventR.
Qed.

Lemma notifyChanged_lenScheduled i p s' :
  notifyChanged p = Some s' -> lenScheduled i (snd p) -> lenScheduled i s'.
Proof.
  intros E. destruct p as [c x]. cbn [snd]. apply lenScheduled_kept.
  - apply (notifyChanged_keepR i c x), E.
  - apply (notifyChanged_eventR c x), E.
Qed.

Lemma lengthStep_here cycles i p :
  0 <= i < 4 -> lenScheduled i (snd (lengthStep cycles i p)).
Proof. destruct p as [c x]. apply lengthStep_scheduled. Qed.

(** X11. Whenever [updateSound] returns with the sound enabled, every
    timer that is still running is covered by the next-event bound: for
    the sweep timer of channel 0, the envelope timers of channels 0, 1
    and 3 (while the volume is strictly between 0 and 15) and the length
    timers of all four channels, the counter is positive and
    [cyclesToSoundEvent] is at most the counter, so the next scheduled
    call comes no later than the earliest running timer. *)
Theorem updateSound_schedules_next_event (fuel : nat) (cycles : Z) (s s' : State) :
  soundDisabled s = false ->
  updateSound fuel cycles s = Some s' ->
  sweepScheduled s' /\
  (forall i, i = 0 \/ i = 1 \/ i = 3 -> envScheduled i s') /\
  (forall i, 0 <= i < 4 -> lenScheduled i s').
Proof.
  intros Hen H. unfold updateSound in H. rewrite Hen in H.
  apply bind_Some in H. destruct H as ([c1 s1] & E1 & H).
  apply bind_Some in H. destruct H as ([c2 s2] & E2 & E3).
  split; [|split].
  - exact (laterPasses_sweepScheduled _ _ _ _ _ _ E2 E3
             (sweepPass_scheduled _ _ _ _ _ _ E1)).
  - intros i Hi.
    apply (notifyChanged_envScheduled i _ _ ltac:(lia) E3).
    apply lengthPass_envScheduled; [lia|]. cbn [snd].
    unfold envelopePass in E2.
    apply bind_Some in E2. destruct E2 as ([ca sa] & Ea & E2).
    apply bind_Some in E2. destruct E2 as ([cb sb] & Eb & E2).
    apply bind_Some in E2. destruct E2 as ([cc sc] & Ec & Ed).
    destruct Hi as [Hi|[Hi|Hi]]; subst i.
    + apply (envStep_envScheduled 0 _ _ 3 _ _ _ _ ltac:(lia) ltac:(lia) ltac:(lia) Ed).
      apply (envStep_envScheduled 0 _ _ 2 _ _ _ _ ltac:(lia) ltac:(lia) ltac:(lia) Ec).
      apply (envStep_envScheduled 0 _ _ 1 _ _ _ _ ltac:(lia) ltac:(lia) ltac:(lia) Eb).
      exact (envStep_scheduled _ _ 0 _ _ _ _ ltac:(lia) Ea).
    + apply (envStep_envScheduled 1 _ _ 3 _ _ _ _ ltac:(lia) ltac:(lia) ltac:(lia) Ed).
      apply (envStep_envScheduled 1 _ _ 2 _ _ _ _ ltac:(lia) ltac:(lia) ltac:(lia) Ec).
      exact (envStep_scheduled _ _ 1 _ _ _ _ ltac:(lia) Eb).
    + exact (envStep_scheduled _ _ 3 _ _ _ _ ltac:(lia) Ed).
  - intros i Hi.
    apply (notifyChanged_lenScheduled i _ _ E3). unfold lengthPass.
    by_channel i Hi.
    + apply lengthStep_lenScheduled; try lia.
      apply lengthStep_lenScheduled; try lia.
      apply lengthStep_lenScheduled; try lia.
      apply lengthStep_here; lia.
    + apply lengthStep_lenScheduled; try lia.
      apply lengthStep_lenScheduled; try lia.
      apply lengthStep_here; lia.
    + apply lengthStep_lenScheduled; try lia.
      apply lengthStep_here; lia.
    + apply lengthStep_here; lia.
Qed.

(** ** The wait loop of [synchronizeSound] *)

(** What the ARM7 does between two reads is no traffic of the ARM9. *)
Lemma observe_silent (s : State) :
  fifo (observe s) = fifo s /\
  printLog (observe s) = printLog s /\
  fifosSent (sharedData (observe s)) = fifosSent (sharedData s) /\
  message (sharedData (observe s)) = message (sharedData s).
Proof.
  unfold observe. destruct (arm7 s) as [|e rest]; [tauto|].
  destruct e; unfold arm7_step; rsimpl; tauto.
Qed.

Lemma iter_spinIter_silent (j : nat) (s : State) :
  fifo (Nat.iter j spinIter s) = fifo s /\
  printLog (Nat.iter j spinIter s) = printLog s /\
  fifosSent (sharedData (Nat.iter j spinIter s)) = fifosSent (sharedData s) /\
  message (sharedData (Nat.iter j spinIter s)) = message (sharedData s).
Proof.
  induction j as [|j IH]; [cbn; tauto|].
  rewrite Nat.iter_succ. unfold spinIter at 1 3 5 7.
  destruct (observe_silent (observe (Nat.iter j spinIter s))) as (A1 & A2 & A3 & A4).
  destruct (observe_silent (Nat.iter j spinIter s)) as (B1 & B2 & B3 & B4).
  destruct IH as (C1 & C2 & C3 & C4).
  repeat split; congruence.
Qed.

(** X12. The handshake of [synchronizeSound]: once the wait is entered
    (engine not muted, hyper-sync mode, no scale transfer pending, frame
    flags in phase, the ARM7 behind the computed cycle count), (1) at the
    first turn of the loop whose first read sees [cycles] back at -1 the
    call returns without sending anything: the FIFO, the count of sent
    messages, the log and the pending message are as before the call;
    (2) if no turn ever sees the acknowledgement or the scale-transfer
    flag, the call does not return. *)
Theorem synchronizeSound_handshake (s : State) :
  muted (eng s) = false ->
  hyperSound (sharedData s) = true ->
  scaleTransferReady (sharedData s) = false ->
  frameFlip_Gameboy (sharedData s) = frameFlip_DS (sharedData s) ->
  dsCycles (sharedData s) < targetCycles s ->
  let w := upd_sharedData (set_cycles (targetCycles s)) s in
  (forall j : nat,
     let t := Nat.iter j spinIter w in
     (forall i, (i < j)%nat -> noExit (Nat.iter i spinIter w)) ->
     cycles (sharedData (observe t)) = -1 ->
     synchronizeSound s = Some (observe t) /\
     fifo (observe t) = fifo s /\
     fifosSent (sharedData (observe t)) = fifosSent (sharedData s) /\
     printLog (observe t) = printLog s /\
     message (sharedData (observe t)) = message (sharedData s)) /\
  ((forall i, noExit (Nat.iter i spinIter w)) -> synchronizeSound s = None).
Proof.
  intros Hm Hh Hr Hf Hd w.
  assert (Hmw : muted (eng w) = false) by exact Hm.
  split.
  - intros j t Hno Hc. split.
    + rewrite synchronizeSound_wait by assumption. fold w.
      assert (Hj : (j <= List.length (arm7 s))%nat).
      { change (arm7 s) with (arm7 w). apply exit_turn_bound; [exact Hno|].
        fold t. intros (Hn & _). contradiction. }
      replace (S (List.length (arm7 s)))
        with (j + S (List.length (arm7 s) - j))%nat by lia.
      rewrite (spinWait_skip j _ w Hmw Hno). fold t.
      apply spinWait_ack; [|exact Hc].
      unfold t. rewrite muted_iter_spinIter. exact Hmw.
    + destruct (observe_silent t) as (A1 & A2 & A3 & A4).
      destruct (iter_spinIter_silent j w) as (B1 & B2 & B3 & B4).
      change (fifo w) with (fifo s) in B1.
      change (printLog w) with (printLog s) in B2.
      change (fifosSent (sharedData w)) with (fifosSent (sharedData s)) in B3.
      change (message (sharedData w)) with (message (sharedData s)) in B4.
      fold t in B1, B2, B3, B4.
      repeat split; congruence.
  - intros Hno.
    rewrite synchronizeSound_wait by assumption. fold w.
    replace (S (List.length (arm7 s)))
      with (S (List.length (arm7 s)) + 0)%nat by lia.
    rewrite (spinWait_skip _ _ w Hmw (fun i _ => Hno i)). reflexivity.
Qed.

(** ** Channels disabled by the user *)

Lemma frozenR_refl i s : frozenR i s s.
Proof. unfold frozenR. tauto. Qed.

Lemma frozenR_trans i s1 s2 s3 :
  frozenR i s1 s2 -> frozenR i s2 s3 -> frozenR i s1 s3.
Proof.
  unfold frozenR. intros (A1 & A2 & A3) (B1 & B2 & B3).
  split; [congruence|]. split; [congruence|].
  intros E. rewrite B3, A3 by congruence. reflexivity.
Qed.

Lemma frozenR_sync i s s' : synchronizeSound s = Some s' -> frozenR i s s'.
Proof.
  intros H. destruct (sync_frame_synchronizeSound s s' H)
    as (F1 & _ & F3 & _ & _ & F6).
  unfold frozenR, sharedPtr. rewrite F1, F3.
  destruct (muted (eng s)); [tauto|].
  rewrite (f_equal chanEnabled F6 : chanEnabled (sharedData s') = _).
  rewrite (f_equal chanRealVol F6 : chanRealVol (sharedData s') = _).
  unfold protoErase. rsimpl. tauto.
Qed.

Lemma frozenR_OK i : RelOK (frozenR i) never.
Proof.
  apply RelOK_never.
  - apply frozenR_refl.
  - apply frozenR_trans.
  - apply frozenR_sync.
Qed.

Ltac frozen_step :=
  cbv beta iota delta [sweepFire lengthStep FIFO_SEND];
  unfold_helpers; unfold frozenR, sharedPtr in *; split_state;
  try solve [closed_contra];
  rsimpl_all;
  repeat match goal with
         | Hm : muted (eng ?x) = _,
           H : context [if muted (eng ?x) then _ else _] |- _ =>
             rewrite Hm in H
         end;
  repeat split; intros; try reflexivity; try congruence;
  match goal with
  | Hoff : ?e = false, H : (_ || negb ?e) = false |- _ =>
      rewrite Hoff, orb_true_r in H; discriminate H
  end.

Lemma handleSoundRegister_frozenR i ioReg val s :
  0 <= i < 4 -> Ro (frozenR i) never s (handleSoundRegister ioReg val s).
Proof.
  intros Hi. cbv beta delta [handleSoundRegister].
  by_channel i Hi.
  all: match goal with
       | |- Ro (frozenR ?k) _ _ _ =>
           rel_exec (frozenR_OK k) frozen_step;
           by_register (u8 ioReg);
           rel_exec (frozenR_OK k) frozen_step
       end.
Qed.


Lemma envFire_frozenR i j s :
  0 <= i < 4 -> 0 <= j < 4 -> Ro (frozenR i) never s (envFire j s).
Proof.
  intros Hi Hj. cbv beta delta [envFire].
  by_channel i Hi; by_channel j Hj.
  all: match goal with
       | |- Ro (frozenR ?k) _ _ _ => rel_exec (frozenR_OK k) frozen_step
       end.
Qed.

Lemma notifyChanged_frozenR i c s :
  0 <= i < 4 -> Ro (frozenR i) never s (notifyChanged (c, s)).
Proof.
  intros Hi. cbv beta iota delta [notifyChanged].
  by_channel i Hi.
  all: match goal with
       | |- Ro (frozenR ?k) _ _ _ => rel_exec (frozenR_OK k) frozen_step
       end.
Qed.

Lemma updateSound_frozenR i fuel cycles s s' :
  0 <= i < 4 -> updateSound fuel cycles s = Some s' -> frozenR i s s'.
Proof.
  intros Hi. apply (updateSound_R (frozenR i)).
  - apply frozenR_refl.
  - apply frozenR_trans.
  - intros v x. by_channel i Hi; frozen_step.
  - intros j v x. by_channel i Hi; frozen_step.
  - intros v x. by_channel i Hi; frozen_step.
  - intros x. by_channel i Hi; frozen_step.
  - intros j x x' Hj _ E. apply (envFire_frozenR i j x Hi Hj), E.
  - intros cy j c x _. by_channel i Hi; frozen_step.
  - intros c x x' E. apply (notifyChanged_frozenR i c x Hi), E.
Qed.

Lemma run_frozenR i (calls : list Call) : forall s s',
  0 <= i < 4 -> run calls s = Some s' -> frozenR i s s'.
Proof.
  induction calls as [|c calls IH]; intros s s' Hi; cbn [run].
  - intros E. injection E as <-. apply frozenR_refl.
  - intros E. apply bind_Some in E. destruct E as (x & E1 & E2).
    apply (frozenR_trans i s x s'); [|apply IH; assumption].
    destruct c as [r v|fuel cycles]; cbn [call] in *.
    + apply (handleSoundRegister_frozenR i r v s Hi), E1.
    + apply (updateSound_frozenR i fuel cycles _ _ Hi E1).
Qed.

(** X13. A channel switched off by the user keeps its volume: after
    [disableChannel i], no register write and no advance of the timers
    changes [chanRealVol[i]] of the shared block (an envelope step or a
    volume write still updates the engine's own [chanVol[i]], but
    [refreshSoundVolume] returns before the shared volume is touched),
    and the channel stays disabled. *)
Theorem disabled_channel_volume_frozen (i : Z) (calls : list Call) (s s' : State) :
  0 <= i < 4 ->
  run calls (disableChannel i s) = Some s' ->
  get4 i (chanEnabled (sharedData s')) = false /\
  get4 i (chanRealVol (sharedData s')) = get4 i (chanRealVol (sharedData s)).
Proof.
  intros Hi E.
  pose proof (run_frozenR i calls _ _ Hi E) as (Fm & Fe & Fv).
  pose proof (run_mute_frame calls _ _ E) as (_ & _ & _ & Mm & _).
  assert (Hoff : get4 i (chanEnabled (sharedData (disableChannel i s))) = false)
    by (by_channel i Hi; reflexivity).
  assert (Hvol : get4 i (chanRealVol (sharedData (disableChannel i s)))
                 = get4 i (chanRealVol (sharedData s))) by reflexivity.
  change (muted (eng (disableChannel i s))) with (muted (eng s)) in *.
  destruct (muted (eng s)) eqn:Hm.
  - destruct (Mm eq_refl) as (Ed & _). rewrite Ed. auto.
  - unfold sharedPtr in Fe, Fv. rewrite Fm in Fe, Fv.
    change (muted (eng (disableChannel i s))) with (muted (eng s)) in Fe, Fv.
    rewrite Hm in Fe, Fv. split; [congruence|].
    rewrite (Fv Hoff). exact Hvol.
Qed.

(** ** The ranges of the sound parameters *)

Lemma within_land (hi m a : Z) : 0 <= m <= hi -> within 0 hi (Z.land a m).
Proof.
  intros Hm. pose proof (land_mask_bound a m ltac:(lia)). unfold within. lia.
Qed.

Lemma within_u8 (val : Z) : within 0 255 (u8 val).
Proof. pose proof (u8_range val). unfold within. lia. Qed.

Lemma within_shr4 (val : Z) : within 0 15 (Z.shiftr (u8 val) 4).
Proof.
  pose proof (u8_range val) as U. unfold within.
  rewrite Z.shiftr_div_pow2 by lia. change (2 ^ 4) with 16.
  split; [apply Z.div_pos; lia|].
  apply Z.lt_succ_r. apply Z.div_lt_upper_bound; lia.
Qed.

Lemma within_freq_land (f m : Z) :
  within 0 0x7FF f -> within 0 0x7FF (Z.land f m).
Proof.
  unfold within. intros Hf.
  pose proof (land_mask_bound m f ltac:(lia)) as L.
  rewrite (Z.land_comm f m). lia.
Qed.

Lemma within_freq_lor (f v : Z) :
  within 0 0x7FF f -> within 0 0x7FF v -> within 0 0x7FF (Z.lor f v).
Proof.
  unfold within. intros Hf Hv.
  pose proof (lor_below 11 f v ltac:(lia)) as B.
  change (2 ^ 11) with 2048 in B. lia.
Qed.

Lemma within_freq_high (v : Z) :
  within 0 0x7FF (Z.shiftl (Z.land v 7) 8).
Proof.
  pose proof (land_mask_bound v 7 ltac:(lia)) as L. unfold within.
  rewrite Z.shiftl_mul_pow2 by lia. change (2 ^ 8) with 256. lia.
Qed.

Lemma within_freq_u8 (val : Z) : within 0 0x7FF (u8 val).
Proof. pose proof (u8_range val). unfold within. lia. Qed.

Lemma rangesR_OK : RelOK rangesR never.
Proof.
  apply RelOK_never.
  - unfold rangesR. tauto.
  - unfold rangesR. tauto.
  - intros s s' H. destruct (synchronizeSound_keeps s s' H) as (He & _).
    unfold rangesR, rangesOK, at_chanEnvSweep, at_chanEnvDir, at_chanLen,
      at_chanUseLen, at_chanFreq.
    rewrite He. tauto.
Qed.

Ltac ranges_side :=
  first
    [ assumption
    | apply within_land; lia
    | apply within_u8
    | apply within_shr4
    | apply within_freq_land; assumption
    | apply within_freq_lor;
        [assumption | first [apply within_freq_u8 | apply within_freq_high]]
    | unfold within; lia ].

Ltac ranges_step :=
  cbv beta iota delta [sweepFire lengthStep FIFO_SEND];
  unfold_helpers; unfold unmute; split_state;
  try solve [closed_contra];
  unfold rangesR, rangesOK; rsimpl_all; subst;
  let H := fresh "Hok" in
  intros H; decompose [and] H; clear H;
  repeat match goal with |- _ /\ _ => split end;
  ranges_side.

Lemma handleSoundRegister_rangesR ioReg val s :
  Ro rangesR never s (handleSoundRegister ioReg val s).
Proof.
  cbv beta delta [handleSoundRegister].
  rel_exec rangesR_OK ranges_step.
  by_register (u8 ioReg).
  all: rel_exec rangesR_OK ranges_step.
Qed.


Lemma freq0R_OK : RelOK freq0R never.
Proof.
  apply RelOK_never.
  - unfold freq0R. tauto.
  - unfold freq0R. intros s1 s2 s3 (A1 & A2) (B1 & B2).
    split; [congruence|tauto].
  - intros s s' H. destruct (sync_frame_synchronizeSound s s' H)
      as (F1 & _ & F3 & _ & _ & F6).
    unfold freq0R, chanOnBit, at_chanFreq, sharedPtr. rewrite F1, F3.
    split; [reflexivity|].
    destruct (muted (eng s)); [tauto|].
    rewrite (f_equal chanOn F6 : chanOn (sharedData s') = _).
    unfold protoErase. rsimpl. tauto.
Qed.

Lemma testbit_lor_clear (c m : Z) :
  Z.testbit m 0 = false ->
  Z.testbit (Z.lor c m) 0 = true -> Z.testbit c 0 = true.
Proof. intros Hm. rewrite Z.lor_spec, Hm, orb_false_r. auto. Qed.

Ltac freq0_step :=
  cbv beta iota delta [sweepFire lengthStep FIFO_SEND];
  unfold_helpers; unfold freq0R, chanOnBit, sharedPtr, unmute; split_state;
  try solve [closed_contra];
  rsimpl_all;
  (split; [ first [reflexivity | congruence] | ]);
  rewrite ?bitset_testbit in * by lia;
  let Hn := fresh "Hn" in
  intros Hn;
  first [ exact Hn
        | congruence
        | apply testbit_land_l in Hn; exact Hn
        | apply testbit_lor_clear in Hn; [exact Hn | reflexivity]
        | rewrite Z.bits_0 in Hn; discriminate Hn ].

Lemma handleSoundRegister_freq0R ioReg val s :
  u8 ioReg <> 0x13 -> u8 ioReg <> 0x14 ->
  Ro freq0R never s (handleSoundRegister ioReg val s).
Proof.
  cbv beta delta [handleSoundRegister].
  rel_exec freq0R_OK freq0_step.
  by_register (u8 ioReg); intros N3 N4;
    try (exfalso; apply N3; reflexivity);
    try (exfalso; apply N4; reflexivity).
  all: rel_exec freq0R_OK freq0_step.
Qed.

Lemma handleSoundRegister_u8 ioReg val s :
  handleSoundRegister ioReg val s = handleSoundRegister (u8 ioReg) val s.
Proof.
  cbv beta zeta delta [handleSoundRegister].
  rewrite (u8_id (u8 ioReg)) by apply u8_range. reflexivity.
Qed.

Lemma handleSoundRegister_freq0 ioReg val s s' :
  u8 ioReg = 0x13 \/ u8 ioReg = 0x14 ->
  handleSoundRegister ioReg val s = Some s' ->
  within 0 0x7FF (at_chanFreq 0 s').
Proof.
  intros Hr E. rewrite handleSoundRegister_u8 in E. unfold within.
  destruct Hr as [Hr|Hr]; rewrite Hr in E.
  - destruct (freq_write_low 0 val s s' ltac:(left; reflexivity) E) as (-> & _).
    apply freq_low_range. pose proof (u8_range val). lia.
  - destruct (freq_write_high 0 val s s' ltac:(left; reflexivity) E) as (-> & _).
    apply freq_high_range.
Qed.

Lemma paramsR_of s s' : rangesR s s' -> freq0R s s' -> paramsR s s'.
Proof.
  intros W (Ef & Eb) (A & B). split; [exact (W A)|].
  intros Hon. rewrite Ef. exact (B (Eb Hon)).
Qed.

Lemma paramsR_all_of s s' : rangesR s s' -> freq0R s s' -> paramsR_all s s'.
Proof.
  intros W (Ef & _) (A & B). split; [exact (W A)|]. rewrite Ef. exact B.
Qed.

Lemma handleSoundRegister_paramsOK ioReg val s s' :
  handleSoundRegister ioReg val s = Some s' ->
  paramsR s s' /\ paramsR_all s s'.
Proof.
  intros E.
  destruct (handleSoundRegister_rangesR ioReg val s) as (_ & W).
  specialize (W s' E).
  destruct (Z.eq_dec (u8 ioReg) 0x13) as [H3|N3];
    [|destruct (Z.eq_dec (u8 ioReg) 0x14) as [H4|N4]].
  - pose proof (handleSoundRegister_freq0 ioReg val s s' (or_introl H3) E) as F.
    split; intros (A & _); (split; [exact (W A)|auto]).
  - pose proof (handleSoundRegister_freq0 ioReg val s s' (or_intror H4) E) as F.
    split; intros (A & _); (split; [exact (W A)|auto]).
  - destruct (handleSoundRegister_freq0R ioReg val s N3 N4) as (_ & F).
    specialize (F s' E).
    split; [apply paramsR_of | apply paramsR_all_of]; assumption.
Qed.


Lemma sweepNext_range (s : State) :
  within 0 0x7FF (at_chanFreq 0 s) ->
  within 0 7 (chan1SweepAmount (eng s)) ->
  within (-1) 1 (chan1SweepDir (eng s)) ->
  0 <= sweepNext s.
Proof.
  unfold within, sweepNext, iadd, imul, ishr.
  set (f := at_chanFreq 0 s). set (a := chan1SweepAmount (eng s)).
  set (d := chan1SweepDir (eng s)). intros Hf Ha Hd.
  assert (Q : 0 <= Z.shiftr f a <= f).
  { rewrite Z.shiftr_div_pow2 by lia.
    assert (P : 0 < 2 ^ a) by (apply Z.pow_pos_nonneg; lia).
    split; [apply Z.div_pos; lia|].
    apply Z.div_le_upper_bound; [exact P|]. nia. }
  assert (B : - f <= Z.shiftr f a * d <= f) by nia.
  rewrite (int32_id (Z.shiftr f a * d)) by lia.
  rewrite int32_id by lia. lia.
Qed.

Lemma sweepFire_paramsR (s : State) : paramsR s (sweepFire s).
Proof.
  intros (A & B). split.
  - revert A. change (rangesR s (sweepFire s)). ranges_step.
  - destruct (sweepFire_spec s) as (Ef & Hhi & Hlo). rewrite Ef.
    intros Hon.
    destruct (Z_le_gt_dec (sweepNext s) 0x7FF) as [L|G].
    + destruct (Hlo L) as (_ & Eon & _).
      unfold chanOnBit in Hon, B. rewrite Eon in Hon.
      destruct A as (_ & Ha & Hd & _).
      pose proof (sweepNext_range s (B Hon) Ha Hd). unfold within. lia.
    + destruct (Hhi G) as (F & _). congruence.
Qed.

Lemma envFire_rangesR i s : Ro rangesR never s (envFire i s).
Proof.
  cbv beta delta [envFire].
  rel_exec rangesR_OK ranges_step.
Qed.

Lemma envFire_freq0R i s : Ro freq0R never s (envFire i s).
Proof.
  cbv beta delta [envFire].
  rel_exec freq0R_OK freq0_step.
Qed.

Lemma notifyChanged_rangesR c s : Ro rangesR never s (notifyChanged (c, s)).
Proof.
  cbv beta iota delta [notifyChanged].
  rel_exec rangesR_OK ranges_step.
Qed.

Lemma notifyChanged_freq0R c s : Ro freq0R never s (notifyChanged (c, s)).
Proof.
  cbv beta iota delta [notifyChanged].
  rel_exec freq0R_OK freq0_step.
Qed.

Lemma updateSound_paramsR fuel cycles s s' :
  updateSound fuel cycles s = Some s' -> paramsR s s'.
Proof.
  apply (updateSound_R paramsR).
  - unfold paramsR. tauto.
  - unfold paramsR. tauto.
  - intros v x. apply paramsR_of; [ranges_step | freq0_step].
  - intros i v x. apply paramsR_of; [ranges_step | freq0_step].
  - intros v x. apply paramsR_of; [ranges_step | freq0_step].
  - apply sweepFire_paramsR.
  - intros i x x' _ _ E. apply paramsR_of.
    + apply (envFire_rangesR i x), E.
    + apply (envFire_freq0R i x), E.
  - intros cy i c x _. apply paramsR_of; [ranges_step | freq0_step].
  - intros c x x' E. apply paramsR_of.
    + apply (notifyChanged_rangesR c x), E.
    + apply (notifyChanged_freq0R c x), E.
Qed.

Lemma run_paramsR (calls : list Call) : forall s s',
  run calls s = Some s' -> paramsR s s'.
Proof.
  induction calls as [|c calls IH]; intros s s'; cbn [run].
  - intros E. injection E as <-. unfold paramsR. tauto.
  - intros E. apply bind_Some in E. destruct E as (x & E1 & E2).
    intros P. apply (IH x s' E2).
    destruct c as [r v|fuel cycles]; cbn [call] in *.
    + exact (proj1 (handleSoundRegister_paramsOK r v s x E1) P).
    + exact (updateSound_paramsR fuel cycles s x E1 P).
Qed.

Lemma paramsR_all_OK : RelOK paramsR_all never.
Proof.
  apply RelOK_never.
  - unfold paramsR_all. tauto.
  - unfold paramsR_all. tauto.
  - intros s s' H. apply paramsR_all_of.
    + apply (R_sync _ _ rangesR_OK), H.
    + apply (R_sync _ _ freq0R_OK), H.
Qed.

Lemma paramsR_all_same s s' :
  rangesR s s' -> at_chanFreq 0 s' = at_chanFreq 0 s -> paramsR_all s s'.
Proof.
  intros W Ef (A & B). split; [exact (W A)|]. rewrite Ef. exact B.
Qed.

Ltac same_freq0 :=
  unfold_helpers; unfold unmute; split_state; reflexivity.

Lemma refresh_paramsR_all s s' : refresh s = Some s' -> paramsR_all s s'.
Proof.
  apply (refresh_Ro paramsR_all never paramsR_all_OK).
  - intros r v x. split; [intros []|].
    intros x' E. exact (proj2 (handleSoundRegister_paramsOK r v x x' E)).
  - intros x. apply paramsR_all_same; [ranges_step | same_freq0].
  - intros x. apply paramsR_all_same; [ranges_step | same_freq0].
  - intros x. apply paramsR_all_same; [ranges_step | same_freq0].
Qed.


Lemma init_paramsOK_all s s' : init s = Some s' -> paramsOK_all s'.
Proof.
  unfold init. cbv zeta. intros E.
  apply (refresh_paramsR_all _ _ E).
  unfold paramsOK_all, rangesOK, within. rsimpl. unfold fill4. rsimpl. lia.
Qed.

(** X14. The parameters decoded from the registers stay in their hardware
    ranges: [init] establishes, and every sequence of register writes and
    timer advances keeps, 3-bit sweep and envelope periods and sweep
    shift, directions within -1..1, 6-bit lengths (8-bit for the wave
    channel), length-enable flags 0 or 1, 11-bit frequencies for channels
    1 and 2 (the low-byte write of channel 2 masks with 0xFF00 only), a
    4-bit noise shift, and an 11-bit frequency for channel 0 while it is
    on.  Hence the divisors [128/chan1SweepTime] of the sweep period and
    [2048-chanFreq[i]] of the frequency conversion are never zero. *)
Theorem parameters_stay_in_range :
  (forall s s', init s = Some s' -> paramsOK s') /\
  (forall calls s s', paramsOK s -> run calls s = Some s' -> paramsOK s') /\
  (forall s, paramsOK s ->
     (truthy (chan1SweepTime (eng s)) = true ->
      18 <= idiv 128 (chan1SweepTime (eng s)) <= 128) /\
     1 <= isub 2048 (at_chanFreq 1 s) <= 2048 /\
     1 <= isub 2048 (at_chanFreq 2 s) <= 2048 /\
     (chanOnBit 0 s = true -> 1 <= isub 2048 (at_chanFreq 0 s) <= 2048)).
Proof.
  split; [|split].
  - intros s s' E. destruct (init_paramsOK_all s s' E) as (A & B).
    split; [exact A|]. intros _. exact B.
  - intros calls s s' P E. exact (run_paramsR calls s s' E P).
  - intros s (A & B).
    destruct A as (Ht & _ & _ & _ & _ & _ & _ & _ & _ & _ & _ & _ & _ & _ & _
                   & _ & _ & F1 & F2 & _).
    unfold within in *. split; [|split; [|split]].
    + intros Hn. apply negb_true_iff, Z.eqb_neq in Hn.
      assert (C : chan1SweepTime (eng s) = 1 \/ chan1SweepTime (eng s) = 2 \/
                  chan1SweepTime (eng s) = 3 \/ chan1SweepTime (eng s) = 4 \/
                  chan1SweepTime (eng s) = 5 \/ chan1SweepTime (eng s) = 6 \/
                  chan1SweepTime (eng s) = 7) by lia.
      destruct C as [C|[C|[C|[C|[C|[C|C]]]]]]; rewrite C; vm_compute;
        split; discriminate.
    + unfold isub. rewrite int32_id by lia. lia.
    + unfold isub. rewrite int32_id by lia. lia.
    + intros Hon. specialize (B Hon). unfold isub. rewrite int32_id by lia. lia.
Qed.

(** ** Writing the envelope register of an enabled channel *)

Lemma refreshSoundVolume_push i send x s' :
  0 <= i < 4 ->
  muted (eng x) = false ->
  chanOnBit i x = true ->
  get4 i (chanEnabled (sharedData x)) = true ->
  refreshSoundVolume i send x = Some s' ->
  eng s' = eng x /\
  get4 i (chanRealVol (sharedData s')) = at_chanVol i x /\
  chanEnabled (sharedData s') = chanEnabled (sharedData x) /\
  (get4 i (chanRealVol (sharedData x)) = at_chanVol i x ->
   fifo s' = fifo x /\ fifosSent (sharedData s') = fifosSent (sharedData x)).
Proof.
  intros Hi Hm Hon Hen E. unfold refreshSoundVolume in E.
  unfold chanOnBit in Hon. rewrite Hon in E.
  rewrite (sharedPtr_unmuted x Hm) in E. rewrite Hen in E.
  cbn [negb orb] in E.
  assert (P : forall y, y = asgp_chanRealVol i (at_chanVol i x) x ->
            eng y = eng x /\
            get4 i (chanRealVol (sharedData y)) = at_chanVol i x /\
            chanEnabled (sharedData y) = chanEnabled (sharedData x) /\
            fifo y = fifo x /\
            fifosSent (sharedData y) = fifosSent (sharedData x)).
  { intros y ->. unfold asgp_chanRealVol, upd_sharedPtr. rewrite Hm.
    by_channel i Hi; rsimpl; repeat split. }
  destruct (send && negb (get4 i (chanRealVol (sharedData x)) =? at_chanVol i x))
    eqn:Hc.
  - apply andb_true_iff in Hc. destruct Hc as (_ & Hc).
    apply negb_true_iff, Z.eqb_neq in Hc.
    destruct (sync_frame_synchronizeSound _ _ E) as (F1 & _ & _ & _ & _ & F6).
    set (y := asgp_chanRealVol i (at_chanVol i x) x) in *.
    destruct (P y eq_refl) as (P1 & P2 & P3 & _).
    assert (M : sharedData (asgp_message (Z.lor (ishl GBSND_VOLUME_COMMAND 20) i) y)
                = set_message (Z.lor (ishl GBSND_VOLUME_COMMAND 20) i) (sharedData y)).
    { unfold asgp_message, upd_sharedPtr. rewrite P1, Hm. reflexivity. }
    assert (Me : eng (asgp_message (Z.lor (ishl GBSND_VOLUME_COMMAND 20) i) y) = eng y).
    { unfold asgp_message, upd_sharedPtr. destruct (muted (eng y)); reflexivity. }
    rewrite M in F6. rewrite Me in F1.
    split; [congruence|]. split; [|split].
    + transitivity (get4 i (chanRealVol (protoErase (sharedData s'))));
        [reflexivity|]. rewrite F6. exact P2.
    + transitivity (chanEnabled (protoErase (sharedData s')));
        [reflexivity|]. rewrite F6. exact P3.
    + intros Heq. contradiction.
  - injection E as <-.
    destruct (P _ eq_refl) as (P1 & P2 & P3 & P4 & P5). auto.
Qed.

Lemma envelope_register_body ch val s :
  ch = 0 \/ ch = 1 \/ ch = 3 ->
  handleSoundRegister (volReg ch) val s =
  (let v := u8 val in
   let x := asg_chanVol ch (Z.shiftr v 4) s in
   let x := if truthy (Z.land v 0x8)
            then asg_chanEnvDir ch 1 x else asg_chanEnvDir ch (-1) x in
   let x := asg_chanEnvSweep ch (Z.land v 0x7) x in
   refreshSoundVolume ch true x).
Proof. intros [->|[->| ->]]; reflexivity. Qed.

(** X15. Writing the envelope register of channel 0, 1 or 3 while the
    engine is not muted, the channel is on and the user has enabled it
    ([enableChannel]): the engine takes the volume from the high nibble
    (0..15), the direction from bit 3 and the period from the low three
    bits, and the shared block's [chanRealVol] becomes that volume; when
    it already had it, nothing is sent. *)
Theorem volume_write (ch val : Z) (s s' : State) :
  ch = 0 \/ ch = 1 \/ ch = 3 ->
  muted (eng s) = false ->
  chanOnBit ch s = true ->
  handleSoundRegister (volReg ch) val (enableChannel ch s) = Some s' ->
  at_chanVol ch s' = Z.shiftr (u8 val) 4 /\
  within 0 15 (at_chanVol ch s') /\
  at_chanEnvDir ch s' = (if truthy (Z.land (u8 val) 0x8) then 1 else -1) /\
  at_chanEnvSweep ch s' = Z.land (u8 val) 0x7 /\
  get4 ch (chanRealVol (sharedData s')) = Z.shiftr (u8 val) 4 /\
  get4 ch (chanEnabled (sharedData s')) = true /\
  (get4 ch (chanRealVol (sharedData s)) = Z.shiftr (u8 val) 4 ->
   fifo s' = fifo s /\ fifosSent (sharedData s') = fifosSent (sharedData s)).
Proof.
  intros Hch Hm Hon E.
  rewrite (envelope_register_body ch val _ Hch) in E. cbv zeta in E.
  assert (Hi : 0 <= ch < 4) by lia.
  match type of E with refreshSoundVolume _ _ ?x0 = _ => set (x := x0) in * end.
  assert (X : muted (eng x) = false /\ chanOnBit ch x = true /\
              get4 ch (chanEnabled (sharedData x)) = true /\
              at_chanVol ch x = Z.shiftr (u8 val) 4 /\
              at_chanEnvDir ch x
              = (if truthy (Z.land (u8 val) 0x8) then 1 else -1) /\
              at_chanEnvSweep ch x = Z.land (u8 val) 0x7 /\
              chanRealVol (sharedData x) = chanRealVol (sharedData s) /\
              fifo x = fifo s /\
              fifosSent (sharedData x) = fifosSent (sharedData s)).
  { subst x. unfold chanOnBit, sharedPtr in *.
    destruct (truthy (Z.land (u8 val) 8));
      destruct Hch as [Hch|[Hch|Hch]]; subst ch;
      unfold enableChannel; rsimpl; rewrite Hm;
      repeat split; try reflexivity; rsimpl in Hon; rewrite Hm in Hon;
      exact Hon. }
  destruct X as (Xm & Xon & Xen & Xv & Xd & Xs & Xr & Xf & Xn).
  destruct (refreshSoundVolume_push ch true x s' Hi Xm Xon Xen E)
    as (Pe & Pv & Pen & Pq).
  unfold at_chanVol, at_chanEnvDir, at_chanEnvSweep in *. rewrite Pe.
  split; [exact Xv|]. split; [rewrite Xv; apply within_shr4|].
  split; [exact Xd|]. split; [exact Xs|].
  split; [rewrite Pv; exact Xv|]. split; [rewrite Pen; exact Xen|].
  intros Hq. rewrite <- Xr, <- Xv in Hq. destruct (Pq Hq) as (Q1 & Q2).
  split; congruence.
Qed.

(** ** The wave channel has no envelope *)

Lemma waveVolR_OK : RelOK waveVolR never.
Proof.
  apply RelOK_never.
  - unfold waveVolR. tauto.
  - unfold waveVolR. intros s1 s2 s3 (A1 & A2 & A3) (B1 & B2 & B3).
    repeat split; congruence.
  - intros s s' H. destruct (sync_frame_synchronizeSound s s' H)
      as (F1 & _ & F3 & _ & _ & F6).
    unfold waveVolR, at_chanVol, sharedPtr. rewrite F1, F3.
    split; [reflexivity|]. split; [reflexivity|].
    destruct (muted (eng s)); [reflexivity|].
    rewrite (f_equal chanRealVol F6 : chanRealVol (sharedData s') = _).
    unfold protoErase. rsimpl. reflexivity.
Qed.

Ltac wave_step :=
  cbv beta iota delta [sweepFire lengthStep FIFO_SEND];
  unfold_helpers; unfold waveVolR, sharedPtr; split_state;
  try solve [closed_contra];
  rsimpl_all; repeat split; first [reflexivity | congruence].

Lemma envFire_waveVolR i s :
  0 <= i < 4 -> i <> 2 -> Ro waveVolR never s (envFire i s).
Proof.
  intros Hi N. cbv beta delta [envFire].
  by_channel i Hi; try contradiction.
  all: rel_exec waveVolR_OK wave_step.
Qed.

Lemma notifyChanged_waveVolR c s : Ro waveVolR never s (notifyChanged (c, s)).
Proof.
  cbv beta iota delta [notifyChanged].
  rel_exec waveVolR_OK wave_step.
Qed.

Lemma updateSound_waveVolR fuel cycles s s' :
  updateSound fuel cycles s = Some s' -> waveVolR s s'.
Proof.
  apply (updateSound_R waveVolR).
  - apply (R_refl _ _ waveVolR_OK).
  - apply (R_trans _ _ waveVolR_OK).
  - intros v x. wave_step.
  - intros i v x. wave_step.
  - intros v x. wave_step.
  - intros x. wave_step.
  - intros i x x' Hi N E. apply (envFire_waveVolR i x Hi N), E.
  - intros cy i c x _. wave_step.
  - intros c x x' E. apply (notifyChanged_waveVolR c x), E.
Qed.

(** X16. The wave channel has no envelope: advancing the timers never
    changes its volume, neither [chanVol[2]] of the engine nor
    [chanRealVol[2]] of the shared block the engine writes to (the
    envelope pass skips channel 2 whatever its envelope period holds). *)
Theorem wave_volume_not_enveloped (calls : list Call) : forall s s',
  Forall isAdvance calls ->
  run calls s = Some s' ->
  at_chanVol 2 s' = at_chanVol 2 s /\
  get4 2 (chanRealVol (sharedPtr s')) = get4 2 (chanRealVol (sharedPtr s)).
Proof.
  induction calls as [|c calls IH]; intros s s' Ha; cbn [run].
  - intros E. injection E as <-. auto.
  - intros E. apply bind_Some in E. destruct E as (x & E1 & E2).
    inversion Ha as [|c0 l0 Ha1 Ha2]; subst.
    destruct c as [r v|fuel cycles]; cbn [call isAdvance] in *; [contradiction|].
    destruct (updateSound_waveVolR fuel cycles s x E1) as (_ & K1 & K2).
    destruct (IH x s' Ha2 E2) as (Y1 & Y2).
    split; congruence.
Qed.

End Properties.

(** * Instances on the concrete configuration *)

Lemma trigger_write_witness :
  exists s',
    handleSoundRegister (hdr := ds_header) 0x14 0x80 state_dac = Some s' /\
    chanOn (sharedPtr s') = 1 /\
    at_chanLenCounter 0 s' = 1048576 /\
    at_chanVol 0 s' = 10 /\
    fifo s' = [1048576].
Proof.
  destruct (trigger_write (hdr := ds_header) 0 0x80 state_dac)
    as (s1 & E & _ & T & B).
  - lia.
  - reflexivity.
  - intros H. discriminate H.
  - destruct (B eq_refl eq_refl) as (s' & E' & F).
    exists s'. split; [exact E'|].
    rewrite E in E'. destruct (T s' E') as (_ & T2 & T3 & T4 & _).
    split; [exact T2|]. split; [exact T3|]. split.
    + apply T4. discriminate.
    + apply F. vm_compute. reflexivity.
Defined.


Lemma master_disable_witness :
  exists s1 s2,
    handleSoundRegister (hdr := ds_header) 0x26 0 state0 = Some s1 /\
    handleSoundRegister (hdr := ds_header) 0x26 0 s1 = Some s2 /\
    chanOn (sharedPtr s1) = 0 /\ chanOn (sharedPtr s2) = 0 /\
    fifo s2 = fifo s1 ++ [4].
Proof.
  destruct (master_disable (hdr := ds_header) 0 0 state0 eq_refl eq_refl)
    as (E & H).
  assert (E1 : handleSoundRegister (hdr := ds_header) 0x26 0 state0
               = Some (FIFO_SEND 4 (asgp_message 4 (asgp_chanOn 0 state0))))
    by (vm_compute; reflexivity).
  destruct (H _ E1) as (Hon & _ & _ & H2 & H3).
  destruct H3 as (s2 & E2 & F2 & _); [reflexivity | reflexivity | vm_compute; reflexivity |].
  eexists. exists s2. split; [exact E1|]. split; [exact E2|].
  split; [exact Hon|]. split; [apply (H2 s2 E2)|exact F2].
Defined.


Lemma sweep_overflow_witness :
  exists s',
    updateSound (hdr := ds_header) 4 32768 state_sweep = Some s' /\
    at_chanFreq 0 s' = 0x800 /\
    chanOnBit 0 s' = false.
Proof.
  destruct (updateSound (hdr := ds_header) 4 32768 state_sweep) as [s'|] eqn:E;
    [|vm_compute in E; discriminate E].
  exists s'. split; [reflexivity|].
  destruct (sweep_overflow (hdr := ds_header)) as (_ & H & _).
  destruct (H 4%nat 32768 state_sweep s' E eq_refl eq_refl eq_refl)
    as (n & c & _ & _ & Hk & Hc & Hf & _ & Hov).
  destruct n as [|[|n]].
  - vm_compute in Hc. discriminate Hc.
  - split; [exact Hf|]. apply (Hov 0%nat); [lia|]. reflexivity.
  - exfalso. assert (L : (1 < S (S n))%nat) by lia.
    apply (Hk 1%nat L). reflexivity.
Defined.


Lemma envelope_volume_range_witness :
  exists s',
    updateSound (hdr := ds_header) 4 65536 state_env = Some s' /\
    vol_ok s'.
Proof.
  destruct (envelope_volume_range (hdr := ds_header)) as (_ & _ & _ & _ & H).
  destruct (H 4%nat 65536 state_env) as (s' & E & Hv).
  - split; reflexivity.
  - intros F. vm_compute in F. discriminate F.
  - intros _. vm_compute. split; reflexivity.
  - intros F. vm_compute in F. discriminate F.
  - intros F. vm_compute in F. discriminate F.
  - exists s'. split; [exact E|]. apply Hv.
    unfold vol_ok. vm_compute. intuition discriminate.
Defined.

(** ** Instances of the further properties *)

Lemma soundEvent_only_lowered_witness :
  exists s',
    run (hdr := ds_header) [Write 0x10 0x11; Advance 4 100] state_len = Some s' /\
    cyclesToSoundEvent (eng s') <= 70224.
Proof.
  destruct (run (hdr := ds_header) [Write 0x10 0x11; Advance 4 100] state_len)
    as [s'|] eqn:E; [|vm_compute in E; discriminate E].
  exists s'. split; [reflexivity|].
  exact (proj1 (proj2 (soundEvent_only_lowered (hdr := ds_header))) _ _ _ E).
Defined.

Lemma handleSoundRegister_ignored_witness :
  handleSoundRegister (hdr := ds_header) 0x15 7 state0 = Some state0 /\
  handleSoundRegister (hdr := ds_header) 0x1A 0x80 state0 = Some state0 /\
  handleSoundRegister (hdr := ds_header) (0x12 + 256) 0xA3 state0
  = handleSoundRegister (hdr := ds_header) 0x12 0xA3 state0.
Proof.
  destruct (handleSoundRegister_ignored (hdr := ds_header) 0x15 7 state0)
    as (A & _ & _).
  destruct (handleSoundRegister_ignored (hdr := ds_header) 0x1A 0x80 state0)
    as (_ & B & _).
  destruct (handleSoundRegister_ignored (hdr := ds_header) 0x12 0xA3 state0)
    as (_ & _ & C).
  split; [apply A; reflexivity|]. split; [|exact C].
  apply B; [reflexivity|]. vm_compute. discriminate.
Defined.

Lemma wave_write_witness :
  handleSoundRegister (hdr := ds_header) 0x35 9 state_dac
  = Some (updateSoundSample 5 state_dac) /\
  List.length (sampleData (eng (updateSoundSample 5 state_dac))) = 32%nat.
Proof.
  assert (Hk : 0 <= 5 < 16) by lia.
  destruct (wave_write (hdr := ds_header) 5 9 state_dac Hk)
    as (A & _ & _ & _ & _ & _ & _ & L & _).
  split; [exact A|]. rewrite L. reflexivity.
Defined.

Lemma pan_write_witness :
  exists s',
    handleSoundRegister (hdr := ds_header) 0x25 0x21 state0 = Some s' /\
    fifo s' = [4; 3145728].
Proof.
  destruct (pan_write (hdr := ds_header) 0x21 state0) as (_ & H).
  destruct H as (s' & E & F).
  - split; reflexivity.
  - vm_compute. split; discriminate.
  - reflexivity.
  - vm_compute. discriminate.
  - exists s'. split; [exact E|]. rewrite F. reflexivity.
Defined.

Lemma square_frequency_write_witness :
  exists s',
    run (hdr := ds_header) [Write 0x13 0x34; Write 0x14 0x05] state0 = Some s' /\
    at_chanFreq 0 s' = 0x534.
Proof.
  destruct (run (hdr := ds_header) [Write 0x13 0x34; Write 0x14 0x05] state0)
    as [s'|] eqn:E; [|vm_compute in E; discriminate E].
  exists s'. split; [reflexivity|].
  destruct (square_frequency_write (hdr := ds_header) 0 (or_introl eq_refl))
    as (_ & _ & H).
  exact (H 0x34 0x05 state0 s' (or_introl E)).
Defined.

Lemma noise_frequency_write_witness :
  exists s',
    handleSoundRegister (hdr := ds_header) 0x22 0x35 state0 = Some s' /\
    at_chanFreq 3 s' = 3 /\
    get4 3 (chanRealFreq (sharedPtr s')) = 6553.
Proof.
  destruct (handleSoundRegister (hdr := ds_header) 0x22 0x35 state0)
    as [s'|] eqn:E; [|vm_compute in E; discriminate E].
  exists s'. split; [reflexivity|].
  destruct (noise_frequency_write (hdr := ds_header) 0x35 state0 s' E)
    as (A & _ & _ & _ & B & _).
  split; [exact A|]. rewrite B. reflexivity.
Defined.

Lemma master_volume_write_witness :
  exists s',
    handleSoundRegister (hdr := ds_header) 0x24 0x77 state0 = Some s' /\
    volControl (sharedPtr s') = 0x77 /\
    handleSoundRegister (hdr := ds_header) 0x24 0x77 s' = Some s'.
Proof.
  destruct (handleSoundRegister (hdr := ds_header) 0x24 0x77 state0)
    as [s'|] eqn:E; [|vm_compute in E; discriminate E].
  exists s'. split; [reflexivity|].
  destruct (master_volume_write (hdr := ds_header) 0x77 state0) as (H & _).
  destruct (H s' E) as (A & _ & B).
  split; [exact A|exact B].
Defined.

Lemma fifo_accounting_witness :
  exists s',
    run (hdr := ds_header) [Write 0x26 0; Write 0x25 0x11] state0 = Some s' /\
    trafficR state0 s'.
Proof.
  destruct (run (hdr := ds_header) [Write 0x26 0; Write 0x25 0x11] state0)
    as [s'|] eqn:E; [|vm_compute in E; discriminate E].
  exists s'. split; [reflexivity|].
  exact (proj1 (fifo_accounting (hdr := ds_header)) _ _ _ E).
Defined.

Lemma muted_run_is_silent_witness :
  exists s',
    run (hdr := ds_header) [Write 0x12 0xA3; Advance 4 100] state_muted = Some s' /\
    sharedData s' = sharedData state_muted /\
    fifo s' = [].
Proof.
  destruct (run (hdr := ds_header) [Write 0x12 0xA3; Advance 4 100] state_muted)
    as [s'|] eqn:E; [|vm_compute in E; discriminate E].
  exists s'. split; [reflexivity|].
  destruct (muted_run_is_silent (hdr := ds_header) _ _ _ E) as (_ & _ & _ & H & _).
  destruct (H eq_refl) as (A & B & _).
  split; [exact A|exact B].
Defined.

Lemma length_disabled_stays_on_witness :
  exists s',
    run (hdr := ds_header) [Advance 4 100; Advance 4 70000]
        (upd_sharedData (set_chanOn CHAN_3) state0) = Some s' /\
    chanOnBit 2 s' = true.
Proof.
  destruct (run (hdr := ds_header) [Advance 4 100; Advance 4 70000]
              (upd_sharedData (set_chanOn CHAN_3) state0))
    as [s'|] eqn:E; [|vm_compute in E; discriminate E].
  exists s'. split; [reflexivity|].
  assert (Hi : 0 < 2 < 4) by lia.
  assert (Ha : Forall isAdvance [Advance 4 100; Advance 4 70000])
    by (repeat constructor).
  destruct (length_disabled_stays_on (hdr := ds_header) 2 _
              (upd_sharedData (set_chanOn CHAN_3) state0) s' Hi Ha eq_refl E)
    as (A & _).
  rewrite A. reflexivity.
Defined.

Lemma updateSound_schedules_next_event_witness :
  exists s',
    updateSound (hdr := ds_header) 4 10 state_len = Some s' /\
    0 < at_chanLenCounter 1 s' /\
    cyclesToSoundEvent (eng s') <= at_chanLenCounter 1 s'.
Proof.
  destruct (updateSound (hdr := ds_header) 4 10 state_len)
    as [s'|] eqn:E; [|vm_compute in E; discriminate E].
  exists s'. split; [reflexivity|].
  assert (Hi : 0 <= 1 < 4) by lia.
  destruct (updateSound_schedules_next_event (hdr := ds_header)
              4 10 state_len s' eq_refl E) as (_ & _ & H).
  apply (H 1 Hi); vm_compute in E; injection E as <-; reflexivity.
Defined.

Lemma synchronizeSound_handshake_witness :
  (exists s', synchronizeSound state_hyper_ack = Some s' /\ fifo s' = []) /\
  synchronizeSound state_hyper_silent = None.
Proof.
  split.
  - destruct (synchronizeSound_handshake state_hyper_ack
                eq_refl eq_refl eq_refl eq_refl) as (H & _).
    + vm_compute. reflexivity.
    + destruct (H 1%nat) as (E & F & _).
      * intros i Hi. assert (i = 0%nat) by lia. subst i.
        vm_compute. split; [discriminate|reflexivity].
      * vm_compute. reflexivity.
      * eexists. split; [exact E|exact F].
  - destruct (synchronizeSound_handshake state_hyper_silent
                eq_refl eq_refl eq_refl eq_refl) as (_ & H).
    + vm_compute. reflexivity.
    + apply H. intros i. destruct i as [|m].
      * vm_compute. split; [discriminate|reflexivity].
      * change (S m) with (1 + m)%nat.
        rewrite iter_spinIter_static by reflexivity.
        vm_compute. split; [discriminate|reflexivity].
Defined.

Lemma disabled_channel_volume_frozen_witness :
  exists s',
    run (hdr := ds_header) [Write 0x12 0xF0; Advance 4 100000]
        (disableChannel 0 state_env) = Some s' /\
    get4 0 (chanEnabled (sharedData s')) = false /\
    get4 0 (chanRealVol (sharedData s')) = 0.
Proof.
  destruct (run (hdr := ds_header) [Write 0x12 0xF0; Advance 4 100000]
              (disableChannel 0 state_env))
    as [s'|] eqn:E; [|vm_compute in E; discriminate E].
  exists s'. split; [reflexivity|].
  assert (Hi : 0 <= 0 < 4) by lia.
  exact (disabled_channel_volume_frozen (hdr := ds_header) 0 _ state_env s' Hi E).
Defined.

Lemma parameters_stay_in_range_witness :
  exists s1 s2,
    init (hdr := ds_header) state_dac = Some s1 /\
    run (hdr := ds_header)
        [Write 0x1E 0x87; Write 0x1D 0xFF; Advance 4 100] s1 = Some s2 /\
    paramsOK s2 /\
    1 <= isub 2048 (at_chanFreq 2 s2) <= 2048.
Proof.
  destruct (parameters_stay_in_range (hdr := ds_header)) as (Hinit & Hrun & Hdiv).
  destruct (init (hdr := ds_header) state_dac) as [s1|] eqn:E1;
    [|vm_compute in E1; discriminate E1].
  destruct (run (hdr := ds_header)
              [Write 0x1E 0x87; Write 0x1D 0xFF; Advance 4 100] s1)
    as [s2|] eqn:E2.
  - exists s1, s2. split; [reflexivity|]. split; [exact E2|].
    pose proof (Hrun _ s1 s2 (Hinit _ s1 E1) E2) as P.
    split; [exact P|]. exact (proj1 (proj2 (proj2 (Hdiv s2 P)))).
  - exfalso. vm_compute in E1. injection E1 as <-.
    vm_compute in E2. discriminate E2.
Defined.

Lemma volume_write_witness :
  exists s',
    handleSoundRegister (hdr := ds_header) 0x12 0xA3 (enableChannel 0 state_env)
    = Some s' /\
    at_chanVol 0 s' = 10 /\
    get4 0 (chanRealVol (sharedData s')) = 10.
Proof.
  destruct (handleSoundRegister (hdr := ds_header) 0x12 0xA3
              (enableChannel 0 state_env))
    as [s'|] eqn:E; [|vm_compute in E; discriminate E].
  exists s'. split; [reflexivity|].
  destruct (volume_write (hdr := ds_header) 0 0xA3 state_env s'
              (or_introl eq_refl) eq_refl eq_refl E)
    as (A & _ & _ & _ & B & _).
  split; [exact A|exact B].
Defined.

Lemma wave_volume_not_enveloped_witness :
  exists s',
    run (hdr := ds_header) [Advance 4 65536; Advance 4 65536] state_env = Some s' /\
    at_chanVol 2 s' = 0.
Proof.
  destruct (run (hdr := ds_header) [Advance 4 65536; Advance 4 65536] state_env)
    as [s'|] eqn:E; [|vm_compute in E; discriminate E].
  exists s'. split; [reflexivity|].
  assert (Ha : Forall isAdvance [Advance 4 65536; Advance 4 65536])
    by (repeat constructor).
  exact (proj1 (wave_volume_not_enveloped (hdr := ds_header) _ _ s' Ha E)).
Defined.
